(** * L1 syncer of the zk rollup node: a shallow embedding and its properties

    The development follows the Go package [syncer]: the endpoint rotator
    ([getNextEtherman]), the contract call decoding
    ([callGetRollupSequencedBatches]), the backward resolver
    ([GetOldAccInputHash]), the range planning loop and the result
    collection of [queryBlocks], the fetch worker ([getSequencedLogs]) and
    the poll loop of [Run].

    Conventions.
    - [uint64], [uint8] and [int] values are integers of [Z]; every
      arithmetic operation of the source is followed by the wrap-around of
      its type.
    - The chain endpoints are external: an [IEtherman] is a record of
      response functions which also receive the logical time of the call
      (the number of external effects performed so far), so that an endpoint
      may answer differently from one call to the next.
    - Sleeps, endpoint calls and sends on the worker result channel are
      appended to the [trace] of the syncer, oldest first.
    - A Go run-time panic (indexing an empty endpoint list) is the outcome
      [Panic]. *)

From Stdlib Require Import ZArith List Bool Lia.
From Stdlib.Strings Require Import String Ascii Byte.
From Stdlib Require Import DecimalString.
From Stdlib Require Import Sorting.Sorted Wellfounded Zwf Relation_Operators.
Import ListNotations.

Local Open Scope Z_scope.

(** ** Machine integers *)

Module Int.

Definition uint64 (z : Z) : Z := z mod 2 ^ 64.
Definition uint8 (z : Z) : Z := z mod 2 ^ 8.
(** Go's [int] and [int64] on a 64-bit platform; [time.Duration] is an
    [int64]. *)
Definition int64 (z : Z) : Z := (z + 2 ^ 63) mod 2 ^ 64 - 2 ^ 63.

Definition is_uint64 (z : Z) : Prop := 0 <= z < 2 ^ 64.

End Int.
Import Int.

(** ** Bytes, hashes and the hexadecimal call data *)

Definition byte_of_Z (z : Z) : byte :=
  match Byte.of_N (Z.to_N (z mod 256)) with
  | Some b => b
  | None => x00
  end.

Definition Z_of_byte (b : byte) : Z := Z.of_N (Byte.to_N b).

Fixpoint bytes_eqb (a b : list byte) : bool :=
  match a, b with
  | [], [] => true
  | x :: a', y :: b' => Byte.eqb x y && bytes_eqb a' b'
  | _, _ => false
  end.

(** [common.Hash] is [[32]byte]; [common.Address] is [[20]byte]. *)
Definition Hash := list byte.
Definition Address := list byte.

Definition HashLength : nat := 32.

(** The zero value [common.Hash{}]. *)
Definition Hash_zero : Hash := repeat x00 HashLength.

(** Modelled from the spec: the constant [types.ZeroHash] of package
    [zk/rpcdaemon], which is not part of the sources at hand; the spec calls
    it the all-zero hash. *)
Definition ZeroHash : Hash := repeat x00 HashLength.

(** [common.BytesToHash]: keeps the last 32 bytes of a longer input and
    right-aligns a shorter one. *)
Definition BytesToHash (b : list byte) : Hash :=
  let b := skipn (List.length b - HashLength) b in
  repeat x00 (HashLength - List.length b) ++ b.

(** [binary.BigEndian.Uint64] on a slice of (at least) 8 bytes. *)
Definition BigEndian_Uint64 (b : list byte) : Z :=
  fold_left (fun acc x => acc * 256 + Z_of_byte x) (firstn 8 b) 0.

(** The Go slice expression [b[lo:hi]] (within bounds). *)
Definition slice (lo hi : nat) (b : list byte) : list byte :=
  firstn (hi - lo) (skipn lo b).

Definition hexdigit (d : Z) : ascii :=
  if d <? 10 then ascii_of_N (Z.to_N (48 + d))
  else ascii_of_N (Z.to_N (87 + d)).

Fixpoint hex_digits (fuel : nat) (n : Z) (acc : string) : string :=
  match fuel with
  | O => acc
  | S fuel' =>
      let acc' := String (hexdigit (n mod 16)) acc in
      if n / 16 =? 0 then acc' else hex_digits fuel' (n / 16) acc'
  end.

Fixpoint zeros (n : nat) : string :=
  match n with
  | O => EmptyString
  | S n' => String "0" (zeros n')
  end.

(** [fmt.Sprintf("%064x", n)] for a [uint64]: lower-case hexadecimal,
    padded with zeros on the left to 64 characters. *)
Definition Sprintf_064x (n : Z) : string :=
  let digits := hex_digits 16 n EmptyString in
  (zeros (64 - String.length digits) ++ digits)%string.

Definition unhex (c : ascii) : option Z :=
  let n := Z.of_N (N_of_ascii c) in
  if (48 <=? n) && (n <=? 57) then Some (n - 48)
  else if (97 <=? n) && (n <=? 102) then Some (n - 87)
  else if (65 <=? n) && (n <=? 70) then Some (n - 55)
  else None.

(** [hex.DecodeString], whose error [common.Hex2Bytes] drops: the bytes
    decoded before the first invalid character. *)
Fixpoint Hex2Bytes (s : string) : list byte :=
  match s with
  | String a (String b rest) =>
      match unhex a, unhex b with
      | Some hi, Some lo => byte_of_Z (hi * 16 + lo) :: Hex2Bytes rest
      | _, _ => []
      end
  | _ => []
  end.

(** [common.FromHex]: an optional [0x] prefix, an odd length padded with a
    leading zero. *)
Definition FromHex (s : string) : list byte :=
  let s := match s with
           | String "0" (String "x" rest) => rest
           | String "0" (String "X" rest) => rest
           | _ => s
           end in
  let s := if Nat.odd (String.length s) then String "0" s else s in
  Hex2Bytes s.

(** hardcoded abi signature *)
Definition rollupSequencedBatchesSignature : string := "0x25280169".

(** ** Errors *)

Inductive error : Type :=
| errorShortResponseLT32   (* "response too short to contain hash data" *)
| errorShortResponseLT96   (* "response too short to contain last batch
                              number data" *)
| Errorf (msg : string)    (* an error made on the spot by [fmt.Errorf] *)
| RemoteError (code : Z).  (* whatever else an endpoint answers *)

Definition is_short_response (e : error) : bool :=
  match e with
  | errorShortResponseLT32 | errorShortResponseLT96 => true
  | _ => false
  end.

(** ** Data of the syncer *)

Record Log : Type := mkLog { BlockNumber : Z; LogData : list byte }.

(** A block, reduced to the number of its header (a [big.Int]). *)
Record Block : Type := mkBlock { Number : Z }.

(** [Block.NumberU64]: the header number cut to a [uint64]. *)
Definition NumberU64 (b : Block) : Z := uint64 (Number b).

Record FilterQuery : Type := mkFilterQuery {
  FromBlock : Z;
  ToBlock : Z;
  Addresses : list Address;
  Topics : list (list Hash)
}.

Record CallMsg : Type := mkCallMsg { Msg_To : Address; Data : list byte }.

Record fetchJob : Type := mkFetchJob { From : Z; To : Z }.

Record jobResult : Type := mkJobResult {
  Size : Z;
  Error : option error;
  Logs : list Log
}.

(** The endpoint capability.  The first argument of each method is the
    logical time of the call. *)
Record IEtherman : Type := mkEtherman {
  BlockByNumber : nat -> Z -> Block + error;
  FilterLogs : nat -> FilterQuery -> list Log + error;
  CallContract : nat -> CallMsg -> option Z -> list byte + error
}.

(** [rpc.FinalizedBlockNumber] *)
Definition FinalizedBlockNumber : Z := -3.

Inductive Event : Type :=
| EvBlockByNumber (number : Z) (answer : Block + error)
| EvFilterLogs (q : FilterQuery) (answer : list Log + error)
| EvCallContract (msg : CallMsg)
| EvSleep (nanoseconds : Z)
| EvResult (r : jobResult).

(** A progress message, before it is printed with
    ["L1 Blocks processed progress (amounts): %d/%d (%d%%)"]. *)
Record Progress : Type := mkProgress {
  processed : Z;
  total : Z;
  percent : Z
}.

Record L1Syncer : Type := mkL1Syncer {
  etherMans : list IEtherman;
  ethermanIndex : Z;                       (* uint8 *)
  l1ContractAddresses : list Address;
  topics : list (list Hash);
  blockRange : Z;                          (* uint64 *)
  queryDelay : Z;                          (* uint64 *)
  l1QueryBlocksThreads : Z;                (* uint64 *)
  latestL1Block : Z;                       (* uint64 *)
  isSyncStarted : bool;
  isDownloading : bool;
  lastCheckedL1Block : Z;                  (* uint64 *)
  logsChan : list (list Log);              (* what was sent, oldest first *)
  progressMessageChan : list Progress;     (* what was sent, oldest first *)
  trace : list Event                       (* external effects, oldest first *)
}.

Definition NewL1Syncer (ems : list IEtherman) (addrs : list Address)
    (tps : list (list Hash)) (range delay threads : Z) : L1Syncer :=
  {| etherMans := ems; ethermanIndex := 0;
     l1ContractAddresses := addrs; topics := tps;
     blockRange := range; queryDelay := delay;
     l1QueryBlocksThreads := threads;
     latestL1Block := 0; isSyncStarted := false; isDownloading := false;
     lastCheckedL1Block := 0; logsChan := []; progressMessageChan := [];
     trace := [] |}.

Definition set_ethermanIndex (v : Z) (s : L1Syncer) : L1Syncer :=
  {| etherMans := etherMans s; ethermanIndex := v;
     l1ContractAddresses := l1ContractAddresses s; topics := topics s;
     blockRange := blockRange s; queryDelay := queryDelay s;
     l1QueryBlocksThreads := l1QueryBlocksThreads s;
     latestL1Block := latestL1Block s; isSyncStarted := isSyncStarted s;
     isDownloading := isDownloading s;
     lastCheckedL1Block := lastCheckedL1Block s; logsChan := logsChan s;
     progressMessageChan := progressMessageChan s; trace := trace s |}.

Definition set_latestL1Block (v : Z) (s : L1Syncer) : L1Syncer :=
  {| etherMans := etherMans s; ethermanIndex := ethermanIndex s;
     l1ContractAddresses := l1ContractAddresses s; topics := topics s;
     blockRange := blockRange s; queryDelay := queryDelay s;
     l1QueryBlocksThreads := l1QueryBlocksThreads s;
     latestL1Block := v; isSyncStarted := isSyncStarted s;
     isDownloading := isDownloading s;
     lastCheckedL1Block := lastCheckedL1Block s; logsChan := logsChan s;
     progressMessageChan := progressMessageChan s; trace := trace s |}.

Definition set_isSyncStarted (v : bool) (s : L1Syncer) : L1Syncer :=
  {| etherMans := etherMans s; ethermanIndex := ethermanIndex s;
     l1ContractAddresses := l1ContractAddresses s; topics := topics s;
     blockRange := blockRange s; queryDelay := queryDelay s;
     l1QueryBlocksThreads := l1QueryBlocksThreads s;
     latestL1Block := latestL1Block s; isSyncStarted := v;
     isDownloading := isDownloading s;
     lastCheckedL1Block := lastCheckedL1Block s; logsChan := logsChan s;
     progressMessageChan := progressMessageChan s; trace := trace s |}.

Definition set_isDownloading (v : bool) (s : L1Syncer) : L1Syncer :=
  {| etherMans := etherMans s; ethermanIndex := ethermanIndex s;
     l1ContractAddresses := l1ContractAddresses s; topics := topics s;
     blockRange := blockRange s; queryDelay := queryDelay s;
     l1QueryBlocksThreads := l1QueryBlocksThreads s;
     latestL1Block := latestL1Block s; isSyncStarted := isSyncStarted s;
     isDownloading := v;
     lastCheckedL1Block := lastCheckedL1Block s; logsChan := logsChan s;
     progressMessageChan := progressMessageChan s; trace := trace s |}.

Definition set_lastCheckedL1Block (v : Z) (s : L1Syncer) : L1Syncer :=
  {| etherMans := etherMans s; ethermanIndex := ethermanIndex s;
     l1ContractAddresses := l1ContractAddresses s; topics := topics s;
     blockRange := blockRange s; queryDelay := queryDelay s;
     l1QueryBlocksThreads := l1QueryBlocksThreads s;
     latestL1Block := latestL1Block s; isSyncStarted := isSyncStarted s;
     isDownloading := isDownloading s;
     lastCheckedL1Block := v; logsChan := logsChan s;
     progressMessageChan := progressMessageChan s; trace := trace s |}.

Definition send_logs (l : list Log) (s : L1Syncer) : L1Syncer :=
  {| etherMans := etherMans s; ethermanIndex := ethermanIndex s;
     l1ContractAddresses := l1ContractAddresses s; topics := topics s;
     blockRange := blockRange s; queryDelay := queryDelay s;
     l1QueryBlocksThreads := l1QueryBlocksThreads s;
     latestL1Block := latestL1Block s; isSyncStarted := isSyncStarted s;
     isDownloading := isDownloading s;
     lastCheckedL1Block := lastCheckedL1Block s;
     logsChan := logsChan s ++ [l];
     progressMessageChan := progressMessageChan s; trace := trace s |}.

Definition send_progress (p : Progress) (s : L1Syncer) : L1Syncer :=
  {| etherMans := etherMans s; ethermanIndex := ethermanIndex s;
     l1ContractAddresses := l1ContractAddresses s; topics := topics s;
     blockRange := blockRange s; queryDelay := queryDelay s;
     l1QueryBlocksThreads := l1QueryBlocksThreads s;
     latestL1Block := latestL1Block s; isSyncStarted := isSyncStarted s;
     isDownloading := isDownloading s;
     lastCheckedL1Block := lastCheckedL1Block s; logsChan := logsChan s;
     progressMessageChan := progressMessageChan s ++ [p];
     trace := trace s |}.

Definition record (e : Event) (s : L1Syncer) : L1Syncer :=
  {| etherMans := etherMans s; ethermanIndex := ethermanIndex s;
     l1ContractAddresses := l1ContractAddresses s; topics := topics s;
     blockRange := blockRange s; queryDelay := queryDelay s;
     l1QueryBlocksThreads := l1QueryBlocksThreads s;
     latestL1Block := latestL1Block s; isSyncStarted := isSyncStarted s;
     isDownloading := isDownloading s;
     lastCheckedL1Block := lastCheckedL1Block s; logsChan := logsChan s;
     progressMessageChan := progressMessageChan s;
     trace := trace s ++ [e] |}.

(** The logical time: how many external effects happened so far. *)
Definition now (s : L1Syncer) : nat := List.length (trace s).

(** [time.Second] and [time.Millisecond], in nanoseconds. *)
Definition Second : Z := 1000000000.
Definition Millisecond : Z := 1000000.

(** [time.Sleep(d)] *)
Definition Sleep (d : Z) (s : L1Syncer) : L1Syncer := record (EvSleep d) s.

(** ** Outcomes: a state monad with panic *)

Inductive outcome (A : Type) : Type :=
| Ok (a : A) (s : L1Syncer)
| Panic.
Arguments Ok {A} a s.
Arguments Panic {A}.

Definition M (A : Type) : Type := L1Syncer -> outcome A.

Definition ret {A} (a : A) : M A := fun s => Ok a s.

Definition bind {A B} (m : M A) (k : A -> M B) : M B :=
  fun s => match m s with
           | Ok a s' => k a s'
           | Panic => Panic
           end.

Notation "x <- m ;; k" := (bind m (fun x => k))
  (at level 61, m at next level, right associativity).

(** ** The endpoint rotator *)

Definition getNextEtherman : M IEtherman := fun s =>
  let idx :=
    if ethermanIndex s >=? uint8 (Z.of_nat (List.length (etherMans s)))
    then 0 else ethermanIndex s in
  match nth_error (etherMans s) (Z.to_nat idx) with
  | Some etherman => Ok etherman (set_ethermanIndex (uint8 (idx + 1)) s)
  | None => Panic
  end.

(** ** The contract call *)

Definition callGetRollupSequencedBatches (addr : Address)
    (rollupId batchNum : Z) : M (Hash * Z * option error) :=
  let rollupID := Sprintf_064x rollupId in
  let batchNumber := Sprintf_064x batchNum in
  em <- getNextEtherman ;;
  fun s =>
    let msg := {| Msg_To := addr;
                  Data := FromHex (rollupSequencedBatchesSignature
                                   ++ rollupID ++ batchNumber)%string |} in
    let s' := record (EvCallContract msg) s in
    match CallContract em (now s) msg None with
    | inr err => Ok (Hash_zero, 0, Some err) s'
    | inl resp =>
        if (List.length resp <? 32)%nat
        then Ok (Hash_zero, 0, Some errorShortResponseLT32) s'
        else
          let h := BytesToHash (firstn 32 resp) in
          if (List.length resp <? 96)%nat
          then Ok (Hash_zero, 0, Some errorShortResponseLT96) s'
          else
            let lastBatchNumber := BigEndian_Uint64 (slice 88 96 resp) in
            Ok (h, lastBatchNumber, None) s'
    end.

(** ** The backward resolver *)

(** One pass through the body of the [for] loop of [GetOldAccInputHash]:
    either the function returns, or the loop goes round again with new
    values of [loopCount] and [batchNum]. *)
Inductive iteration : Type :=
| Return (h : Hash) (err : option error)
| Again (loopCount batchNum : Z).

Definition GetOldAccInputHash_body (addr : Address) (rollupId : Z)
    (loopCount batchNum : Z) : M iteration :=
  if loopCount =? 10
  then ret (Return Hash_zero (Some (Errorf "too many retries")))
  else
    r <- callGetRollupSequencedBatches addr rollupId batchNum ;;
    let '(h, previousBatch, err) := r in
    match err with
    | Some err =>
        if (batchNum >? 0) && is_short_response err
        then ret (Again loopCount (uint64 (batchNum - 1)))
        else
          fun s =>
            let s := Sleep (int64 (int64 (int64 (loopCount * 2)) * Second)) s in
            Ok (Again (int64 (loopCount + 1)) batchNum) s
    | None =>
        if negb (bytes_eqb h ZeroHash)
        then ret (Return h None)
        else if (batchNum >? 0) && (previousBatch =? 0)
        then ret (Again loopCount (uint64 (batchNum - 1)))
        else ret (Again (int64 (loopCount + 1)) previousBatch)
    end.

(** The loop itself.  [fuel] bounds the number of passes; [None] means that
    the fuel ran out before the function returned. *)
Fixpoint GetOldAccInputHash_loop (fuel : nat) (addr : Address)
    (rollupId : Z) (loopCount batchNum : Z) (s : L1Syncer)
    : option (outcome (Hash * option error)) :=
  match fuel with
  | O => None
  | S fuel' =>
      match GetOldAccInputHash_body addr rollupId loopCount batchNum s with
      | Panic => Some Panic
      | Ok (Return h err) s' => Some (Ok (h, err) s')
      | Ok (Again loopCount' batchNum') s' =>
          GetOldAccInputHash_loop fuel' addr rollupId loopCount' batchNum' s'
      end
  end.

Definition GetOldAccInputHash (fuel : nat) (addr : Address)
    (rollupId batchNum : Z) (s : L1Syncer)
    : option (outcome (Hash * option error)) :=
  GetOldAccInputHash_loop fuel addr rollupId 0 batchNum s.

(** ** Latest finalized block *)

Definition getLatestL1Block : M (Z * option error) :=
  em <- getNextEtherman ;;
  fun s =>
    let answer := BlockByNumber em (now s) FinalizedBlockNumber in
    let s' := record (EvBlockByNumber FinalizedBlockNumber answer) s in
    match answer with
    | inr err => Ok (0, Some err) s'
    | inl latestBlock =>
        let latest := NumberU64 latestBlock in
        Ok (latest, None) (set_latestL1Block latest s')
    end.

(** ** One ingestion cycle *)

(** The planning loop of [queryBlocks] ("define the blocks we're going to
    fetch up front"), started at [low].  With wrap-around the loop of the
    source need not end, so the model takes [fuel] and answers [None] when
    it runs out. *)
Fixpoint queryBlocks_plan (fuel : nat) (blockRange latestL1Block low : Z)
    : option (list fetchJob) :=
  match fuel with
  | O => None
  | S fuel' =>
      let high := uint64 (low + blockRange) in
      let high := if high >? latestL1Block then latestL1Block else high in
      let fetch := {| From := low; To := high |} in
      if high =? latestL1Block
      then Some [fetch]
      else
        match queryBlocks_plan fuel' blockRange latestL1Block
                (uint64 (low + uint64 (blockRange + 1))) with
        | Some fetches => Some (fetch :: fetches)
        | None => None
        end
  end.

(** What the [select] of [queryBlocks] receives: a result of a worker, or a
    tick of the 10 second ticker.  The two workers run concurrently with the
    collection, so the sequence of arrivals is an input of the model. *)
Inductive arrival : Type :=
| Result (res : jobResult)
| Tick.

(** The collection loop of [queryBlocks] (label [loop]).  [None]: the
    arrivals given are used up and the loop is still waiting. *)
Fixpoint queryBlocks_collect (nfetches aimingFor : Z)
    (arrivals : list arrival) (progress complete : Z) (s : L1Syncer)
    : option (option error * L1Syncer) :=
  match arrivals with
  | [] => None
  | Result res :: rest =>
      let complete := int64 (complete + 1) in
      match Error res with
      | Some err => Some (Some err, s)
      | None =>
          let progress := uint64 (progress + Size res) in
          let s := if (0 <? List.length (Logs res))%nat
                   then send_logs (Logs res) s else s in
          if complete =? nfetches
          then Some (None, s)
          else queryBlocks_collect nfetches aimingFor rest progress complete s
      end
  | Tick :: rest =>
      if aimingFor =? 0
      then queryBlocks_collect nfetches aimingFor rest progress complete s
      else
        let msg := {| processed := progress; total := aimingFor;
                      percent := uint64 (progress * 100) / aimingFor |} in
        queryBlocks_collect nfetches aimingFor rest progress complete
          (send_progress msg s)
  end.

(** [queryBlocks]: plan, hand the jobs to the workers, collect.  [None]:
    the call does not return with this fuel and these arrivals. *)
Definition queryBlocks (fuel : nat) (arrivals : list arrival) (s : L1Syncer)
    : option (option error * L1Syncer) :=
  let startBlock := lastCheckedL1Block s in
  match queryBlocks_plan fuel (blockRange s) (latestL1Block s) startBlock with
  | None => None
  | Some fetches =>
      let aimingFor := uint64 (latestL1Block s - startBlock) in
      queryBlocks_collect (Z.of_nat (List.length fetches)) aimingFor
        arrivals 0 0 s
  end.

(** ** The fetch worker *)

Inductive fetched : Type :=
| Fetched (logs : list Log)
| GaveUp (err : error).

(** The retry loop of [getSequencedLogs] for one query. *)
Fixpoint getSequencedLogs_retry (fuel : nat) (query : FilterQuery)
    (retry : Z) (s : L1Syncer) : option (outcome fetched) :=
  match fuel with
  | O => None
  | S fuel' =>
      match getNextEtherman s with
      | Panic => Some Panic
      | Ok em s =>
          let answer := FilterLogs em (now s) query in
          let s := record (EvFilterLogs query answer) s in
          match answer with
          | inr err =>
              let retry := int64 (retry + 1) in
              if retry >? 5
              then Some (Ok (GaveUp err) s)
              else
                getSequencedLogs_retry fuel' query retry
                  (Sleep (int64 (int64 (int64 (retry * 2)) * Second)) s)
          | inl logs => Some (Ok (Fetched logs) s)
          end
      end
  end.

(** [getSequencedLogs], run on the jobs this worker receives from the job
    channel, in order; the list ends where the worker finds the channel
    closed or the stop signal raised.  A worker that gives up on a job
    sends the error and returns. *)
Fixpoint getSequencedLogs (fuel : nat) (jobs : list fetchJob) (s : L1Syncer)
    : option (outcome unit) :=
  match jobs with
  | [] => Some (Ok tt s)
  | j :: jobs' =>
      let query := {| FromBlock := From j; ToBlock := To j;
                      Addresses := l1ContractAddresses s;
                      Topics := topics s |} in
      match getSequencedLogs_retry fuel query 0 s with
      | None => None
      | Some Panic => Some Panic
      | Some (Ok (GaveUp err) s) =>
          Some (Ok tt (record (EvResult {| Size := 0; Error := Some err;
                                           Logs := [] |}) s))
      | Some (Ok (Fetched logs) s) =>
          getSequencedLogs fuel jobs'
            (record (EvResult {| Size := uint64 (To j - From j);
                                 Error := None; Logs := logs |}) s)
      end
  end.

(** ** The poll loop *)

(** The environment of one pass of the poll loop: the fuel and arrivals of
    its cycle, should there be one. *)
Record CycleEnv : Type := mkCycleEnv {
  planFuel : nat;
  arrivals : list arrival
}.

(** The end of every pass: clear the flag, sleep the configured delay. *)
Definition Run_pause (s : L1Syncer) : L1Syncer :=
  Sleep (int64 (int64 (queryDelay s) * Millisecond))
    (set_isDownloading false s).

(** One pass through the body of the [for] loop of [Run]. *)
Definition Run_iteration (env : CycleEnv) (s : L1Syncer)
    : option (outcome unit) :=
  match getLatestL1Block s with
  | Panic => Some Panic
  | Ok (latestL1Block, Some err) s => Some (Ok tt (Run_pause s))
  | Ok (latestL1Block, None) s =>
      if latestL1Block >? lastCheckedL1Block s
      then
        let s := set_isDownloading true s in
        match queryBlocks (planFuel env) (arrivals env) s with
        | None => None
        | Some (Some err, s) => Some (Ok tt (Run_pause s))
        | Some (None, s) =>
            Some (Ok tt (Run_pause (set_lastCheckedL1Block latestL1Block s)))
        end
      else Some (Ok tt (Run_pause s))
  end.

(** The first passes of the loop, one for each environment given. *)
Fixpoint Run_loop (envs : list CycleEnv) (s : L1Syncer)
    : option (outcome unit) :=
  match envs with
  | [] => Some (Ok tt s)
  | env :: envs' =>
      match Run_iteration env s with
      | Some (Ok _ s') => Run_loop envs' s'
      | other => other
      end
  end.

(** What [Run] does before the loop. *)
Definition Run_start (lastCheckedBlock : Z) (s : L1Syncer) : L1Syncer :=
  set_isSyncStarted true
    (set_lastCheckedL1Block lastCheckedBlock (set_isDownloading true s)).

(** [Run]: nothing if the syncer runs already; otherwise the loop, of which
    the model runs the first passes. *)
Definition Run (lastCheckedBlock : Z) (envs : list CycleEnv) (s : L1Syncer)
    : option (outcome unit) :=
  if isSyncStarted s then Some (Ok tt s)
  else Run_loop envs (Run_start lastCheckedBlock s).

(** ** Blocks on demand *)

(** [GetBlock]: the block of a number, from the next endpoint. *)
Definition GetBlock (number : Z) : M (Block + error) :=
  em <- getNextEtherman ;;
  fun s =>
    let answer := BlockByNumber em (now s) number in
    Ok answer (record (EvBlockByNumber number answer) s).

(** The Go map [map[uint64]*Block] that [L1QueryBlocks] fills: at most one
    entry for a key; an assignment replaces the entry of its key. *)
Definition BlocksMap : Type := list (Z * Block).

Definition BlocksMap_get (k : Z) (m : BlocksMap) : option Block :=
  match find (fun kv => fst kv =? k) m with
  | Some kv => Some (snd kv)
  | None => None
  end.

Definition BlocksMap_put (k : Z) (v : Block) (m : BlocksMap) : BlocksMap :=
  (k, v) :: filter (fun kv => negb (fst kv =? k)) m.

(** The sequential branch of [L1QueryBlocks], which the function takes
    unless it is configured with more than one thread and has more than
    four logs for each thread: one [GetBlock] for each log, in order,
    entered in the map under the block number of the log; the first error
    ends the call and is returned in place of the map.  (The other branch
    runs the calls on concurrent threads and is not modelled; the progress
    lines that [tryToLogL1QueryBlocks] writes to the log are left out.) *)
Fixpoint L1QueryBlocks_sequential (logs : list Log) (blocksMap : BlocksMap)
    : M (BlocksMap + error) :=
  match logs with
  | [] => ret (inl blocksMap)
  | l :: logs' =>
      r <- GetBlock (BlockNumber l) ;;
      match r with
      | inr err => ret (inr err)
      | inl block =>
          L1QueryBlocks_sequential logs'
            (BlocksMap_put (BlockNumber l) block blocksMap)
      end
  end.

(** ** The database comparison of the command [state_stages_zkevm] *)

(** A read transaction and a database, as far as the comparison uses
    them: a transaction tells the size of a table, a database opens a read
    transaction; either may fail.  A database answers the same way each
    time it is asked. *)
Record Tx : Type := mkTx { BucketSize : string -> Z + error }.

Record RwDB : Type := mkRwDB { BeginRo : Tx + error }.

Definition countKeysInDb (db : RwDB) (table : string) : Z * option error :=
  match BeginRo db with
  | inr err => (0, Some err)
  | inl txn =>
      match BucketSize txn table with
      | inr err => (0, Some err)
      | inl count => (count, None)
      end
  end.

(** An error made by [fmt.Errorf] with the verb [%w]: a message in front
    of the error it wraps. *)
Inductive wrappedError : Type :=
| Errorf_w (msg : string) (cause : error).

(** [%d] of an unsigned number. *)
Definition Sprintf_d (n : Z) : string :=
  NilZero.string_of_uint (N.to_uint (Z.to_N n)).

Section CompareDbs.

(** [kv.ChaindataTables] and [kv.Senders] belong to another package and
    are taken as given. *)
Variable ChaindataTables : list string.
Variable Senders : string.

Definition excludedTables : list string := [Senders].

(** The loop of [compareDbs] (label [LOOP]). *)
Fixpoint compareDbs_loop (tables : list string) (db1 db2 : RwDB)
    (discrepancies : list string) : list string * option wrappedError :=
  match tables with
  | [] => (discrepancies, None)
  | table :: tables' =>
      if existsb (String.eqb table) excludedTables
      then compareDbs_loop tables' db1 db2 discrepancies
      else
        match countKeysInDb db1 table with
        | (_, Some err) =>
            ([], Some (Errorf_w
                         ("error counting keys in unwound db for table "
                          ++ table ++ ": ")%string err))
        | (count1, None) =>
            match countKeysInDb db2 table with
            | (_, Some err) =>
                ([], Some (Errorf_w
                             ("error counting keys in comparison db for table "
                              ++ table ++ ": ")%string err))
            | (count2, None) =>
                if negb (count1 =? count2)
                then
                  compareDbs_loop tables' db1 db2
                    (discrepancies
                     ++ [("Table " ++ table ++ ": Unwound DB has "
                          ++ Sprintf_d count1
                          ++ " entries, Comparison DB has "
                          ++ Sprintf_d count2 ++ " entries")%string])
                else compareDbs_loop tables' db1 db2 discrepancies
            end
        end
  end.

Definition compareDbs (db1 db2 : RwDB) : list string * option wrappedError :=
  compareDbs_loop ChaindataTables db1 db2 [].

End CompareDbs.

(** ** Vocabulary of the statements *)

(** The call data and the message that [callGetRollupSequencedBatches]
    sends for a roll-up and a batch number. *)
Definition callData (rollupId batchNum : Z) : list byte :=
  FromHex (rollupSequencedBatchesSignature
           ++ Sprintf_064x rollupId ++ Sprintf_064x batchNum)%string.

Definition callMsg (addr : Address) (rollupId batchNum : Z) : CallMsg :=
  {| Msg_To := addr; Data := callData rollupId batchNum |}.

Definition tooManyRetries : error := Errorf "too many retries".

(** The measure of the resolver loop: attempts left, then the batch number,
    compared lexicographically. *)
Definition measure (loopCount batchNum : Z) : Z * Z :=
  (10 - loopCount, batchNum).

Definition measure_lt (m' m : Z * Z) : Prop :=
  0 <= fst m' < fst m \/ (fst m' = fst m /\ 0 <= snd m' < snd m).

(** The sleeps of a trace, in order. *)
Definition sleeps (t : list Event) : list Z :=
  flat_map (fun e => match e with EvSleep d => [d] | _ => [] end) t.

(** Stub endpoints.  A stub reads the batch number back from the last
    eight bytes of the call data and answers by it; its other methods
    fail. *)
Definition batchOf (msg : CallMsg) : Z :=
  BigEndian_Uint64 (slice 60 68 (Data msg)).

Definition stubEtherman (answer : Z -> list byte + error) : IEtherman :=
  {| BlockByNumber := fun _ _ => inr (RemoteError 0);
     FilterLogs := fun _ _ => inr (RemoteError 0);
     CallContract := fun _ msg _ => answer (batchOf msg) |}.

(** A well-formed 96 byte answer: a hash of 32 equal bytes, and the
    previous batch number in the last byte. *)
Definition answer96 (fill : byte) (previousBatch : Z) : list byte :=
  repeat fill 32 ++ repeat x00 63 ++ [byte_of_Z previousBatch].

Definition stubSyncer (answer : Z -> list byte + error) : L1Syncer :=
  NewL1Syncer [stubEtherman answer] [] [] 1000 1000 1.

(** Zero hash and no previous batch for every batch but 0, which has a
    hash. *)
Definition walkBackStub (batchNum : Z) : list byte + error :=
  if batchNum =? 0 then inl (answer96 x07 0) else inl (answer96 x00 0).

(** Ten bytes for batch 3, a hash for batch 2. *)
Definition malformedStub (batchNum : Z) : list byte + error :=
  if batchNum =? 3 then inl (repeat x01 10)
  else if batchNum =? 2 then inl (answer96 xab 0)
  else inr (RemoteError 1).

(** Batch 7 has no hash and points at batch 5, batch 5 has neither hash
    nor pointer, batch 4 has a hash. *)
Definition pointerStub (batchNum : Z) : list byte + error :=
  if batchNum =? 7 then inl (answer96 x00 5)
  else if batchNum =? 4 then inl (answer96 x2a 0)
  else inl (answer96 x00 0).

(** What the claims say of a list of fetch jobs. *)
Definition ascending (jobs : list fetchJob) : Prop :=
  StronglySorted (fun a b => From a < From b) jobs.

Definition contiguous (jobs : list fetchJob) : Prop :=
  forall i a b,
    nth_error jobs i = Some a -> nth_error jobs (S i) = Some b ->
    From b = To a + 1.

Definition non_overlapping (jobs : list fetchJob) : Prop :=
  forall i j a b,
    i <> j -> nth_error jobs i = Some a -> nth_error jobs j = Some b ->
    forall x, ~ (From a <= x <= To a /\ From b <= x <= To b).

Definition covers (lo hi : Z) (jobs : list fetchJob) : Prop :=
  forall x, lo <= x <= hi <-> exists j, In j jobs /\ From j <= x <= To j.

(** Jobs that split [[lo, hi]] into consecutive non-empty intervals. *)
Inductive chain : Z -> Z -> list fetchJob -> Prop :=
| chain_last lo hi :
    lo <= hi -> chain lo hi [{| From := lo; To := hi |}]
| chain_cons lo t hi rest :
    lo <= t -> t < hi -> chain (t + 1) hi rest ->
    chain lo hi ({| From := lo; To := t |} :: rest).

(** What the poll-loop claims speak of.  The answers of all endpoints to
    the query for the finalized block are at least [init]; they never go
    down as time passes, whichever endpoint is asked; and a list of events
    holds a successful query for the finalized block. *)
Definition finalized_at_least (init : Z) (ems : list IEtherman) : Prop :=
  forall em t b,
    In em ems -> BlockByNumber em t FinalizedBlockNumber = inl b ->
    init <= NumberU64 b.

Definition finalized_monotone (ems : list IEtherman) : Prop :=
  forall em em' t t' b b',
    In em ems -> In em' ems -> (t <= t')%nat ->
    BlockByNumber em t FinalizedBlockNumber = inl b ->
    BlockByNumber em' t' FinalizedBlockNumber = inl b' ->
    NumberU64 b <= NumberU64 b'.

Definition queried (evs : list Event) : Prop :=
  exists b, In (EvBlockByNumber FinalizedBlockNumber (inl b)) evs.

(** An endpoint whose finalized block is [latest t] at time [t]; its other
    methods fail. *)
Definition chainStub (latest : nat -> Z) : IEtherman :=
  {| BlockByNumber := fun t _ => inl {| Number := latest t |};
     FilterLogs := fun _ _ => inr (RemoteError 0);
     CallContract := fun _ _ _ => inr (RemoteError 0) |}.

Definition chainSyncer (latest : nat -> Z) : L1Syncer :=
  NewL1Syncer [chainStub latest] [] [] 1000 1000 1.

(** A chain that answers 100 to the first query and 90 afterwards. *)
Definition shrinkingChain (t : nat) : Z :=
  match t with O => 100 | _ => 90 end.

(** A cycle in which the one job planned comes back without logs. *)
Definition quietCycle : CycleEnv :=
  {| planFuel := 1;
     arrivals := [Result {| Size := 100; Error := None; Logs := [] |}] |}.

(** A cycle in which the first result to arrive is an error. *)
Definition failingCycle : CycleEnv :=
  {| planFuel := 1;
     arrivals := [Result {| Size := 0; Error := Some (RemoteError 7);
                            Logs := [] |}] |}.

(** The invariant of the poll loop started by [Run init] on [s0]: the
    endpoints stay; the checkpoint is [init] or an answer given earlier; and
    once a query for the finalized block has succeeded the checkpoint does
    not exceed the latest block. *)
Definition Run_invariant (init : Z) (s0 s : L1Syncer) : Prop :=
  etherMans s = etherMans s0
  /\ (lastCheckedL1Block s = init
      \/ exists em t b,
          In em (etherMans s0) /\ (t < now s)%nat
          /\ BlockByNumber em t FinalizedBlockNumber = inl b
          /\ lastCheckedL1Block s = NumberU64 b)
  /\ exists evs,
      trace s = trace s0 ++ evs
      /\ (queried evs -> lastCheckedL1Block s <= latestL1Block s).

(** An endpoint whose log queries always fail, with the time of the call
    as the error code. *)
Definition failingLogsStub : IEtherman :=
  {| BlockByNumber := fun _ _ => inr (RemoteError 0);
     FilterLogs := fun t _ => inr (RemoteError (Z.of_nat t));
     CallContract := fun _ _ _ => inr (RemoteError 0) |}.

Definition failingLogsSyncer : L1Syncer :=
  NewL1Syncer [failingLogsStub] [] [] 1000 1000 1.

(** ** Further vocabulary *)

(** [k] calls of the rotator in a row, with the endpoints they return. *)
Fixpoint getNextEthermans (k : nat) : M (list IEtherman) :=
  match k with
  | O => ret []
  | S k' =>
      em <- getNextEtherman ;;
      ems <- getNextEthermans k' ;;
      ret (em :: ems)
  end.

(** A syncer with three endpoints, told apart by their finalized block. *)
Definition threeSyncer : L1Syncer :=
  NewL1Syncer [chainStub (fun _ => 1); chainStub (fun _ => 2);
               chainStub (fun _ => 3)] [] [] 1000 1000 1.

(** A syncer with 256 endpoints. *)
Definition crowdedSyncer : L1Syncer :=
  NewL1Syncer (chainStub (fun _ => 1) :: repeat (chainStub (fun _ => 2)) 255)
    [] [] 1000 1000 1.

(** The number a byte string stands for, big end first. *)
Definition BigEndian_value (l : list byte) : Z :=
  fold_left (fun acc x => acc * 256 + Z_of_byte x) l 0.

(** The number a string of hexadecimal digits stands for, and whether a
    string consists of such digits. *)
Definition hexdigit_value (c : ascii) : Z :=
  match unhex c with
  | Some d => d
  | None => 0
  end.

Fixpoint hexval_from (acc : Z) (s : string) : Z :=
  match s with
  | EmptyString => acc
  | String c rest => hexval_from (acc * 16 + hexdigit_value c) rest
  end.

Definition hexval (s : string) : Z := hexval_from 0 s.

Fixpoint allhex (s : string) : bool :=
  match s with
  | EmptyString => true
  | String c rest =>
      match unhex c with
      | Some _ => allhex rest
      | None => false
      end
  end.

(** The syncer [s] with another cursor and another trace, all else kept:
    what a function may have done that only calls endpoints and sleeps. *)
Definition touched (i : Z) (t : list Event) (s : L1Syncer) : L1Syncer :=
  {| etherMans := etherMans s; ethermanIndex := i;
     l1ContractAddresses := l1ContractAddresses s; topics := topics s;
     blockRange := blockRange s; queryDelay := queryDelay s;
     l1QueryBlocksThreads := l1QueryBlocksThreads s;
     latestL1Block := latestL1Block s; isSyncStarted := isSyncStarted s;
     isDownloading := isDownloading s;
     lastCheckedL1Block := lastCheckedL1Block s; logsChan := logsChan s;
     progressMessageChan := progressMessageChan s; trace := t |}.

Definition is_call_or_sleep (e : Event) : bool :=
  match e with
  | EvCallContract _ | EvSleep _ => true
  | _ => false
  end.

(** The sum of a list of durations. *)
Definition total_of (ds : list Z) : Z := fold_right Z.add 0 ds.

(** An answer of an endpoint, to the call for batch [batchNum], that
    [GetOldAccInputHash] counts as a failed attempt: an error that is not
    one of the two short-response errors, or at batch 0 any error and any
    answer shorter than 96 bytes. *)
Definition counted_failure (batchNum : Z) (answer : list byte + error)
    : Prop :=
  match answer with
  | inl resp => (List.length resp < 96)%nat /\ batchNum <= 0
  | inr e => batchNum <= 0 \/ is_short_response e = false
  end.

(** Ten failed attempts: a call and a sleep of twice the attempt number in
    seconds, from attempt [from] on. *)
Definition failedAttempts (msg : CallMsg) (from n : nat) : list Event :=
  flat_map (fun k => [EvCallContract msg;
                      EvSleep (Z.of_nat k * 2 * Second)])
    (seq from n).

(** An answer with the zero hash and previous batch 0. *)
Definition blank_answer (answer : list byte + error) : Prop :=
  match answer with
  | inl resp =>
      (96 <= List.length resp)%nat
      /\ firstn 32 resp = ZeroHash
      /\ BigEndian_value (firstn 8 (skipn 88 resp)) = 0
  | inr _ => False
  end.

(** The calls of a walk from batch [n] down to batch 1. *)
Fixpoint walkDown (addr : Address) (rollupId : Z) (n : nat) : list Event :=
  match n with
  | O => []
  | S n' =>
      EvCallContract (callMsg addr rollupId (Z.of_nat n))
      :: walkDown addr rollupId n'
  end.

(** A stub that answers every call with the zero hash and previous
    batch 0. *)
Definition blankStub (batchNum : Z) : list byte + error :=
  inl (answer96 x00 0).

(** The size a worker reports for a job it has fetched. *)
Definition jobSize (j : fetchJob) : Z := uint64 (To j - From j).

(** The results among the arrivals, the number of ticks among them, and
    the log batches of a list of results that go downstream (those that
    are not empty). *)
Definition results_of (arrivals : list arrival) : list jobResult :=
  flat_map (fun a => match a with Result r => [r] | Tick => [] end) arrivals.

Definition ticks_of (arrivals : list arrival) : nat :=
  List.length (filter (fun a => match a with Tick => true | _ => false end)
                 arrivals).

Definition forwarded (rs : list jobResult) : list (list Log) :=
  filter (fun l => (0 <? List.length l)%nat) (map Logs rs).

(** The log queries and the results among the events of a trace. *)
Definition attempts (evs : list Event) : nat :=
  List.length
    (filter (fun e => match e with EvFilterLogs _ _ => true | _ => false end)
       evs).

Definition results_in (evs : list Event) : list jobResult :=
  flat_map (fun e => match e with EvResult r => [r] | _ => [] end) evs.

(** What a worker may report for the jobs it receives: for each job in
    turn a result without error that carries the size of the job, up to
    the end of the jobs or to a first result with an error, of size 0 and
    without logs, after which nothing more is reported. *)
Inductive reported : list fetchJob -> list jobResult -> Prop :=
| reported_done : reported [] []
| reported_fetched j jobs logs rs :
    reported jobs rs ->
    reported (j :: jobs)
      ({| Size := jobSize j; Error := None; Logs := logs |} :: rs)
| reported_gave_up j jobs e :
    reported (j :: jobs) [ {| Size := 0; Error := Some e; Logs := [] |} ].

(** The events of successful [GetBlock] calls, for block numbers and the
    blocks answered. *)
Definition blockEvents (numbers : list Z) (blocks : list Block)
    : list Event :=
  map (fun nb => EvBlockByNumber (fst nb) (inl (snd nb)))
    (combine numbers blocks).

(** Two databases with three tables each. *)
Definition tableSizes (a b c : Z) : RwDB :=
  {| BeginRo :=
       inl {| BucketSize := fun table =>
                if String.eqb table "Header" then inl a
                else if String.eqb table "TxSender" then inl b
                else if String.eqb table "Receipt" then inl c
                else inr (RemoteError 404) |} |}.

(** * Properties *)

(** ** Machine integers *)

Lemma uint64_small z : is_uint64 z -> uint64 z = z.
Proof. unfold is_uint64, uint64. intros H. apply Z.mod_small. exact H. Qed.

Lemma uint64_range z : is_uint64 (uint64 z).
Proof. unfold is_uint64, uint64. apply Z.mod_pos_bound. lia. Qed.

Lemma int64_small z : - 2 ^ 63 <= z < 2 ^ 63 -> int64 z = z.
Proof. unfold int64. intros H. rewrite Z.mod_small; lia. Qed.


(** ** Bytes and the rotator *)

Lemma bytes_eqb_eq (a b : list byte) : bytes_eqb a b = true <-> a = b.
Proof.
  revert b. induction a as [|x a IH]; intros [|y b]; simpl;
    try (split; [discriminate | discriminate]); try tauto.
  rewrite andb_true_iff, IH. split.
  - intros [Hxy ->]. apply Byte.byte_dec_bl in Hxy. now subst.
  - intros H. injection H as -> ->. split; [|reflexivity].
    now apply Byte.byte_dec_lb.
Qed.

Lemma bytes_eqb_neq (a b : list byte) : bytes_eqb a b = false <-> a <> b.
Proof.
  rewrite <- bytes_eqb_eq. destruct (bytes_eqb a b); split; congruence.
Qed.

(** The rotator touches the cursor only. *)
Lemma getNextEtherman_Ok s em s' :
  getNextEtherman s = Ok em s' ->
  In em (etherMans s) /\ exists i, s' = set_ethermanIndex i s.
Proof.
  unfold getNextEtherman. intros H.
  destruct (nth_error (etherMans s) _) as [e|] eqn:Hnth; [|discriminate].
  injection H as -> <-. split.
  - eapply nth_error_In; eassumption.
  - eexists; reflexivity.
Qed.

(** With at least one endpoint the rotator does not panic. *)
Lemma getNextEtherman_total s :
  etherMans s <> [] -> exists em s', getNextEtherman s = Ok em s'.
Proof.
  intros Hne. unfold getNextEtherman.
  destruct (nth_error (etherMans s) _) as [e|] eqn:Hnth.
  - eauto.
  - exfalso. apply nth_error_None in Hnth.
    assert (Hlen : (0 < List.length (etherMans s))%nat).
    { destruct (etherMans s); [congruence | simpl; lia]. }
    destruct (ethermanIndex s >=? uint8 (Z.of_nat (List.length (etherMans s))))
      eqn:Hge.
    + simpl in Hnth. lia.
    + rewrite Z.geb_leb in Hge. apply Z.leb_gt in Hge.
      assert (uint8 (Z.of_nat (List.length (etherMans s)))
              <= Z.of_nat (List.length (etherMans s))).
      { unfold uint8. apply Z.mod_le; lia. }
      lia.
Qed.

(** ** The contract call *)

(** The call seen from outside: one endpoint is taken from the rotator, it
    is called once, and its answer is decoded. *)
Lemma callGetRollupSequencedBatches_unfold addr rollupId batchNum s :
  callGetRollupSequencedBatches addr rollupId batchNum s =
  match getNextEtherman s with
  | Panic => Panic
  | Ok em s1 =>
      let msg := callMsg addr rollupId batchNum in
      let s' := record (EvCallContract msg) s1 in
      match CallContract em (now s1) msg None with
      | inr err => Ok (Hash_zero, 0, Some err) s'
      | inl resp =>
          if (List.length resp <? 32)%nat
          then Ok (Hash_zero, 0, Some errorShortResponseLT32) s'
          else if (List.length resp <? 96)%nat
          then Ok (Hash_zero, 0, Some errorShortResponseLT96) s'
          else Ok (BytesToHash (firstn 32 resp),
                   BigEndian_Uint64 (slice 88 96 resp), None) s'
      end
  end.
Proof.
  unfold callGetRollupSequencedBatches, bind, callMsg, callData.
  destruct (getNextEtherman s) as [em s1|]; reflexivity.
Qed.

(** The call appends exactly one event to the trace and leaves the
    checkpoint fields alone. *)
Lemma callGetRollupSequencedBatches_trace addr rollupId batchNum s r s' :
  callGetRollupSequencedBatches addr rollupId batchNum s = Ok r s' ->
  trace s' = trace s ++ [EvCallContract (callMsg addr rollupId batchNum)].
Proof.
  rewrite callGetRollupSequencedBatches_unfold.
  destruct (getNextEtherman s) as [em s1|] eqn:Hem; [|discriminate].
  apply getNextEtherman_Ok in Hem as [_ [i ->]]. cbv zeta.
  destruct (CallContract _ _ _ _) as [resp|err].
  - destruct (_ <? 32)%nat; [|destruct (_ <? 96)%nat];
      intros H; injection H as _ <-; reflexivity.
  - intros H; injection H as _ <-; reflexivity.
Qed.

(** ** The backward resolver *)

(** The body of the loop, by cases on what the call returns. *)
Lemma GetOldAccInputHash_body_unfold addr rollupId loopCount batchNum s :
  GetOldAccInputHash_body addr rollupId loopCount batchNum s =
  if loopCount =? 10 then Ok (Return Hash_zero (Some tooManyRetries)) s
  else
    match callGetRollupSequencedBatches addr rollupId batchNum s with
    | Panic => Panic
    | Ok (h, previousBatch, Some err) s' =>
        if (batchNum >? 0) && is_short_response err
        then Ok (Again loopCount (uint64 (batchNum - 1))) s'
        else Ok (Again (int64 (loopCount + 1)) batchNum)
                (Sleep (int64 (int64 (int64 (loopCount * 2)) * Second)) s')
    | Ok (h, previousBatch, None) s' =>
        if negb (bytes_eqb h ZeroHash) then Ok (Return h None) s'
        else if (batchNum >? 0) && (previousBatch =? 0)
        then Ok (Again loopCount (uint64 (batchNum - 1))) s'
        else Ok (Again (int64 (loopCount + 1)) previousBatch) s'
    end.
Proof.
  unfold GetOldAccInputHash_body, bind, ret, tooManyRetries.
  destruct (loopCount =? 10); [reflexivity|].
  destruct (callGetRollupSequencedBatches _ _ _ _) as [[[h p] [e|]] s'|];
    try reflexivity.
  - destruct (_ && _); reflexivity.
  - destruct (negb _); [reflexivity|]. destruct (_ && _); reflexivity.
Qed.

Lemma GetOldAccInputHash_loop_S fuel addr rollupId loopCount batchNum s :
  GetOldAccInputHash_loop (S fuel) addr rollupId loopCount batchNum s =
  match GetOldAccInputHash_body addr rollupId loopCount batchNum s with
  | Panic => Some Panic
  | Ok (Return h err) s' => Some (Ok (h, err) s')
  | Ok (Again loopCount' batchNum') s' =>
      GetOldAccInputHash_loop fuel addr rollupId loopCount' batchNum' s'
  end.
Proof. reflexivity. Qed.

(** More fuel does not change a result. *)
Lemma GetOldAccInputHash_loop_more fuel k addr rollupId loopCount batchNum s r :
  GetOldAccInputHash_loop fuel addr rollupId loopCount batchNum s = Some r ->
  GetOldAccInputHash_loop (fuel + k) addr rollupId loopCount batchNum s
  = Some r.
Proof.
  revert loopCount batchNum s. induction fuel as [|fuel IH]; intros lc b s.
  - discriminate.
  - rewrite Nat.add_succ_l, !GetOldAccInputHash_loop_S.
    destruct (GetOldAccInputHash_body _ _ _ _ _) as [[h e|lc' b'] s'|];
      auto.
Qed.


Lemma measure_lt_wf : well_founded measure_lt.
Proof.
  apply (wf_incl _ measure_lt
           (slexprod Z Z (Zwf 0) (Zwf 0))).
  - intros [a' b'] [a b] [H | [H1 H2]]; simpl in *.
    + apply left_slex. unfold Zwf. lia.
    + subst a'. apply right_slex. unfold Zwf. lia.
  - apply wf_slexprod; apply Zwf_well_founded.
Qed.

(** A pass that goes round again has a smaller measure. *)
Lemma GetOldAccInputHash_body_decreases addr rollupId lc b s lc' b' s' :
  0 <= lc <= 10 ->
  GetOldAccInputHash_body addr rollupId lc b s = Ok (Again lc' b') s' ->
  0 <= lc' <= 10 /\ measure_lt (measure lc' b') (measure lc b).
Proof.
  intros Hlc. rewrite GetOldAccInputHash_body_unfold.
  destruct (lc =? 10) eqn:H10; [discriminate|].
  apply Z.eqb_neq in H10.
  assert (Hnext : int64 (lc + 1) = lc + 1) by (apply int64_small; lia).
  assert (Hdec : b > 0 -> 0 <= uint64 (b - 1) < b).
  { intros Hb. unfold uint64.
    pose proof (Z.mod_pos_bound (b - 1) (2 ^ 64) ltac:(lia)).
    pose proof (Z.mod_le (b - 1) (2 ^ 64) ltac:(lia) ltac:(lia)). lia. }
  destruct (callGetRollupSequencedBatches _ _ _ _) as [[[h p] [e|]] s1|];
    [| |discriminate].
  - destruct (b >? 0) eqn:Hb; cbn [andb].
    + destruct (is_short_response e); intros H; injection H as <- <- _.
      * apply Z.gtb_lt in Hb. split; [lia|]. right.
        unfold measure; cbn [fst snd].
        split; [reflexivity | apply Hdec; lia].
      * rewrite Hnext. split; [lia|]. left. unfold measure; cbn [fst snd]. lia.
    + intros H; injection H as <- <- _.
      rewrite Hnext. split; [lia|]. left. unfold measure; cbn [fst snd]. lia.
  - destruct (negb _); [discriminate|].
    destruct (b >? 0) eqn:Hb; cbn [andb].
    + destruct (p =? 0); intros H; injection H as <- <- _.
      * apply Z.gtb_lt in Hb. split; [lia|]. right.
        unfold measure; cbn [fst snd].
        split; [reflexivity | apply Hdec; lia].
      * rewrite Hnext. split; [lia|]. left. unfold measure; cbn [fst snd]. lia.
    + intros H; injection H as <- <- _.
      rewrite Hnext. split; [lia|]. left. unfold measure; cbn [fst snd]. lia.
Qed.

(** From every state of the loop some amount of fuel is enough. *)
Lemma GetOldAccInputHash_loop_terminates addr rollupId lc b s :
  0 <= lc <= 10 ->
  exists fuel r,
    GetOldAccInputHash_loop fuel addr rollupId lc b s = Some r.
Proof.
  remember (measure lc b) as m eqn:Hm. revert lc b s Hm.
  induction m as [m IH] using (well_founded_ind measure_lt_wf).
  intros lc b s -> Hlc.
  destruct (GetOldAccInputHash_body addr rollupId lc b s)
    as [[h e|lc' b'] s'|] eqn:Hbody.
  - exists 1%nat. eexists. rewrite GetOldAccInputHash_loop_S, Hbody.
    reflexivity.
  - destruct (GetOldAccInputHash_body_decreases _ _ _ _ _ _ _ _ Hlc Hbody)
      as [Hlc' Hlt].
    destruct (IH _ Hlt lc' b' s' eq_refl Hlc') as [fuel [r Hr]].
    exists (S fuel), r. rewrite GetOldAccInputHash_loop_S, Hbody. exact Hr.
  - exists 1%nat. eexists. rewrite GetOldAccInputHash_loop_S, Hbody.
    reflexivity.
Qed.

(** The resolver never changes the endpoint list, and with at least one
    endpoint it does not panic. *)
Lemma callGetRollupSequencedBatches_etherMans addr rollupId batchNum s r s' :
  callGetRollupSequencedBatches addr rollupId batchNum s = Ok r s' ->
  etherMans s' = etherMans s.
Proof.
  rewrite callGetRollupSequencedBatches_unfold.
  destruct (getNextEtherman s) as [em s1|] eqn:Hem; [|discriminate].
  apply getNextEtherman_Ok in Hem as [_ [i ->]]. cbv zeta.
  destruct (CallContract _ _ _ _) as [resp|err].
  - destruct (_ <? 32)%nat; [|destruct (_ <? 96)%nat];
      intros H; injection H as _ <-; reflexivity.
  - intros H; injection H as _ <-; reflexivity.
Qed.

Lemma callGetRollupSequencedBatches_no_panic addr rollupId batchNum s :
  etherMans s <> [] ->
  callGetRollupSequencedBatches addr rollupId batchNum s <> Panic.
Proof.
  intros Hne. rewrite callGetRollupSequencedBatches_unfold.
  destruct (getNextEtherman_total s Hne) as [em [s1 ->]]. cbv zeta.
  destruct (CallContract _ _ _ _) as [resp|err]; [|discriminate].
  destruct (_ <? 32)%nat; [|destruct (_ <? 96)%nat]; discriminate.
Qed.

Lemma GetOldAccInputHash_loop_no_panic fuel addr rollupId lc b s :
  etherMans s <> [] ->
  GetOldAccInputHash_loop fuel addr rollupId lc b s <> Some Panic.
Proof.
  revert lc b s. induction fuel as [|fuel IH]; intros lc b s Hne;
    [discriminate|].
  rewrite GetOldAccInputHash_loop_S, GetOldAccInputHash_body_unfold.
  destruct (lc =? 10); [discriminate|].
  pose proof (callGetRollupSequencedBatches_no_panic addr rollupId b s Hne)
    as Hnp.
  destruct (callGetRollupSequencedBatches _ _ _ _) as [[[h p] e] s1|] eqn:Hc;
    [|congruence].
  apply callGetRollupSequencedBatches_etherMans in Hc.
  assert (Hne1 : etherMans s1 <> []) by congruence.
  destruct e as [e|].
  - destruct (_ && _); apply IH; assumption.
  - destruct (negb _); [discriminate|]. destruct (_ && _); apply IH; assumption.
Qed.

(** What the loop can return. *)
Lemma GetOldAccInputHash_loop_returns fuel addr rollupId lc b s h err s' :
  GetOldAccInputHash_loop fuel addr rollupId lc b s = Some (Ok (h, err) s') ->
  (err = None /\ h <> ZeroHash)
  \/ (err = Some tooManyRetries /\ h = ZeroHash).
Proof.
  revert lc b s. induction fuel as [|fuel IH]; intros lc b s; [discriminate|].
  rewrite GetOldAccInputHash_loop_S, GetOldAccInputHash_body_unfold.
  destruct (lc =? 10).
  { intros H; injection H as <- <- _. right. split; reflexivity. }
  destruct (callGetRollupSequencedBatches _ _ _ _) as [[[h1 p] [e|]] s1|];
    [| |discriminate].
  - destruct (_ && _); apply IH.
  - destruct (bytes_eqb h1 ZeroHash) eqn:Hz; simpl.
    + destruct (_ && _); apply IH.
    + intros H; injection H as <- <- _. left. split; [reflexivity|].
      now apply bytes_eqb_neq.
Qed.

(** *** Claims about the backward resolver *)

(** C1. The backward-walk rules of [GetOldAccInputHash], for a pass of the
    loop whose contract call succeeds with hash [h] and previous batch
    number [previousBatch]: a non-zero hash is returned at once; a zero
    hash with [previousBatch = 0] and [batchNum > 0] makes the loop go on
    with [batchNum - 1] and the same attempt counter; any other zero hash
    makes it go on with [previousBatch] and the counter plus one; and at
    counter 10 the function returns the "too many retries" error (with the
    zero hash) without calling. *)
Theorem GetOldAccInputHash_backward_walk :
  forall fuel addr rollupId loopCount batchNum s h previousBatch s',
    0 <= loopCount < 10 ->
    is_uint64 batchNum ->
    callGetRollupSequencedBatches addr rollupId batchNum s
    = Ok (h, previousBatch, None) s' ->
    (h <> ZeroHash ->
     GetOldAccInputHash_loop (S fuel) addr rollupId loopCount batchNum s
     = Some (Ok (h, None) s'))
    /\ (h = ZeroHash -> previousBatch = 0 /\ 0 < batchNum ->
        GetOldAccInputHash_loop (S fuel) addr rollupId loopCount batchNum s
        = GetOldAccInputHash_loop fuel addr rollupId
            loopCount (batchNum - 1) s')
    /\ (h = ZeroHash -> ~ (previousBatch = 0 /\ 0 < batchNum) ->
        GetOldAccInputHash_loop (S fuel) addr rollupId loopCount batchNum s
        = GetOldAccInputHash_loop fuel addr rollupId
            (loopCount + 1) previousBatch s')
    /\ GetOldAccInputHash_loop (S fuel) addr rollupId 10 batchNum s
       = Some (Ok (Hash_zero, Some tooManyRetries) s)
    /\ GetOldAccInputHash fuel addr rollupId batchNum s
       = GetOldAccInputHash_loop fuel addr rollupId 0 batchNum s.
Proof.
  intros fuel addr rollupId lc b s h p s' Hlc Hb Hcall.
  assert (H10 : (lc =? 10) = false) by (apply Z.eqb_neq; lia).
  assert (Hnext : int64 (lc + 1) = lc + 1) by (apply int64_small; lia).
  rewrite !GetOldAccInputHash_loop_S, !GetOldAccInputHash_body_unfold.
  rewrite H10, Hcall. repeat split.
  - intros Hh. apply bytes_eqb_neq in Hh. rewrite Hh. reflexivity.
  - intros -> [-> Hpos].
    assert (Heq : bytes_eqb ZeroHash ZeroHash = true) by now apply bytes_eqb_eq.
    rewrite Heq. simpl negb. cbv iota.
    assert (Hgt : (b >? 0) = true) by (apply Z.gtb_lt; lia).
    rewrite Hgt. simpl.
    rewrite uint64_small by (unfold is_uint64 in *; lia). reflexivity.
  - intros -> Hnot.
    assert (Heq : bytes_eqb ZeroHash ZeroHash = true) by now apply bytes_eqb_eq.
    rewrite Heq. simpl negb. cbv iota.
    assert (Hc : (b >? 0) && (p =? 0) = false).
    { apply andb_false_iff.
      destruct (Z.eqb_spec p 0) as [->|]; [|now right].
      left. rewrite Z.gtb_ltb. apply Z.ltb_ge. lia. }
    rewrite Hc, Hnext. reflexivity.
Qed.

Lemma GetOldAccInputHash_backward_walk_witness :
  0 <= 0 < 10
  /\ is_uint64 7
  /\ callGetRollupSequencedBatches [] 1 7 (stubSyncer pointerStub)
     = Ok (ZeroHash, 5, None)
          (record (EvCallContract (callMsg [] 1 7))
             (set_ethermanIndex 1 (stubSyncer pointerStub)))
  /\ GetOldAccInputHash_loop 3 [] 1 0 7 (stubSyncer pointerStub)
     = GetOldAccInputHash_loop 2 [] 1 (0 + 1) 5
         (record (EvCallContract (callMsg [] 1 7))
            (set_ethermanIndex 1 (stubSyncer pointerStub))).
Proof.
  assert (Hlc : 0 <= 0 < 10) by lia.
  assert (Hb : is_uint64 7) by (unfold is_uint64; lia).
  assert (Hcall : callGetRollupSequencedBatches [] 1 7 (stubSyncer pointerStub)
                  = Ok (ZeroHash, 5, None)
                       (record (EvCallContract (callMsg [] 1 7))
                          (set_ethermanIndex 1 (stubSyncer pointerStub))))
    by (vm_compute; reflexivity).
  split; [exact Hlc|]. split; [exact Hb|]. split; [exact Hcall|].
  destruct (GetOldAccInputHash_backward_walk 2 [] 1 0 7 _ _ _ _ Hlc Hb Hcall)
    as [_ [_ [Hfollow _]]].
  apply Hfollow; [reflexivity | lia].
Defined.

(** C5. A contract answer shorter than 96 bytes (the call then reports one
    of the two short-response errors: shorter than 32 bytes, or shorter
    than 96) at a batch number above 0 makes the resolver go on with
    [batchNum - 1] and the same attempt counter, from the state right after
    the call: no sleep is recorded.  And with the stub that answers 10 bytes
    for batch 3 and a hash for batch 2, resolution from batch 3 returns the
    hash of batch 2 after two calls. *)
Theorem GetOldAccInputHash_malformed_response :
  (forall fuel addr rollupId loopCount batchNum s em s1 resp,
      0 <= loopCount < 10 ->
      0 < batchNum -> is_uint64 batchNum ->
      getNextEtherman s = Ok em s1 ->
      CallContract em (now s1) (callMsg addr rollupId batchNum) None
      = inl resp ->
      (List.length resp < 96)%nat ->
      let s' := record (EvCallContract (callMsg addr rollupId batchNum)) s1 in
      callGetRollupSequencedBatches addr rollupId batchNum s
      = Ok (Hash_zero, 0,
            Some (if (List.length resp <? 32)%nat
                  then errorShortResponseLT32
                  else errorShortResponseLT96)) s'
      /\ GetOldAccInputHash_loop (S fuel) addr rollupId loopCount batchNum s
         = GetOldAccInputHash_loop fuel addr rollupId
             loopCount (batchNum - 1) s'
      /\ sleeps (trace s') = sleeps (trace s))
  /\ (exists s',
         GetOldAccInputHash 2 [] 1 3 (stubSyncer malformedStub)
         = Some (Ok (repeat xab 32, None) s')
         /\ trace s' = [EvCallContract (callMsg [] 1 3);
                        EvCallContract (callMsg [] 1 2)]).
Proof.
  split.
  - intros fuel addr rollupId lc b s em s1 resp Hlc Hpos Hb Hem Hresp Hlen s'.
    assert (Hcall :
      callGetRollupSequencedBatches addr rollupId b s
      = Ok (Hash_zero, 0,
            Some (if (List.length resp <? 32)%nat
                  then errorShortResponseLT32
                  else errorShortResponseLT96)) s').
    { rewrite callGetRollupSequencedBatches_unfold, Hem. cbv zeta.
      rewrite Hresp. destruct (List.length resp <? 32)%nat; [reflexivity|].
      apply Nat.ltb_lt in Hlen. rewrite Hlen. reflexivity. }
    split; [exact Hcall|]. split.
    + rewrite GetOldAccInputHash_loop_S, GetOldAccInputHash_body_unfold, Hcall.
      replace (lc =? 10) with false by (symmetry; apply Z.eqb_neq; lia).
      replace (b >? 0) with true by (symmetry; apply Z.gtb_lt; lia).
      destruct (List.length resp <? 32)%nat; cbn [andb is_short_response];
        rewrite uint64_small by (unfold is_uint64 in *; lia); reflexivity.
    + apply getNextEtherman_Ok in Hem as [_ [i ->]].
      unfold s', sleeps. cbn [trace record set_ethermanIndex].
      rewrite flat_map_app. cbn [flat_map]. now rewrite !app_nil_r.
  - eexists. split; vm_compute; reflexivity.
Qed.

Lemma GetOldAccInputHash_malformed_response_witness :
  0 <= 0 < 10
  /\ 0 < 3
  /\ is_uint64 3
  /\ getNextEtherman (stubSyncer malformedStub)
     = Ok (stubEtherman malformedStub)
          (set_ethermanIndex 1 (stubSyncer malformedStub))
  /\ CallContract (stubEtherman malformedStub)
       (now (set_ethermanIndex 1 (stubSyncer malformedStub)))
       (callMsg [] 1 3) None
     = inl (repeat x01 10)
  /\ (List.length (repeat x01 10) < 96)%nat
  /\ GetOldAccInputHash_loop 2 [] 1 0 3 (stubSyncer malformedStub)
     = GetOldAccInputHash_loop 1 [] 1 0 (3 - 1)
         (record (EvCallContract (callMsg [] 1 3))
            (set_ethermanIndex 1 (stubSyncer malformedStub))).
Proof.
  assert (Hlc : 0 <= 0 < 10) by lia.
  assert (Hpos : 0 < 3) by lia.
  assert (Hb : is_uint64 3) by (unfold is_uint64; lia).
  assert (Hem : getNextEtherman (stubSyncer malformedStub)
                = Ok (stubEtherman malformedStub)
                     (set_ethermanIndex 1 (stubSyncer malformedStub)))
    by reflexivity.
  assert (Hresp : CallContract (stubEtherman malformedStub)
                    (now (set_ethermanIndex 1 (stubSyncer malformedStub)))
                    (callMsg [] 1 3) None
                  = inl (repeat x01 10))
    by (vm_compute; reflexivity).
  assert (Hlen : (List.length (repeat x01 10) < 96)%nat) by (simpl; lia).
  split; [exact Hlc|]. split; [exact Hpos|]. split; [exact Hb|].
  split; [exact Hem|]. split; [exact Hresp|]. split; [exact Hlen|].
  exact (proj1 (proj2 (proj1 GetOldAccInputHash_malformed_response
                         1%nat [] 1 0 3 _ _ _ _ Hlc Hpos Hb Hem Hresp Hlen))).
Defined.

(** C6. [GetOldAccInputHash] terminates: a pass of the loop that does not
    return strictly decreases the measure (10 - attempt counter, batch
    number) in the lexicographic order, which is well founded; hence for
    every endpoint list, roll-up and starting batch number some number of
    passes yields a result, which is no panic when there is an endpoint.
    And with the stub that answers the zero hash
    and previous batch 0 for the batches 5 to 1 and a hash for batch 0,
    resolution from batch 5 returns the hash of batch 0 in its sixth pass,
    after the five decrements, having called for 5, 4, 3, 2, 1, 0 and never
    slept. *)
Theorem GetOldAccInputHash_terminates :
  (forall addr rollupId loopCount batchNum s loopCount' batchNum' s',
      0 <= loopCount <= 10 ->
      GetOldAccInputHash_body addr rollupId loopCount batchNum s
      = Ok (Again loopCount' batchNum') s' ->
      0 <= loopCount' <= 10
      /\ measure_lt (measure loopCount' batchNum')
                    (measure loopCount batchNum))
  /\ well_founded measure_lt
  /\ (forall addr rollupId batchNum s,
         exists fuel r,
           GetOldAccInputHash fuel addr rollupId batchNum s = Some r
           /\ (etherMans s <> [] -> r <> Panic))
  /\ (exists s',
         GetOldAccInputHash 6 [] 1 5 (stubSyncer walkBackStub)
         = Some (Ok (repeat x07 32, None) s')
         /\ trace s'
            = map (fun b => EvCallContract (callMsg [] 1 b)) [5; 4; 3; 2; 1; 0]
         /\ GetOldAccInputHash 5 [] 1 5 (stubSyncer walkBackStub) = None).
Proof.
  split; [|split; [|split]].
  - intros. eapply GetOldAccInputHash_body_decreases; eassumption.
  - exact measure_lt_wf.
  - intros addr rollupId b s. unfold GetOldAccInputHash.
    destruct (GetOldAccInputHash_loop_terminates addr rollupId 0 b s
                ltac:(lia)) as [fuel [r Hr]].
    exists fuel, r. split; [exact Hr|].
    intros Hne ->. revert Hr. now apply GetOldAccInputHash_loop_no_panic.
  - eexists. split; [|split]; vm_compute; reflexivity.
Qed.

Lemma GetOldAccInputHash_terminates_witness :
  0 <= 0 <= 10
  /\ GetOldAccInputHash_body [] 1 0 5 (stubSyncer walkBackStub)
     = Ok (Again 0 4)
          (record (EvCallContract (callMsg [] 1 5))
             (set_ethermanIndex 1 (stubSyncer walkBackStub)))
  /\ 0 <= 0 <= 10
  /\ measure_lt (measure 0 4) (measure 0 5).
Proof.
  assert (Hlc : 0 <= 0 <= 10) by lia.
  assert (Hbody : GetOldAccInputHash_body [] 1 0 5 (stubSyncer walkBackStub)
                  = Ok (Again 0 4)
                       (record (EvCallContract (callMsg [] 1 5))
                          (set_ethermanIndex 1 (stubSyncer walkBackStub))))
    by (vm_compute; reflexivity).
  split; [exact Hlc|]. split; [exact Hbody|].
  exact (proj1 GetOldAccInputHash_terminates [] 1 0 5 _ 0 4 _ Hlc Hbody).
Defined.

(** C10. Whenever [GetOldAccInputHash] returns without an error the hash it
    returns is not the zero hash; the zero hash comes only together with
    the "too many retries" error. *)
Theorem GetOldAccInputHash_success_is_nonzero :
  forall fuel addr rollupId batchNum s h err s',
    GetOldAccInputHash fuel addr rollupId batchNum s = Some (Ok (h, err) s') ->
    (err = None -> h <> ZeroHash)
    /\ (h = ZeroHash -> err = Some tooManyRetries)
    /\ (err <> None -> err = Some tooManyRetries /\ h = Hash_zero).
Proof.
  intros fuel addr rollupId b s h err s' H.
  apply GetOldAccInputHash_loop_returns in H.
  destruct H as [[-> Hh] | [-> ->]].
  - repeat split; congruence.
  - split; [discriminate|]. split; [reflexivity|]. intros _.
    split; reflexivity.
Qed.

Lemma GetOldAccInputHash_success_is_nonzero_witness :
  exists s',
    GetOldAccInputHash 6 [] 1 5 (stubSyncer walkBackStub)
    = Some (Ok (repeat x07 32, None) s')
    /\ (@None error = None -> repeat x07 32 <> ZeroHash).
Proof.
  eexists.
  assert (H : GetOldAccInputHash 6 [] 1 5 (stubSyncer walkBackStub)
              = Some (Ok (repeat x07 32, None) _))
    by (vm_compute; reflexivity).
  split; [exact H|].
  exact (proj1 (GetOldAccInputHash_success_is_nonzero
                  6%nat [] 1 5 _ _ _ _ H)).
Defined.

(** ** Range planning *)

Lemma queryBlocks_plan_more fuel k blockRange latest low jobs :
  queryBlocks_plan fuel blockRange latest low = Some jobs ->
  queryBlocks_plan (fuel + k) blockRange latest low = Some jobs.
Proof.
  revert low jobs. induction fuel as [|fuel IH]; intros low jobs;
    [discriminate|].
  rewrite Nat.add_succ_l. cbn [queryBlocks_plan].
  destruct (_ =? latest); [trivial|].
  destruct (queryBlocks_plan fuel _ _ _) as [rest|] eqn:Hrest; [|discriminate].
  rewrite (IH _ _ Hrest). trivial.
Qed.

(** The plan does not depend on the fuel that was enough for it. *)
Lemma queryBlocks_plan_deterministic fuel fuel' blockRange latest low
    jobs jobs' :
  queryBlocks_plan fuel blockRange latest low = Some jobs ->
  queryBlocks_plan fuel' blockRange latest low = Some jobs' ->
  jobs' = jobs.
Proof.
  intros H H'.
  apply (queryBlocks_plan_more _ fuel') in H.
  apply (queryBlocks_plan_more _ fuel) in H'.
  rewrite Nat.add_comm in H'. congruence.
Qed.

(** The loop appends a job before it can leave. *)
Lemma queryBlocks_plan_nonempty fuel blockRange latest low jobs :
  queryBlocks_plan fuel blockRange latest low = Some jobs -> jobs <> [].
Proof.
  destruct fuel as [|fuel]; [discriminate|]. cbn [queryBlocks_plan].
  destruct (_ =? latest).
  - intros H; injection H as <-. discriminate.
  - destruct (queryBlocks_plan fuel _ _ _); [|discriminate].
    intros H; injection H as <-. discriminate.
Qed.

(** Without wrap-around the plan is a chain from [low] to the latest
    block. *)
Lemma queryBlocks_plan_chain fuel blockRange latest low :
  0 <= blockRange -> 0 <= low <= latest -> latest + blockRange < 2 ^ 64 ->
  (Z.to_nat (latest - low) < fuel)%nat ->
  exists jobs,
    queryBlocks_plan fuel blockRange latest low = Some jobs
    /\ chain low latest jobs.
Proof.
  intros Hr. revert low.
  induction fuel as [|fuel IH]; intros low Hlow Hno Hfuel; [lia|].
  cbn [queryBlocks_plan].
  rewrite (uint64_small (low + blockRange)) by (unfold is_uint64; lia).
  destruct (Z.gtb_spec (low + blockRange) latest) as [Hgt|Hle].
  - rewrite Z.eqb_refl. eexists. split; [reflexivity|].
    apply chain_last. lia.
  - destruct (Z.eqb_spec (low + blockRange) latest) as [Heq|Hne].
    + eexists. split; [reflexivity|]. rewrite Heq. apply chain_last. lia.
    + rewrite (uint64_small (blockRange + 1)) by (unfold is_uint64; lia).
      rewrite (uint64_small (low + (blockRange + 1)))
        by (unfold is_uint64; lia).
      destruct (IH (low + (blockRange + 1))) as [rest [Hrest Hchain]];
        [lia | lia | lia |].
      rewrite Hrest. eexists. split; [reflexivity|].
      apply chain_cons; [lia | lia |].
      replace (low + blockRange + 1) with (low + (blockRange + 1)) by lia.
      exact Hchain.
Qed.

Lemma chain_bounds lo hi jobs :
  chain lo hi jobs ->
  lo <= hi
  /\ Forall (fun j => lo <= From j /\ From j <= To j /\ To j <= hi) jobs.
Proof.
  induction 1 as [lo hi Hle | lo t hi rest H1 H2 Hc [IHle IH]].
  - split; [exact Hle|]. constructor; [simpl; lia | constructor].
  - split; [lia|]. constructor; [simpl; lia|].
    eapply Forall_impl; [|exact IH]. simpl. intros j. lia.
Qed.

Lemma chain_head lo hi jobs :
  chain lo hi jobs -> exists j rest, jobs = j :: rest /\ From j = lo.
Proof. destruct 1; eexists; eexists; split; reflexivity. Qed.

Lemma chain_ascending lo hi jobs : chain lo hi jobs -> ascending jobs.
Proof.
  unfold ascending.
  induction 1 as [lo hi Hle | lo t hi rest H1 H2 Hc IH].
  - constructor; constructor.
  - constructor; [exact IH|].
    apply chain_bounds in Hc as [_ Hall].
    eapply Forall_impl; [|exact Hall]. simpl. intros j. lia.
Qed.

Lemma chain_contiguous lo hi jobs : chain lo hi jobs -> contiguous jobs.
Proof.
  unfold contiguous.
  induction 1 as [lo hi Hle | lo t hi rest H1 H2 Hc IH]; intros i a b Ha Hb.
  - destruct i as [|[|i]]; discriminate.
  - destruct i as [|i].
    + simpl in Ha, Hb. injection Ha as <-.
      destruct (chain_head _ _ _ Hc) as [j [rest' [-> Hj]]].
      simpl in Hb. injection Hb as <-. simpl. exact Hj.
    + simpl in Ha, Hb. eapply IH; eassumption.
Qed.

(** In a chain an earlier job ends before a later one starts. *)
Lemma chain_apart lo hi jobs :
  chain lo hi jobs ->
  forall i j a b,
    (i < j)%nat -> nth_error jobs i = Some a -> nth_error jobs j = Some b ->
    To a < From b.
Proof.
  induction 1 as [lo hi Hle | lo t hi rest H1 H2 Hc IH];
    intros i j a b Hij Ha Hb.
  - destruct j as [|[|j]]; try discriminate; lia.
  - destruct j as [|j]; [lia|]. destruct i as [|i].
    + simpl in Ha, Hb. injection Ha as <-. simpl.
      apply chain_bounds in Hc as [_ Hall].
      rewrite Forall_forall in Hall.
      apply nth_error_In in Hb. specialize (Hall _ Hb). lia.
    + simpl in Ha, Hb. eapply IH; [|eassumption|eassumption]. lia.
Qed.

Lemma chain_non_overlapping lo hi jobs :
  chain lo hi jobs -> non_overlapping jobs.
Proof.
  intros Hc i j a b Hij Ha Hb x [Hxa Hxb].
  destruct (Nat.lt_total i j) as [Hlt | [Heq | Hgt]]; [|congruence|].
  - pose proof (chain_apart _ _ _ Hc _ _ _ _ Hlt Ha Hb). lia.
  - pose proof (chain_apart _ _ _ Hc _ _ _ _ Hgt Hb Ha). lia.
Qed.

Lemma chain_covers lo hi jobs : chain lo hi jobs -> covers lo hi jobs.
Proof.
  unfold covers.
  induction 1 as [lo hi Hle | lo t hi rest H1 H2 Hc IH]; intros x.
  - split.
    + intros Hx. eexists. split; [left; reflexivity | simpl; lia].
    + intros [j [[<- | []] Hj]]. simpl in Hj. lia.
  - split.
    + intros Hx. destruct (Z_le_gt_dec x t) as [Hxt | Hxt].
      * eexists. split; [left; reflexivity | simpl; lia].
      * destruct (proj1 (IH x) ltac:(lia)) as [j [Hin Hj]].
        exists j. split; [right; exact Hin | exact Hj].
    + intros [j [[<- | Hin] Hj]].
      * simpl in Hj. lia.
      * pose proof (proj2 (IH x) (ex_intro _ j (conj Hin Hj))). lia.
Qed.

(** *** Claims about range planning *)

(** C2, as amended.  For every cycle with [lastCheckedL1Block <=
    latestL1Block] in which [latestL1Block + blockRange] does not exceed
    the [uint64] range, the planning loop ends, and the jobs it produces are
    ordered by [From] ascending, contiguous (each [From] is the previous
    [To] plus one), non-overlapping, and cover exactly the closed interval
    from [lastCheckedL1Block] to [latestL1Block]. *)
Theorem queryBlocks_plan_covers :
  forall s,
    0 <= blockRange s ->
    0 <= lastCheckedL1Block s <= latestL1Block s ->
    latestL1Block s + blockRange s < 2 ^ 64 ->
    exists jobs,
      (exists fuel,
          queryBlocks_plan fuel (blockRange s) (latestL1Block s)
            (lastCheckedL1Block s) = Some jobs)
      /\ (forall fuel jobs',
             queryBlocks_plan fuel (blockRange s) (latestL1Block s)
               (lastCheckedL1Block s) = Some jobs' -> jobs' = jobs)
      /\ ascending jobs
      /\ contiguous jobs
      /\ non_overlapping jobs
      /\ covers (lastCheckedL1Block s) (latestL1Block s) jobs.
Proof.
  intros s Hr Hlow Hno.
  destruct (queryBlocks_plan_chain
              (S (Z.to_nat (latestL1Block s - lastCheckedL1Block s)))
              _ _ _ Hr Hlow Hno ltac:(lia)) as [jobs [Hplan Hchain]].
  exists jobs. split; [eexists; exact Hplan|]. split.
  { intros fuel jobs' H'.
    eapply queryBlocks_plan_deterministic; eassumption. }
  split; [eapply chain_ascending; eassumption|].
  split; [eapply chain_contiguous; eassumption|].
  split; [eapply chain_non_overlapping; eassumption|].
  eapply chain_covers; eassumption.
Qed.

Lemma queryBlocks_plan_covers_witness :
  0 <= blockRange (set_latestL1Block 2500 (stubSyncer walkBackStub))
  /\ 0 <= lastCheckedL1Block (set_latestL1Block 2500 (stubSyncer walkBackStub))
       <= latestL1Block (set_latestL1Block 2500 (stubSyncer walkBackStub))
  /\ latestL1Block (set_latestL1Block 2500 (stubSyncer walkBackStub))
     + blockRange (set_latestL1Block 2500 (stubSyncer walkBackStub)) < 2 ^ 64
  /\ exists jobs,
      (exists fuel, queryBlocks_plan fuel 1000 2500 0 = Some jobs)
      /\ ascending jobs /\ covers 0 2500 jobs.
Proof.
  assert (H1 : 0 <= blockRange
                      (set_latestL1Block 2500 (stubSyncer walkBackStub)))
    by (simpl; lia).
  assert (H2 : 0 <= lastCheckedL1Block
                      (set_latestL1Block 2500 (stubSyncer walkBackStub))
               <= latestL1Block
                    (set_latestL1Block 2500 (stubSyncer walkBackStub)))
    by (simpl; lia).
  assert (H3 : latestL1Block (set_latestL1Block 2500 (stubSyncer walkBackStub))
               + blockRange (set_latestL1Block 2500 (stubSyncer walkBackStub))
               < 2 ^ 64)
    by (simpl; lia).
  split; [exact H1|]. split; [exact H2|]. split; [exact H3|].
  destruct (queryBlocks_plan_covers _ H1 H2 H3)
    as [jobs [Hplan [_ [Hasc [_ [_ Hcov]]]]]].
  exists jobs. split; [exact Hplan|]. split; [exact Hasc | exact Hcov].
Defined.

(** Where C2 fails as it stands: with [blockRange = 2^64 - 2] the sum
    [low + blockRange] wraps around, and the cycle from block 5 to block 10
    plans the jobs [5,3], [4,2], [3,1], [2,0], [1,10], which are not
    ascending and reach below block 5. *)
Lemma queryBlocks_plan_wraps_around :
  5 <= 10
  /\ queryBlocks_plan 5 (2 ^ 64 - 2) 10 5
     = Some [ {| From := 5; To := 3 |}; {| From := 4; To := 2 |};
              {| From := 3; To := 1 |}; {| From := 2; To := 0 |};
              {| From := 1; To := 10 |} ]
  /\ ~ ascending [ {| From := 5; To := 3 |}; {| From := 4; To := 2 |};
                   {| From := 3; To := 1 |}; {| From := 2; To := 0 |};
                   {| From := 1; To := 10 |} ]
  /\ ~ covers 5 10 [ {| From := 5; To := 3 |}; {| From := 4; To := 2 |};
                      {| From := 3; To := 1 |}; {| From := 2; To := 0 |};
                      {| From := 1; To := 10 |} ].
Proof.
  split; [lia|]. split; [vm_compute; reflexivity|]. split.
  - intros H. apply StronglySorted_inv in H as [_ H].
    apply Forall_inv in H. simpl in H. lia.
  - intros H. specialize (H 1). destruct H as [_ H].
    assert (5 <= 1 <= 10); [|lia].
    apply H. exists {| From := 1; To := 10 |}. split; [|simpl; lia].
    do 4 right. left. reflexivity.
Qed.

(** C7, as amended.  Range planning with start 0, end 2500 and width 1000
    produces exactly the three jobs [0,1000], [1001,2001], [2002,2500]:
    every job but the last spans [width + 1] blocks.  (Three passes of the
    loop are needed and enough.) *)
Theorem queryBlocks_plan_example :
  forall fuel,
    queryBlocks_plan fuel 1000 2500 0
    = if (fuel <? 3)%nat then None
      else Some [ {| From := 0; To := 1000 |};
                  {| From := 1001; To := 2001 |};
                  {| From := 2002; To := 2500 |} ].
Proof.
  intros [|[|[|fuel]]]; reflexivity.
Qed.

(** Where C7 fails as it stands: no amount of fuel makes the plan
    [0,1000], [1001,2000], [2001,2500]. *)
Lemma queryBlocks_plan_example_differs :
  ~ (exists fuel,
        queryBlocks_plan fuel 1000 2500 0
        = Some [ {| From := 0; To := 1000 |};
                 {| From := 1001; To := 2000 |};
                 {| From := 2001; To := 2500 |} ])
  /\ queryBlocks_plan 3 1000 2500 0
     = Some [ {| From := 0; To := 1000 |};
              {| From := 1001; To := 2001 |};
              {| From := 2002; To := 2500 |} ].
Proof.
  split; [|reflexivity].
  intros [[|[|[|fuel]]] H]; discriminate H.
Qed.

(** ** The poll loop *)

Lemma getLatestL1Block_unfold s :
  getLatestL1Block s =
  match getNextEtherman s with
  | Panic => Panic
  | Ok em s1 =>
      let answer := BlockByNumber em (now s1) FinalizedBlockNumber in
      let s' := record (EvBlockByNumber FinalizedBlockNumber answer) s1 in
      match answer with
      | inr err => Ok (0, Some err) s'
      | inl latestBlock =>
          Ok (NumberU64 latestBlock, None)
             (set_latestL1Block (NumberU64 latestBlock) s')
      end
  end.
Proof.
  unfold getLatestL1Block, bind.
  destruct (getNextEtherman s) as [em s1|]; reflexivity.
Qed.

(** What the query for the latest block does to the syncer. *)
Lemma getLatestL1Block_Ok s latest err s1 :
  getLatestL1Block s = Ok (latest, err) s1 ->
  lastCheckedL1Block s1 = lastCheckedL1Block s
  /\ etherMans s1 = etherMans s
  /\ exists em,
      In em (etherMans s)
      /\ trace s1
         = trace s ++ [EvBlockByNumber FinalizedBlockNumber
                         (BlockByNumber em (now s) FinalizedBlockNumber)]
      /\ match BlockByNumber em (now s) FinalizedBlockNumber with
         | inl b => err = None /\ latest = NumberU64 b
                    /\ latestL1Block s1 = NumberU64 b
         | inr e => err = Some e /\ latestL1Block s1 = latestL1Block s
         end.
Proof.
  rewrite getLatestL1Block_unfold.
  destruct (getNextEtherman s) as [em s0|] eqn:Hem; [|discriminate].
  apply getNextEtherman_Ok in Hem as [Hin [i ->]]. cbv zeta.
  change (now (set_ethermanIndex i s)) with (now s).
  destruct (BlockByNumber em (now s) FinalizedBlockNumber) as [b|e] eqn:Hb;
    intros H; injection H as <- <- <-;
    (split; [reflexivity|]; split; [reflexivity|]);
    exists em; rewrite Hb; cbn; auto.
Qed.

Lemma queryBlocks_collect_fields nfetches aimingFor arrivals progress
    complete s r s' :
  queryBlocks_collect nfetches aimingFor arrivals progress complete s
  = Some (r, s') ->
  lastCheckedL1Block s' = lastCheckedL1Block s
  /\ latestL1Block s' = latestL1Block s
  /\ etherMans s' = etherMans s
  /\ trace s' = trace s.
Proof.
  revert progress complete s.
  induction arrivals as [|[res|] rest IH]; intros progress complete s;
    cbn [queryBlocks_collect]; [discriminate| |].
  - destruct (Error res) as [e|].
    + intros H; injection H as _ <-. auto.
    + destruct (_ =? nfetches).
      * intros H; injection H as _ <-.
        destruct (0 <? _)%nat; auto.
      * intros H. apply IH in H. destruct (0 <? _)%nat; exact H.
  - destruct (aimingFor =? 0); intros H; apply IH in H; exact H.
Qed.

(** A cycle reads the two block numbers and does not write them. *)
Lemma queryBlocks_fields fuel arrivals s r s' :
  queryBlocks fuel arrivals s = Some (r, s') ->
  lastCheckedL1Block s' = lastCheckedL1Block s
  /\ latestL1Block s' = latestL1Block s
  /\ etherMans s' = etherMans s
  /\ trace s' = trace s.
Proof.
  unfold queryBlocks.
  destruct (queryBlocks_plan _ _ _ _); [|discriminate].
  apply queryBlocks_collect_fields.
Qed.

(** One pass of the poll loop, by cases. *)
Lemma Run_iteration_unfold env s :
  Run_iteration env s =
  match getLatestL1Block s with
  | Panic => Some Panic
  | Ok (latest, Some err) s1 => Some (Ok tt (Run_pause s1))
  | Ok (latest, None) s1 =>
      if latest >? lastCheckedL1Block s
      then
        match queryBlocks (planFuel env) (arrivals env)
                (set_isDownloading true s1) with
        | None => None
        | Some (Some err, s3) => Some (Ok tt (Run_pause s3))
        | Some (None, s3) =>
            Some (Ok tt (Run_pause (set_lastCheckedL1Block latest s3)))
        end
      else Some (Ok tt (Run_pause s1))
  end.
Proof.
  unfold Run_iteration.
  destruct (getLatestL1Block s) as [[latest [err|]] s1|] eqn:H;
    try reflexivity.
  apply getLatestL1Block_Ok in H as [-> _]. reflexivity.
Qed.

(** What one pass does to the checkpoint. *)
Lemma Run_iteration_checkpoint env s s' :
  Run_iteration env s = Some (Ok tt s') ->
  lastCheckedL1Block s' = lastCheckedL1Block s
  \/ exists s1 s3,
      getLatestL1Block s = Ok (lastCheckedL1Block s', None) s1
      /\ lastCheckedL1Block s' > lastCheckedL1Block s
      /\ queryBlocks (planFuel env) (arrivals env) (set_isDownloading true s1)
         = Some (None, s3).
Proof.
  rewrite Run_iteration_unfold.
  destruct (getLatestL1Block s) as [[latest [err|]] s1|] eqn:Hq;
    [| |discriminate].
  - apply getLatestL1Block_Ok in Hq as [Hlc _].
    intros H; injection H as <-. left. exact Hlc.
  - pose proof (getLatestL1Block_Ok _ _ _ _ Hq) as [Hlc _].
    destruct (Z.gtb_spec latest (lastCheckedL1Block s)) as [Hgt|Hle].
    + destruct (queryBlocks _ _ _) as [[[e|] s3]|] eqn:Hc; [| |discriminate].
      * apply queryBlocks_fields in Hc as [Hc _].
        intros H; injection H as <-. left. cbn in *. congruence.
      * intros H; injection H as <-. right. exists s1, s3. cbn.
        split; [reflexivity|]. split; [lia | exact Hc].
    + intros H; injection H as <-. left. exact Hlc.
Qed.

Lemma Run_pause_fields s :
  etherMans (Run_pause s) = etherMans s
  /\ lastCheckedL1Block (Run_pause s) = lastCheckedL1Block s
  /\ latestL1Block (Run_pause s) = latestL1Block s
  /\ trace (Run_pause s)
     = trace s ++ [EvSleep (int64 (int64 (queryDelay s) * Millisecond))].
Proof. repeat split. Qed.

Lemma Run_loop_checkpoint envs s s' :
  Run_loop envs s = Some (Ok tt s') ->
  lastCheckedL1Block s <= lastCheckedL1Block s'.
Proof.
  revert s. induction envs as [|env envs IH]; intros s; cbn [Run_loop].
  - intros H; injection H as <-. lia.
  - destruct (Run_iteration env s) as [[[] s1|]|] eqn:Hit;
      [|discriminate|discriminate].
    intros H. apply IH in H.
    apply Run_iteration_checkpoint in Hit as [Heq | [s2 [s3 [_ [Hgt _]]]]];
      lia.
Qed.

Lemma queried_app_l evs evs' :
  queried (evs ++ evs') ->
  (forall b, ~ In (EvBlockByNumber FinalizedBlockNumber (inl b)) evs') ->
  queried evs.
Proof.
  intros [b Hb] Hnot. apply in_app_or in Hb as [Hb | Hb].
  - exists b. exact Hb.
  - destruct (Hnot b Hb).
Qed.

Section PollLoopInvariant.

(** The loop was started by [Run init] on [s0], whose endpoints answer the
    query for the finalized block with numbers that start at [init] and
    never go down. *)
Variable init : Z.
Variable s0 : L1Syncer.
Hypothesis Hinit : finalized_at_least init (etherMans s0).
Hypothesis Hmono : finalized_monotone (etherMans s0).

(** Right after a successful query the checkpoint is at most the latest
    block. *)
Lemma Run_invariant_after_query s latest s1 :
  Run_invariant init s0 s ->
  getLatestL1Block s = Ok (latest, None) s1 ->
  latestL1Block s1 = latest /\ lastCheckedL1Block s1 <= latestL1Block s1.
Proof.
  intros [Hems [Hprov _]] Hq.
  apply getLatestL1Block_Ok in Hq as [Hlc [_ [em [Hin [_ Hans]]]]].
  rewrite Hems in Hin.
  destruct (BlockByNumber em (now s) FinalizedBlockNumber) as [b|e] eqn:Hb;
    [|destruct Hans; discriminate].
  destruct Hans as [_ [-> Hlatest]]. split; [exact Hlatest|].
  rewrite Hlc, Hlatest.
  destruct Hprov as [-> | [em0 [t [b0 [Hin0 [Ht [Hb0 ->]]]]]]].
  - eapply Hinit; eassumption.
  - eapply (Hmono em0 em t (now s)); try eassumption. lia.
Qed.

(** A pass of the loop keeps the invariant. *)
Lemma Run_invariant_step env s s' :
  Run_invariant init s0 s ->
  Run_iteration env s = Some (Ok tt s') ->
  Run_invariant init s0 s'.
Proof.
  intros Hinv.
  rewrite Run_iteration_unfold.
  destruct (getLatestL1Block s) as [[latest err] s1|] eqn:Hq; [|discriminate].
  pose proof (getLatestL1Block_Ok _ _ _ _ Hq)
    as [Hlc [Hems1 [em [Hin [Htr Hans]]]]].
  assert (Hnow : forall t, (t < now s)%nat -> (t < now s1)%nat).
  { unfold now. rewrite Htr, length_app. simpl. lia. }
  assert (Hkeep : lastCheckedL1Block s1 <= latestL1Block s1 ->
                  Run_invariant init s0 (Run_pause s1)).
  { intros Hle. destruct Hinv as [Hems [Hprov [evs [Hevs _]]]].
    split; [cbn; congruence|]. split.
    - destruct Hprov as [Hp | [em0 [t [b0 [Hin0 [Ht [Hb0 Hp]]]]]]].
      + left. cbn. congruence.
      + right. exists em0, t, b0.
        repeat split; try assumption; [|cbn; congruence].
        unfold now. cbn. rewrite length_app. simpl.
        specialize (Hnow t Ht). unfold now in Hnow. lia.
    - eexists. split.
      + cbn. rewrite Htr, Hevs, <- !app_assoc. reflexivity.
      + intros _. exact Hle. }
  destruct err as [err|].
  - (* the query failed *)
    intros H; injection H as <-.
    destruct (BlockByNumber em (now s) FinalizedBlockNumber) as [b|e] eqn:Hb;
      [destruct Hans; discriminate|].
    destruct Hans as [_ Hlatest].
    destruct Hinv as [Hems [Hprov [evs [Hevs Hq0]]]].
    split; [cbn; congruence|]. split.
    + destruct Hprov as [Hp | [em0 [t [b0 [Hin0 [Ht [Hb0 Hp]]]]]]].
      * left. cbn. congruence.
      * right. exists em0, t, b0.
        repeat split; try assumption; [|cbn; congruence].
        unfold now. cbn. rewrite length_app. simpl.
        specialize (Hnow t Ht). unfold now in Hnow. lia.
    + eexists. split.
      * cbn. rewrite Htr, Hevs, <- !app_assoc. reflexivity.
      * intros Hqd. cbn. rewrite Hlc, Hlatest. apply Hq0.
        eapply queried_app_l; [exact Hqd|].
        intros b [H | [H | []]]; discriminate H.
  - (* the query succeeded *)
    pose proof (Run_invariant_after_query _ _ _ Hinv Hq) as [Hl1 Hle].
    destruct (latest >? lastCheckedL1Block s).
    + destruct (queryBlocks _ _ _) as [[[e|] s3]|] eqn:Hc; [| |discriminate].
      * (* the cycle failed *)
        apply queryBlocks_fields in Hc as [Hc1 [Hc2 [Hc3 Hc4]]]. cbn in *.
        intros H; injection H as <-.
        destruct Hinv as [Hems [Hprov [evs [Hevs _]]]].
        split; [cbn; congruence|]. split.
        -- destruct Hprov as [Hp | [em0 [t [b0 [Hin0 [Ht [Hb0 Hp]]]]]]].
           ++ left. cbn. congruence.
           ++ right. exists em0, t, b0.
              repeat split; try assumption; [|cbn; congruence].
              unfold now. cbn. rewrite length_app, Hc4. simpl.
              specialize (Hnow t Ht). unfold now in Hnow. lia.
        -- eexists. split.
           ++ cbn. rewrite Hc4, Htr, Hevs, <- !app_assoc. reflexivity.
           ++ intros _. cbn. lia.
      * (* the cycle succeeded *)
        apply queryBlocks_fields in Hc as [Hc1 [Hc2 [Hc3 Hc4]]]. cbn in *.
        intros H; injection H as <-.
        destruct Hinv as [Hems [Hprov [evs [Hevs _]]]].
        destruct (BlockByNumber em (now s) FinalizedBlockNumber)
          as [b|e0] eqn:Hb; [|destruct Hans; discriminate].
        destruct Hans as [_ [Hlat _]].
        split; [cbn; congruence|]. split.
        -- right. exists em, (now s), b.
           split; [congruence|]. split; [|split; [exact Hb | cbn; exact Hlat]].
           unfold now. cbn. rewrite length_app, Hc4, Htr, length_app.
           simpl. lia.
        -- eexists. split.
           ++ cbn. rewrite Hc4, Htr, Hevs, <- !app_assoc. reflexivity.
           ++ intros _. cbn. lia.
    + intros H; injection H as <-. apply Hkeep. exact Hle.
Qed.

Lemma Run_invariant_loop envs s s' :
  Run_invariant init s0 s ->
  Run_loop envs s = Some (Ok tt s') ->
  Run_invariant init s0 s'.
Proof.
  revert s.
  induction envs as [|env envs IH]; intros s Hinv; cbn [Run_loop].
  - intros H; injection H as <-. exact Hinv.
  - destruct (Run_iteration env s) as [[[] s1|]|] eqn:Hit;
      [|discriminate|discriminate].
    apply IH. eapply Run_invariant_step; eassumption.
Qed.

(** [Run] sets the invariant up. *)
Lemma Run_invariant_start : Run_invariant init s0 (Run_start init s0).
Proof.
  split; [reflexivity|]. split; [left; reflexivity|].
  exists []. split; [cbn; now rewrite app_nil_r|].
  intros [b []].
Qed.

End PollLoopInvariant.

(** C8, as amended.  For every start above the end, with [start + width]
    inside the [uint64] range, the planning loop produces the single job
    from start to end (a job whose [From] exceeds its [To]); the loop never
    produces an empty list of jobs, whatever its input; and the case of no
    progress is kept away from the cycle by the poll loop, which on a
    latest block that does not exceed the checkpoint only clears the flag
    and sleeps. *)
Theorem queryBlocks_plan_no_progress :
  (forall fuel blockRange latest low,
      0 <= blockRange -> 0 <= latest < low -> low + blockRange < 2 ^ 64 ->
      queryBlocks_plan (S fuel) blockRange latest low
      = Some [ {| From := low; To := latest |} ])
  /\ (forall fuel blockRange latest low jobs,
         queryBlocks_plan fuel blockRange latest low = Some jobs ->
         jobs <> [])
  /\ (forall env s latest s1,
         getLatestL1Block s = Ok (latest, None) s1 ->
         latest <= lastCheckedL1Block s ->
         Run_iteration env s = Some (Ok tt (Run_pause s1))).
Proof.
  split; [|split].
  - intros fuel blockRange latest low Hr Hlow Hno. cbn [queryBlocks_plan].
    rewrite (uint64_small (low + blockRange)) by (unfold is_uint64; lia).
    replace (low + blockRange >? latest) with true
      by (symmetry; apply Z.gtb_lt; lia).
    rewrite Z.eqb_refl. reflexivity.
  - intros. eapply queryBlocks_plan_nonempty; eassumption.
  - intros env s latest s1 Hq Hle.
    rewrite Run_iteration_unfold, Hq.
    replace (latest >? lastCheckedL1Block s) with false; [reflexivity|].
    symmetry. rewrite Z.gtb_ltb. apply Z.ltb_ge. exact Hle.
Qed.

Lemma queryBlocks_plan_no_progress_witness :
  0 <= 10
  /\ 0 <= 3 < 5
  /\ 5 + 10 < 2 ^ 64
  /\ queryBlocks_plan 1 10 3 5 = Some [ {| From := 5; To := 3 |} ].
Proof.
  assert (H1 : 0 <= 10) by lia.
  assert (H2 : 0 <= 3 < 5) by lia.
  assert (H3 : 5 + 10 < 2 ^ 64) by lia.
  split; [exact H1|]. split; [exact H2|]. split; [exact H3|].
  exact (proj1 queryBlocks_plan_no_progress 0%nat 10 3 5 H1 H2 H3).
Defined.

(** Where C8 fails as it stands: from start 5 to end 3 the plan is not
    empty. *)
Lemma queryBlocks_plan_not_empty :
  5 > 3
  /\ exists jobs, queryBlocks_plan 1 10 3 5 = Some jobs /\ jobs <> [].
Proof.
  split; [lia|]. eexists. split; [reflexivity | discriminate].
Qed.

(** *** Claims about the poll loop *)

(** C3. Over any number of passes of the poll loop the checkpoint
    [lastCheckedL1Block] does not decrease.  When the query for the latest
    block fails, or its answer does not exceed the checkpoint, the pass
    runs no cycle and leaves the checkpoint as it was; when the answer
    exceeds the checkpoint the pass runs one cycle, and sets the checkpoint
    to the answer if the cycle returns no error and leaves it as it was if
    the cycle returns an error. *)
Theorem Run_checkpoint_monotone :
  (forall envs s s',
      Run_loop envs s = Some (Ok tt s') ->
      lastCheckedL1Block s <= lastCheckedL1Block s')
  /\ (forall env s latest err s1,
         getLatestL1Block s = Ok (latest, err) s1 ->
         err <> None \/ latest <= lastCheckedL1Block s ->
         Run_iteration env s = Some (Ok tt (Run_pause s1))
         /\ lastCheckedL1Block (Run_pause s1) = lastCheckedL1Block s)
  /\ (forall env s latest s1,
         getLatestL1Block s = Ok (latest, None) s1 ->
         latest > lastCheckedL1Block s ->
         match queryBlocks (planFuel env) (arrivals env)
                 (set_isDownloading true s1) with
         | None => Run_iteration env s = None
         | Some (Some err, s3) =>
             Run_iteration env s = Some (Ok tt (Run_pause s3))
             /\ lastCheckedL1Block (Run_pause s3) = lastCheckedL1Block s
         | Some (None, s3) =>
             Run_iteration env s
             = Some (Ok tt (Run_pause (set_lastCheckedL1Block latest s3)))
             /\ lastCheckedL1Block
                  (Run_pause (set_lastCheckedL1Block latest s3)) = latest
         end).
Proof.
  split; [|split].
  - exact Run_loop_checkpoint.
  - intros env s latest err s1 Hq Hcase.
    pose proof (getLatestL1Block_Ok _ _ _ _ Hq) as [Hlc _].
    rewrite Run_iteration_unfold, Hq. split; [|exact Hlc].
    destruct err as [err|]; [reflexivity|].
    destruct Hcase as [Hne | Hle]; [congruence|].
    replace (latest >? lastCheckedL1Block s) with false; [reflexivity|].
    symmetry. rewrite Z.gtb_ltb. apply Z.ltb_ge. exact Hle.
  - intros env s latest s1 Hq Hgt.
    pose proof (getLatestL1Block_Ok _ _ _ _ Hq) as [Hlc _].
    rewrite Run_iteration_unfold, Hq.
    replace (latest >? lastCheckedL1Block s) with true
      by (symmetry; apply Z.gtb_lt; lia).
    destruct (queryBlocks _ _ _) as [[[e|] s3]|] eqn:Hc; [| |reflexivity].
    + split; [reflexivity|].
      apply queryBlocks_fields in Hc as [Hc _]. cbn in *. congruence.
    + split; reflexivity.
Qed.

Lemma Run_checkpoint_monotone_witness :
  exists s',
    Run_loop [quietCycle; failingCycle] (chainSyncer (fun _ => 100))
    = Some (Ok tt s')
    /\ lastCheckedL1Block (chainSyncer (fun _ => 100))
       <= lastCheckedL1Block s'.
Proof.
  eexists.
  assert (H : Run_loop [quietCycle; failingCycle]
                (chainSyncer (fun _ => 100)) = Some (Ok tt _))
    by (vm_compute; reflexivity).
  split; [exact H|].
  exact (proj1 Run_checkpoint_monotone _ _ _ H).
Defined.

(** C9, as amended.  If [Run] is given a checkpoint that no answer to the
    query for the finalized block falls below, and these answers never go
    down from one query to a later one, then after the first successful
    query [lastCheckedL1Block <= latestL1Block] holds at the end of every
    pass of the loop, and right after every successful query of a later
    pass. *)
Theorem Run_checkpoint_below_latest :
  forall init envs s0 s,
    isSyncStarted s0 = false ->
    finalized_at_least init (etherMans s0) ->
    finalized_monotone (etherMans s0) ->
    Run init envs s0 = Some (Ok tt s) ->
    (exists evs,
        trace s = trace s0 ++ evs
        /\ (queried evs -> lastCheckedL1Block s <= latestL1Block s))
    /\ (forall latest s1,
           getLatestL1Block s = Ok (latest, None) s1 ->
           lastCheckedL1Block s1 <= latestL1Block s1).
Proof.
  intros init envs s0 s Hstart Hinit Hmono. unfold Run. rewrite Hstart.
  intros Hrun.
  pose proof (Run_invariant_loop init s0 Hinit Hmono _ _ _
                (Run_invariant_start init s0) Hrun) as Hinv.
  split.
  - destruct Hinv as [_ [_ Hevs]]. exact Hevs.
  - intros latest s1 Hq.
    eapply (Run_invariant_after_query init s0 Hinit Hmono); eassumption.
Qed.

Lemma Run_checkpoint_below_latest_witness :
  isSyncStarted (chainSyncer (fun _ => 100)) = false
  /\ finalized_at_least 0 (etherMans (chainSyncer (fun _ => 100)))
  /\ finalized_monotone (etherMans (chainSyncer (fun _ => 100)))
  /\ exists s,
      Run 0 [quietCycle; failingCycle] (chainSyncer (fun _ => 100))
      = Some (Ok tt s)
      /\ exists evs,
          trace s = trace (chainSyncer (fun _ => 100)) ++ evs
          /\ (queried evs -> lastCheckedL1Block s <= latestL1Block s).
Proof.
  assert (H1 : isSyncStarted (chainSyncer (fun _ => 100)) = false)
    by reflexivity.
  assert (H2 : finalized_at_least 0 (etherMans (chainSyncer (fun _ => 100)))).
  { intros em t b [<- | []] Hb. injection Hb as <-. vm_compute. discriminate. }
  assert (H3 : finalized_monotone (etherMans (chainSyncer (fun _ => 100)))).
  { intros em em' t t' b b' [<- | []] [<- | []] _ Hb Hb'.
    injection Hb as <-. injection Hb' as <-. vm_compute. discriminate. }
  split; [exact H1|]. split; [exact H2|]. split; [exact H3|].
  eexists.
  assert (H : Run 0 [quietCycle; failingCycle] (chainSyncer (fun _ => 100))
              = Some (Ok tt _))
    by (vm_compute; reflexivity).
  split; [exact H|].
  exact (proj1 (Run_checkpoint_below_latest _ _ _ _ H1 H2 H3 H)).
Defined.

(** Where C9 fails as it stands.  Started with checkpoint 1000 on a chain
    whose finalized block is 500, the loop ends its first pass, after a
    successful query, with checkpoint 1000 above latest block 500.  And on
    a chain that answers 100 and then 90, started with checkpoint 0, the
    second pass ends with checkpoint 100 above latest block 90. *)
Lemma Run_checkpoint_above_latest :
  (exists s,
      Run 1000 [quietCycle] (chainSyncer (fun _ => 500)) = Some (Ok tt s)
      /\ queried (trace s)
      /\ ~ lastCheckedL1Block s <= latestL1Block s)
  /\ (exists s,
         Run 0 [quietCycle; quietCycle] (chainSyncer shrinkingChain)
         = Some (Ok tt s)
         /\ queried (trace s)
         /\ ~ lastCheckedL1Block s <= latestL1Block s).
Proof.
  split.
  - eexists. split; [vm_compute; reflexivity|]. split.
    + exists {| Number := 500 |}. left. reflexivity.
    + cbn. lia.
  - eexists. split; [vm_compute; reflexivity|]. split.
    + exists {| Number := 100 |}. left. reflexivity.
    + cbn. lia.
Qed.

(** ** The fetch worker *)

Lemma Sleep_trace d s : trace (Sleep d s) = trace s ++ [EvSleep d].
Proof. reflexivity. Qed.

Section FailingQuery.

(** A query that every endpoint of the list [ems] fails, at every time. *)
Variable query : FilterQuery.
Variable ems : list IEtherman.
Hypothesis Hne : ems <> [].
Hypothesis Hfail :
  forall em t, In em ems -> exists e, FilterLogs em t query = inr e.

(** One failed attempt of the retry loop, with the counter still in its
    working range. *)
Lemma getSequencedLogs_retry_failed fuel retry s :
  0 <= retry <= 5 ->
  etherMans s = ems ->
  exists e s1,
    trace s1 = trace s ++ [EvFilterLogs query (inr e)]
    /\ etherMans s1 = ems
    /\ getSequencedLogs_retry (S fuel) query retry s
       = if retry + 1 >? 5 then Some (Ok (GaveUp e) s1)
         else getSequencedLogs_retry fuel query (retry + 1)
                (Sleep ((retry + 1) * 2 * Second) s1).
Proof.
  intros Hretry Hems. cbn [getSequencedLogs_retry].
  assert (Hne' : etherMans s <> []) by (rewrite Hems; exact Hne).
  destruct (getNextEtherman_total s Hne') as [em [s0 Hem]]. rewrite Hem.
  apply getNextEtherman_Ok in Hem as [Hin [i ->]].
  rewrite Hems in Hin.
  destruct (Hfail em (now (set_ethermanIndex i s)) Hin) as [e He].
  rewrite He.
  exists e, (record (EvFilterLogs query (inr e)) (set_ethermanIndex i s)).
  split; [reflexivity|]. split; [exact Hems|].
  rewrite (int64_small (retry + 1)) by lia.
  rewrite !(int64_small ((retry + 1) * 2)) by lia.
  rewrite (int64_small ((retry + 1) * 2 * Second)) by (unfold Second; lia).
  reflexivity.
Qed.

(** Take one failed attempt off the retry loop in the goal: the attempt
    number [r], the fuel left [f], the state [s] it starts from. *)
Ltac failed_attempt r f s Hems e s1 Ht Hm :=
  let Hr := fresh "Hr" in
  destruct (getSequencedLogs_retry_failed f r s ltac:(lia) Hems)
    as [e [s1 [Ht [Hm Hr]]]];
  rewrite Hr; clear Hr.

(** The query is given up after six attempts with five sleeps between
    them. *)
Lemma getSequencedLogs_retry_gives_up fuel s :
  etherMans s = ems ->
  exists e1 e2 e3 e4 e5 e6 s',
    getSequencedLogs_retry (6 + fuel) query 0 s = Some (Ok (GaveUp e6) s')
    /\ trace s'
       = trace s ++ [ EvFilterLogs query (inr e1); EvSleep (2 * Second);
                      EvFilterLogs query (inr e2); EvSleep (4 * Second);
                      EvFilterLogs query (inr e3); EvSleep (6 * Second);
                      EvFilterLogs query (inr e4); EvSleep (8 * Second);
                      EvFilterLogs query (inr e5); EvSleep (10 * Second);
                      EvFilterLogs query (inr e6) ].
Proof.
  intros Hm0.
  change (6 + fuel)%nat with (S (S (S (S (S (S fuel)))))).
  failed_attempt 0 (S (S (S (S (S fuel))))) s Hm0 e1 s1 Ht1 Hm1.
  change (0 + 1 >? 5) with false. cbv iota.
  failed_attempt (0 + 1) (S (S (S (S fuel))))
    (Sleep ((0 + 1) * 2 * Second) s1) Hm1 e2 s2 Ht2 Hm2.
  change (0 + 1 + 1 >? 5) with false. cbv iota.
  failed_attempt (0 + 1 + 1) (S (S (S fuel)))
    (Sleep ((0 + 1 + 1) * 2 * Second) s2) Hm2 e3 s3 Ht3 Hm3.
  change (0 + 1 + 1 + 1 >? 5) with false. cbv iota.
  failed_attempt (0 + 1 + 1 + 1) (S (S fuel))
    (Sleep ((0 + 1 + 1 + 1) * 2 * Second) s3) Hm3 e4 s4 Ht4 Hm4.
  change (0 + 1 + 1 + 1 + 1 >? 5) with false. cbv iota.
  failed_attempt (0 + 1 + 1 + 1 + 1) (S fuel)
    (Sleep ((0 + 1 + 1 + 1 + 1) * 2 * Second) s4) Hm4 e5 s5 Ht5 Hm5.
  change (0 + 1 + 1 + 1 + 1 + 1 >? 5) with false. cbv iota.
  failed_attempt (0 + 1 + 1 + 1 + 1 + 1) fuel
    (Sleep ((0 + 1 + 1 + 1 + 1 + 1) * 2 * Second) s5) Hm5 e6 s6 Ht6 Hm6.
  change (0 + 1 + 1 + 1 + 1 + 1 + 1 >? 5) with true. cbv iota.
  exists e1, e2, e3, e4, e5, e6, s6. split; [reflexivity|].
  rewrite Ht6, Sleep_trace, Ht5, Sleep_trace, Ht4, Sleep_trace, Ht3,
    Sleep_trace, Ht2, Sleep_trace, Ht1.
  rewrite <- !app_assoc. reflexivity.
Qed.

End FailingQuery.

(** *** The claim about the fetch worker *)

(** C4. A worker that receives a job whose log query fails at every
    endpoint and every time makes exactly six attempts, sleeps 2, 4, 6, 8
    and 10 seconds between them, then sends one result that carries the
    error of the last attempt and no logs, and returns: it takes no further
    job and does not try this one again. *)
Theorem getSequencedLogs_retry_bound :
  forall fuel j jobs s,
    (6 <= fuel)%nat ->
    etherMans s <> [] ->
    (forall em t,
        In em (etherMans s) ->
        exists e,
          FilterLogs em t
            {| FromBlock := From j; ToBlock := To j;
               Addresses := l1ContractAddresses s; Topics := topics s |}
          = inr e) ->
    let query := {| FromBlock := From j; ToBlock := To j;
                    Addresses := l1ContractAddresses s;
                    Topics := topics s |} in
    exists e1 e2 e3 e4 e5 e6 s',
      getSequencedLogs fuel (j :: jobs) s = Some (Ok tt s')
      /\ trace s'
         = trace s ++ [ EvFilterLogs query (inr e1); EvSleep (2 * Second);
                        EvFilterLogs query (inr e2); EvSleep (4 * Second);
                        EvFilterLogs query (inr e3); EvSleep (6 * Second);
                        EvFilterLogs query (inr e4); EvSleep (8 * Second);
                        EvFilterLogs query (inr e5); EvSleep (10 * Second);
                        EvFilterLogs query (inr e6);
                        EvResult {| Size := 0; Error := Some e6;
                                    Logs := [] |} ]
      /\ sleeps (trace s')
         = sleeps (trace s)
           ++ [2 * Second; 4 * Second; 6 * Second; 8 * Second; 10 * Second].
Proof.
  intros fuel j jobs s Hfuel Hne Hfail query.
  replace fuel with (6 + (fuel - 6))%nat by lia.
  destruct (getSequencedLogs_retry_gives_up query (etherMans s) Hne Hfail
              (fuel - 6) s eq_refl)
    as [e1 [e2 [e3 [e4 [e5 [e6 [s' [Hrun Htrace]]]]]]]].
  exists e1, e2, e3, e4, e5, e6. eexists.
  cbn [getSequencedLogs]. fold query. rewrite Hrun.
  split; [reflexivity|].
  assert (Ht : trace (record (EvResult {| Size := 0; Error := Some e6;
                                          Logs := [] |}) s')
               = trace s ++ [ EvFilterLogs query (inr e1); EvSleep (2 * Second);
                        EvFilterLogs query (inr e2); EvSleep (4 * Second);
                        EvFilterLogs query (inr e3); EvSleep (6 * Second);
                        EvFilterLogs query (inr e4); EvSleep (8 * Second);
                        EvFilterLogs query (inr e5); EvSleep (10 * Second);
                        EvFilterLogs query (inr e6);
                        EvResult {| Size := 0; Error := Some e6;
                                    Logs := [] |} ]).
  { cbn [trace record]. rewrite Htrace, <- app_assoc. reflexivity. }
  split; [exact Ht|].
  rewrite Ht. unfold sleeps. rewrite flat_map_app. reflexivity.
Qed.

Lemma getSequencedLogs_retry_bound_witness :
  (6 <= 6)%nat
  /\ etherMans failingLogsSyncer <> []
  /\ (forall em t,
         In em (etherMans failingLogsSyncer) ->
         exists e,
           FilterLogs em t
             {| FromBlock := 0; ToBlock := 10;
                Addresses := []; Topics := [] |}
           = inr e)
  /\ exists e1 e2 e3 e4 e5 e6 s',
      getSequencedLogs 6
        [ {| From := 0; To := 10 |}; {| From := 11; To := 20 |} ]
        failingLogsSyncer
      = Some (Ok tt s')
      /\ trace s'
         = [ EvFilterLogs {| FromBlock := 0; ToBlock := 10;
                             Addresses := []; Topics := [] |} (inr e1);
             EvSleep (2 * Second);
             EvFilterLogs {| FromBlock := 0; ToBlock := 10;
                             Addresses := []; Topics := [] |} (inr e2);
             EvSleep (4 * Second);
             EvFilterLogs {| FromBlock := 0; ToBlock := 10;
                             Addresses := []; Topics := [] |} (inr e3);
             EvSleep (6 * Second);
             EvFilterLogs {| FromBlock := 0; ToBlock := 10;
                             Addresses := []; Topics := [] |} (inr e4);
             EvSleep (8 * Second);
             EvFilterLogs {| FromBlock := 0; ToBlock := 10;
                             Addresses := []; Topics := [] |} (inr e5);
             EvSleep (10 * Second);
             EvFilterLogs {| FromBlock := 0; ToBlock := 10;
                             Addresses := []; Topics := [] |} (inr e6);
             EvResult {| Size := 0; Error := Some e6; Logs := [] |} ].
Proof.
  assert (H1 : (6 <= 6)%nat) by lia.
  assert (H2 : etherMans failingLogsSyncer <> []) by discriminate.
  assert (H3 : forall em t,
             In em (etherMans failingLogsSyncer) ->
             exists e,
               FilterLogs em t
                 {| FromBlock := 0; ToBlock := 10;
                    Addresses := []; Topics := [] |}
               = inr e).
  { intros em t [<- | []]. eexists. reflexivity. }
  split; [exact H1|]. split; [exact H2|]. split; [exact H3|].
  destruct (getSequencedLogs_retry_bound 6 {| From := 0; To := 10 |}
              [ {| From := 11; To := 20 |} ] failingLogsSyncer H1 H2 H3)
    as [e1 [e2 [e3 [e4 [e5 [e6 [s' [Hrun [Htrace _]]]]]]]]].
  exists e1, e2, e3, e4, e5, e6, s'. split; [exact Hrun | exact Htrace].
Defined.

(** * Further properties of the code *)

(** ** The rotator *)

(** One call of the rotator on a cursor within [0, n], [n] endpoints,
    [n <= 255]: the endpoint at the cursor (at 0 when the cursor is [n]),
    and the cursor moved one past it. *)
Lemma getNextEtherman_step s :
  (0 < List.length (etherMans s) <= 255)%nat ->
  0 <= ethermanIndex s <= Z.of_nat (List.length (etherMans s)) ->
  exists em s',
    getNextEtherman s = Ok em s'
    /\ nth_error (etherMans s)
         (Z.to_nat (ethermanIndex s) mod List.length (etherMans s))
       = Some em
    /\ s' = set_ethermanIndex
              (Z.of_nat (Z.to_nat (ethermanIndex s)
                         mod List.length (etherMans s)) + 1) s.
Proof.
  intros Hn Hidx. unfold getNextEtherman.
  set (n := List.length (etherMans s)) in *.
  assert (Hu8 : uint8 (Z.of_nat n) = Z.of_nat n).
  { unfold uint8. apply Z.mod_small. change (2 ^ 8) with 256. lia. }
  rewrite Hu8.
  destruct (Z.geb_spec (ethermanIndex s) (Z.of_nat n)) as [Hge | Hlt].
  - assert (Heq : Z.to_nat (ethermanIndex s) = n) by lia.
    rewrite Heq, Nat.Div0.mod_same. cbn [Z.to_nat].
    destruct (nth_error (etherMans s) 0) as [em|] eqn:Hnth.
    + exists em. eexists. repeat split.
    + apply nth_error_None in Hnth. fold n in Hnth. lia.
  - rewrite Nat.mod_small by lia.
    destruct (nth_error (etherMans s) (Z.to_nat (ethermanIndex s)))
      as [em|] eqn:Hnth.
    + exists em. eexists. split; [reflexivity|]. split; [reflexivity|].
      rewrite Z2Nat.id by lia. unfold uint8.
      rewrite Z.mod_small by (change (2 ^ 8) with 256; lia). reflexivity.
    + apply nth_error_None in Hnth. fold n in Hnth. lia.
Qed.

(** X1. Round robin.  With [n] endpoints, [1 <= n <= 255], and the cursor
    within [0, n], any number [k] of calls in a row succeed, and the
    [i]-th of them returns the endpoint at position [(cursor + i) mod n];
    afterwards the cursor is again within [1, n]. *)
Theorem getNextEtherman_round_robin :
  forall k s,
    (0 < List.length (etherMans s) <= 255)%nat ->
    0 <= ethermanIndex s <= Z.of_nat (List.length (etherMans s)) ->
    exists ems s',
      getNextEthermans k s = Ok ems s'
      /\ List.length ems = k
      /\ (forall i, (i < k)%nat ->
                    nth_error ems i
                    = nth_error (etherMans s)
                        ((Z.to_nat (ethermanIndex s) + i)
                         mod List.length (etherMans s)))
      /\ etherMans s' = etherMans s
      /\ (k <> 0%nat ->
          1 <= ethermanIndex s' <= Z.of_nat (List.length (etherMans s))).
Proof.
  induction k as [|k IH]; intros s Hn Hidx.
  - exists [], s. repeat split; try reflexivity; intros; lia.
  - cbn [getNextEthermans]. unfold bind at 1.
    destruct (getNextEtherman_step s Hn Hidx) as [em [s1 [Hem [Hnth ->]]]].
    rewrite Hem. unfold bind at 1.
    set (n := List.length (etherMans s)) in *.
    set (c := (Z.to_nat (ethermanIndex s) mod n)%nat) in *.
    assert (Hc : (c < n)%nat) by (apply Nat.mod_upper_bound; lia).
    destruct (IH (set_ethermanIndex (Z.of_nat c + 1) s))
      as [ems [s' [Hrest [Hlen [Hnths [Hems Hcur]]]]]];
      [exact Hn | cbn; fold n; lia |].
    rewrite Hrest. exists (em :: ems), s'. unfold ret.
    split; [reflexivity|]. split; [simpl; congruence|].
    split; [|split; [exact Hems|]].
    + intros [|i] Hi.
      * cbn [nth_error]. rewrite Nat.add_0_r. symmetry. exact Hnth.
      * cbn [nth_error]. rewrite Hnths by lia.
        cbn [etherMans ethermanIndex set_ethermanIndex]. fold n. f_equal.
        replace (Z.to_nat (Z.of_nat c + 1)) with (c + 1)%nat by lia.
        replace (c + 1 + i)%nat with (c + S i)%nat by lia.
        unfold c. apply Nat.Div0.add_mod_idemp_l.
    + intros _. destruct k as [|k].
      * cbn in Hrest. injection Hrest as _ <-. cbn. fold n. lia.
      * cbn in Hcur. fold n in Hcur. apply Hcur. discriminate.
Qed.

Lemma getNextEtherman_round_robin_witness :
  (0 < List.length (etherMans threeSyncer) <= 255)%nat
  /\ 0 <= ethermanIndex threeSyncer
       <= Z.of_nat (List.length (etherMans threeSyncer))
  /\ exists ems s',
      getNextEthermans 5 threeSyncer = Ok ems s'
      /\ List.length ems = 5%nat
      /\ nth_error ems 4 = nth_error (etherMans threeSyncer) 1.
Proof.
  assert (H1 : (0 < List.length (etherMans threeSyncer) <= 255)%nat)
    by (simpl; lia).
  assert (H2 : 0 <= ethermanIndex threeSyncer
               <= Z.of_nat (List.length (etherMans threeSyncer)))
    by (simpl; lia).
  split; [exact H1|]. split; [exact H2|].
  destruct (getNextEtherman_round_robin 5 threeSyncer H1 H2)
    as [ems [s' [Hrun [Hlen [Hnth _]]]]].
  exists ems, s'. split; [exact Hrun|]. split; [exact Hlen|].
  exact (Hnth 4%nat ltac:(lia)).
Defined.

(** X2. The cursor and the number of endpoints are compared as [uint8]:
    the rotator only ever returns an endpoint at a position below
    [max 1 (n mod 256)], [n] being the number of endpoints.  With exactly
    256 endpoints every call returns the first one and leaves the cursor
    at 1. *)
Theorem getNextEtherman_uint8_reach :
  (forall s em s',
      0 <= ethermanIndex s ->
      getNextEtherman s = Ok em s' ->
      exists i,
        nth_error (etherMans s) i = Some em
        /\ Z.of_nat i
           < Z.max 1 (uint8 (Z.of_nat (List.length (etherMans s))))
        /\ ethermanIndex s' = uint8 (Z.of_nat i + 1))
  /\ (forall s,
         List.length (etherMans s) = 256%nat ->
         0 <= ethermanIndex s ->
         exists em,
           nth_error (etherMans s) 0 = Some em
           /\ getNextEtherman s = Ok em (set_ethermanIndex 1 s)).
Proof.
  split.
  - intros s em s' Hidx. unfold getNextEtherman.
    destruct (Z.geb_spec (ethermanIndex s)
                (uint8 (Z.of_nat (List.length (etherMans s)))))
      as [Hge | Hlt].
    + destruct (nth_error (etherMans s) (Z.to_nat 0)) as [e|] eqn:Hnth;
        [|discriminate].
      intros H; injection H as <- <-. exists 0%nat.
      split; [exact Hnth|]. split; [lia | reflexivity].
    + destruct (nth_error (etherMans s) (Z.to_nat (ethermanIndex s)))
        as [e|] eqn:Hnth; [|discriminate].
      intros H; injection H as <- <-. exists (Z.to_nat (ethermanIndex s)).
      split; [exact Hnth|]. rewrite Z2Nat.id by lia.
      split; [lia | reflexivity].
  - intros s Hlen Hidx. unfold getNextEtherman. rewrite Hlen.
    change (uint8 (Z.of_nat 256)) with 0.
    replace (ethermanIndex s >=? 0) with true
      by (symmetry; apply Z.geb_le; lia).
    destruct (etherMans s) as [|em rest]; [discriminate Hlen|].
    exists em. split; reflexivity.
Qed.

Lemma getNextEtherman_uint8_reach_witness :
  List.length (etherMans crowdedSyncer) = 256%nat
  /\ 0 <= ethermanIndex (set_ethermanIndex 1 crowdedSyncer)
  /\ getNextEtherman (set_ethermanIndex 1 crowdedSyncer)
     = Ok (chainStub (fun _ => 1)) (set_ethermanIndex 1 crowdedSyncer).
Proof.
  assert (H1 : List.length (etherMans (set_ethermanIndex 1 crowdedSyncer))
               = 256%nat) by reflexivity.
  assert (H2 : 0 <= ethermanIndex (set_ethermanIndex 1 crowdedSyncer))
    by (simpl; lia).
  split; [exact H1|]. split; [exact H2|].
  destruct (proj2 getNextEtherman_uint8_reach _ H1 H2) as [em [Hnth Hrun]].
  injection Hnth as <-. exact Hrun.
Defined.

(** X3. The rotator panics exactly when there is no endpoint. *)
Theorem getNextEtherman_panics_iff_empty :
  forall s, getNextEtherman s = Panic <-> etherMans s = [].
Proof.
  intros s. split.
  - intros Hp. destruct (etherMans s) as [|em rest] eqn:Hems; [reflexivity|].
    destruct (getNextEtherman_total s) as [em' [s' H]]; congruence.
  - intros Hems. unfold getNextEtherman. rewrite Hems.
    destruct (Z.to_nat _); reflexivity.
Qed.

(** ** The call data *)

Lemma string_length_append (a b : string) :
  String.length (a ++ b)%string = (String.length a + String.length b)%nat.
Proof. induction a as [|c a IH]; simpl; [reflexivity | now rewrite IH]. Qed.

Lemma string_append_assoc (a b c : string) :
  ((a ++ b) ++ c = a ++ (b ++ c))%string.
Proof. induction a as [|x a IH]; simpl; [reflexivity | now rewrite IH]. Qed.

Lemma unhex_hexdigit d : 0 <= d < 16 -> unhex (hexdigit d) = Some d.
Proof.
  intros H.
  assert (Hd : d = 0 \/ d = 1 \/ d = 2 \/ d = 3 \/ d = 4 \/ d = 5 \/ d = 6
               \/ d = 7 \/ d = 8 \/ d = 9 \/ d = 10 \/ d = 11 \/ d = 12
               \/ d = 13 \/ d = 14 \/ d = 15) by lia.
  repeat (destruct Hd as [-> | Hd]; [reflexivity|]). subst d. reflexivity.
Qed.

Lemma unhex_range c d : unhex c = Some d -> 0 <= d < 16.
Proof.
  unfold unhex. set (n := Z.of_N (N_of_ascii c)).
  destruct ((48 <=? n) && (n <=? 57)) eqn:E1;
    [|destruct ((97 <=? n) && (n <=? 102)) eqn:E2;
      [|destruct ((65 <=? n) && (n <=? 70)) eqn:E3; [|discriminate]]];
    intros H; injection H as <-;
    match goal with
    | E : _ && _ = true |- _ =>
        apply andb_true_iff in E as [A B]; apply Z.leb_le in A, B; lia
    end.
Qed.

Lemma hexval_from_app acc a b :
  hexval_from acc (a ++ b) = hexval_from (hexval_from acc a) b.
Proof.
  revert acc. induction a as [|c a IH]; intros acc; simpl;
    [reflexivity | apply IH].
Qed.

Lemma allhex_app a b : allhex (a ++ b) = allhex a && allhex b.
Proof.
  induction a as [|c a IH]; simpl; [reflexivity|].
  destruct (unhex c); [exact IH | reflexivity].
Qed.

(** The digits [hex_digits] puts in front of [acc] are at most [fuel] in
    number and stand for [n]. *)
Lemma hex_digits_spec fuel n acc :
  (0 < fuel)%nat -> 0 <= n < 16 ^ Z.of_nat fuel ->
  exists ds,
    hex_digits fuel n acc = (ds ++ acc)%string
    /\ (String.length ds <= fuel)%nat
    /\ allhex ds = true
    /\ hexval ds = n.
Proof.
  revert n acc. induction fuel as [|fuel IH]; intros n acc Hf Hn; [lia|].
  cbn [hex_digits].
  assert (Hmod : 0 <= n mod 16 < 16) by (apply Z.mod_pos_bound; lia).
  destruct (Z.eqb_spec (n / 16) 0) as [Hz | Hnz].
  - exists (String (hexdigit (n mod 16)) EmptyString).
    split; [reflexivity|]. split; [simpl; lia|].
    unfold hexval. simpl. unfold hexdigit_value.
    rewrite (unhex_hexdigit _ Hmod). split; [reflexivity|].
    pose proof (Z.div_mod n 16 ltac:(lia)). lia.
  - assert (Hdiv : 0 <= n / 16) by (apply Z.div_pos; lia).
    destruct fuel as [|fuel'].
    { exfalso. change (16 ^ Z.of_nat 1) with 16 in Hn.
      rewrite Z.div_small in Hnz by lia. congruence. }
    destruct (IH (n / 16) (String (hexdigit (n mod 16)) acc))
      as [ds [Hds [Hlen [Hall Hval]]]]; [lia | |].
    { split; [exact Hdiv|]. apply Z.div_lt_upper_bound; [lia|].
      replace (16 ^ Z.of_nat (S (S fuel')))
        with (16 * 16 ^ Z.of_nat (S fuel')) in Hn; [lia|].
      rewrite (Nat2Z.inj_succ (S fuel')), Z.pow_succ_r by lia. reflexivity. }
    exists (ds ++ String (hexdigit (n mod 16)) EmptyString)%string.
    split; [rewrite Hds, string_append_assoc; reflexivity|].
    split; [rewrite string_length_append; simpl; lia|].
    split.
    + rewrite allhex_app, Hall. simpl.
      now rewrite (unhex_hexdigit _ Hmod).
    + unfold hexval in *. rewrite hexval_from_app, Hval. simpl.
      unfold hexdigit_value. rewrite (unhex_hexdigit _ Hmod).
      pose proof (Z.div_mod n 16 ltac:(lia)). lia.
Qed.

Lemma zeros_spec k s :
  String.length (zeros k ++ s)%string = (k + String.length s)%nat
  /\ allhex (zeros k ++ s) = allhex s
  /\ hexval (zeros k ++ s) = hexval s.
Proof.
  unfold hexval. induction k as [|k [IH1 [IH2 IH3]]]; simpl;
    [repeat split|].
  split; [now rewrite IH1|]. split; [exact IH2 | exact IH3].
Qed.

(** What [fmt.Sprintf("%064x", n)] gives for a [uint64]: 64 hexadecimal
    digits that stand for [n]. *)
Lemma Sprintf_064x_spec n :
  is_uint64 n ->
  String.length (Sprintf_064x n) = 64%nat
  /\ allhex (Sprintf_064x n) = true
  /\ hexval (Sprintf_064x n) = n.
Proof.
  intros Hn. unfold Sprintf_064x.
  destruct (hex_digits_spec 16 n EmptyString ltac:(lia))
    as [ds [Hds [Hlen [Hall Hval]]]].
  { unfold is_uint64 in Hn. change (16 ^ Z.of_nat 16) with (2 ^ 64). lia. }
  rewrite Hds.
  assert (Hnil : (ds ++ "")%string = ds).
  { clear. induction ds as [|c ds IH]; simpl; [reflexivity | now rewrite IH]. }
  rewrite Hnil.
  destruct (zeros_spec (64 - String.length ds) ds) as [H1 [H2 H3]].
  rewrite H1, H2, H3. repeat split; [lia | exact Hall | exact Hval].
Qed.

Lemma Z_of_byte_of_Z z : 0 <= z < 256 -> Z_of_byte (byte_of_Z z) = z.
Proof.
  intros Hz. unfold Z_of_byte, byte_of_Z. rewrite Z.mod_small by lia.
  destruct (Byte.of_N (Z.to_N z)) as [b|] eqn:Hb.
  - apply Byte.to_of_N in Hb. rewrite Hb. lia.
  - apply Byte.of_N_None_iff in Hb. lia.
Qed.

Lemma Z_of_byte_range b : 0 <= Z_of_byte b < 256.
Proof.
  unfold Z_of_byte. pose proof (Byte.to_N_bounded b). lia.
Qed.

(** Decoding an even number of hexadecimal digits: one byte for two
    digits, the same number, and nothing lost of what follows. *)
Lemma Hex2Bytes_spec m s t acc :
  String.length s = (2 * m)%nat -> allhex s = true ->
  Hex2Bytes (s ++ t) = Hex2Bytes s ++ Hex2Bytes t
  /\ List.length (Hex2Bytes s) = m
  /\ fold_left (fun a x => a * 256 + Z_of_byte x) (Hex2Bytes s) acc
     = hexval_from acc s.
Proof.
  revert s acc. induction m as [|m IH]; intros s acc Hlen Hall.
  - destruct s; [|discriminate]. repeat split.
  - destruct s as [|a [|b rest]]; [simpl in Hlen; lia ..|].
    simpl in Hall. cbn [Hex2Bytes String.append hexval_from].
    unfold hexdigit_value.
    destruct (unhex a) as [hi|] eqn:Ha; [|discriminate].
    destruct (unhex b) as [lo|] eqn:Hb; [|discriminate].
    apply unhex_range in Ha, Hb.
    destruct (IH rest (acc * 16 * 16 + hi * 16 + lo)) as [H1 [H2 H3]];
      [simpl in Hlen; lia | exact Hall |].
    rewrite H1. split; [reflexivity|]. split; [simpl; now rewrite H2|].
    cbn [fold_left]. rewrite Z_of_byte_of_Z by lia.
    replace (acc * 256 + (hi * 16 + lo))
      with (acc * 16 * 16 + hi * 16 + lo) by lia.
    rewrite H3. f_equal. lia.
Qed.

Lemma BigEndian_value_app l1 l2 :
  BigEndian_value (l1 ++ l2)
  = BigEndian_value l1 * 256 ^ Z.of_nat (List.length l2)
    + BigEndian_value l2.
Proof.
  unfold BigEndian_value. rewrite fold_left_app.
  generalize (fold_left (fun acc x => acc * 256 + Z_of_byte x) l1 0).
  induction l2 as [|x l2 IH] using rev_ind; intros v.
  - simpl. lia.
  - rewrite !fold_left_app, length_app. cbn [fold_left List.length].
    rewrite IH. rewrite (IH 0).
    replace (Z.of_nat (List.length l2 + 1)) with (Z.succ (Z.of_nat (List.length l2)))
      by lia.
    rewrite Z.pow_succ_r by lia. lia.
Qed.

Lemma BigEndian_value_range l :
  0 <= BigEndian_value l < 256 ^ Z.of_nat (List.length l).
Proof.
  induction l as [|x l IH] using rev_ind.
  - unfold BigEndian_value. simpl. lia.
  - rewrite BigEndian_value_app, length_app. cbn [List.length].
    replace (Z.of_nat (List.length l + 1)) with (Z.succ (Z.of_nat (List.length l)))
      by lia.
    rewrite Z.pow_succ_r by lia.
    assert (Hx : BigEndian_value [x] = Z_of_byte x) by reflexivity.
    rewrite Hx. pose proof (Z_of_byte_range x).
    change (256 ^ Z.of_nat 1) with 256. nia.
Qed.

Lemma FromHex_signature h1 h2 :
  String.length h1 = 64%nat -> String.length h2 = 64%nat ->
  FromHex (rollupSequencedBatchesSignature ++ h1 ++ h2)
  = [x25; x28; x01; x69] ++ Hex2Bytes (h1 ++ h2).
Proof.
  intros L1 L2. unfold FromHex, rollupSequencedBatchesSignature.
  cbn [String.append]. cbv iota.
  cbn [String.length]. rewrite string_length_append, L1, L2.
  change (Nat.odd (S (S (S (S (S (S (S (S (64 + 64)))))))))) with false.
  cbv iota. reflexivity.
Qed.

(** X4. The call data of [callGetRollupSequencedBatches], for a roll-up
    and a batch number in the [uint64] range: 68 bytes, the selector
    25 28 01 69, then the roll-up and the batch number as two 32 byte
    big-endian words; so the last eight bytes alone hold the batch
    number. *)
Theorem callData_layout :
  forall rollupId batchNum,
    is_uint64 rollupId -> is_uint64 batchNum ->
    List.length (callData rollupId batchNum) = 68%nat
    /\ firstn 4 (callData rollupId batchNum) = [x25; x28; x01; x69]
    /\ BigEndian_value (slice 4 36 (callData rollupId batchNum)) = rollupId
    /\ BigEndian_value (slice 36 68 (callData rollupId batchNum)) = batchNum
    /\ BigEndian_Uint64 (slice 60 68 (callData rollupId batchNum)) = batchNum.
Proof.
  intros r b Hr Hb. unfold callData.
  destruct (Sprintf_064x_spec r Hr) as [L1 [A1 V1]].
  destruct (Sprintf_064x_spec b Hb) as [L2 [A2 V2]].
  rewrite (FromHex_signature _ _ L1 L2).
  destruct (Hex2Bytes_spec 32 (Sprintf_064x r) (Sprintf_064x b) 0 L1 A1)
    as [Happ [Hl1 Hv1]].
  destruct (Hex2Bytes_spec 32 (Sprintf_064x b) EmptyString 0 L2 A2)
    as [_ [Hl2 Hv2]].
  rewrite Happ.
  set (B1 := Hex2Bytes (Sprintf_064x r)) in *.
  set (B2 := Hex2Bytes (Sprintf_064x b)) in *.
  fold (BigEndian_value B1) in Hv1. fold (hexval (Sprintf_064x r)) in Hv1.
  fold (BigEndian_value B2) in Hv2. fold (hexval (Sprintf_064x b)) in Hv2.
  rewrite V1 in Hv1. rewrite V2 in Hv2.
  assert (S1 : slice 4 36 ([x25; x28; x01; x69] ++ B1 ++ B2) = B1).
  { unfold slice. cbn [skipn app Nat.sub].
    rewrite firstn_app, Hl1, Nat.sub_diag, firstn_O, app_nil_r.
    apply firstn_all2. lia. }
  assert (S2 : slice 36 68 ([x25; x28; x01; x69] ++ B1 ++ B2) = B2).
  { unfold slice. rewrite app_assoc, skipn_app.
    rewrite skipn_all2 by (rewrite length_app; simpl; lia).
    rewrite length_app, Hl1. cbn [app List.length Nat.add Nat.sub skipn].
    apply firstn_all2. lia. }
  assert (S3 : slice 60 68 ([x25; x28; x01; x69] ++ B1 ++ B2) = skipn 24 B2).
  { unfold slice. rewrite app_assoc, skipn_app.
    rewrite skipn_all2 by (rewrite length_app; simpl; lia).
    rewrite length_app, Hl1. cbn [app List.length Nat.add Nat.sub].
    apply firstn_all2. rewrite length_skipn. lia. }
  split; [rewrite !length_app, Hl1, Hl2; reflexivity|].
  split; [reflexivity|]. split; [now rewrite S1|]. split; [now rewrite S2|].
  rewrite S3. unfold BigEndian_Uint64.
  rewrite firstn_all2 by (rewrite length_skipn; lia).
  fold (BigEndian_value (skipn 24 B2)).
  pose proof (BigEndian_value_app (firstn 24 B2) (skipn 24 B2)) as Hsplit.
  rewrite firstn_skipn, Hv2, length_skipn, Hl2 in Hsplit.
  pose proof (BigEndian_value_range (skipn 24 B2)) as Hlo.
  rewrite length_skipn, Hl2 in Hlo.
  pose proof (BigEndian_value_range (firstn 24 B2)) as Hhi.
  change (Z.of_nat (32 - 24)) with 8 in *.
  change (256 ^ 8) with (2 ^ 64) in *.
  unfold is_uint64 in Hb. nia.
Qed.

Lemma callData_layout_witness :
  is_uint64 1
  /\ is_uint64 258
  /\ List.length (callData 1 258) = 68%nat
  /\ BigEndian_value (slice 36 68 (callData 1 258)) = 258.
Proof.
  assert (H1 : is_uint64 1) by (unfold is_uint64; lia).
  assert (H2 : is_uint64 258) by (unfold is_uint64; lia).
  split; [exact H1|]. split; [exact H2|].
  destruct (callData_layout 1 258 H1 H2) as [Hlen [_ [_ [Hb _]]]].
  split; [exact Hlen | exact Hb].
Defined.

(** ** Decoding the answer *)

Lemma BytesToHash_length b : List.length (BytesToHash b) = 32%nat.
Proof.
  unfold BytesToHash, HashLength.
  rewrite length_app, repeat_length, !length_skipn. lia.
Qed.

Lemma BytesToHash_32 b : List.length b = 32%nat -> BytesToHash b = b.
Proof.
  intros H. unfold BytesToHash, HashLength. rewrite H.
  cbn [Nat.sub skipn]. rewrite H. reflexivity.
Qed.

Lemma BigEndian_Uint64_range b : is_uint64 (BigEndian_Uint64 b).
Proof.
  unfold is_uint64, BigEndian_Uint64.
  fold (BigEndian_value (firstn 8 b)).
  pose proof (BigEndian_value_range (firstn 8 b)) as H.
  assert (Hl : (List.length (firstn 8 b) <= 8)%nat)
    by (rewrite length_firstn; lia).
  assert (256 ^ Z.of_nat (List.length (firstn 8 b)) <= 256 ^ 8)
    by (apply Z.pow_le_mono_r; lia).
  change (256 ^ 8) with (2 ^ 64) in *. lia.
Qed.

(** X5. What [callGetRollupSequencedBatches] hands back is well formed: a
    hash of 32 bytes and a previous batch number in the [uint64] range,
    and with an error always the zero hash and 0.  An answer of at least
    96 bytes is decoded without error, whatever follows the 96 bytes: the
    hash is the first 32 bytes, the previous batch number the bytes 88 to
    95, big end first. *)
Theorem callGetRollupSequencedBatches_decodes :
  (forall addr rollupId batchNum s h previousBatch err s',
      callGetRollupSequencedBatches addr rollupId batchNum s
      = Ok (h, previousBatch, err) s' ->
      List.length h = 32%nat
      /\ is_uint64 previousBatch
      /\ (err <> None -> h = Hash_zero /\ previousBatch = 0))
  /\ (forall addr rollupId batchNum s em s1 resp,
         getNextEtherman s = Ok em s1 ->
         CallContract em (now s1) (callMsg addr rollupId batchNum) None
         = inl resp ->
         (96 <= List.length resp)%nat ->
         callGetRollupSequencedBatches addr rollupId batchNum s
         = Ok (firstn 32 resp,
               BigEndian_value (firstn 8 (skipn 88 resp)), None)
              (record (EvCallContract (callMsg addr rollupId batchNum)) s1)).
Proof.
  split.
  - intros addr r b s h p err s'.
    rewrite callGetRollupSequencedBatches_unfold.
    destruct (getNextEtherman s) as [em s1|]; [|discriminate]. cbv zeta.
    assert (Hz : List.length Hash_zero = 32%nat /\ is_uint64 0).
    { split; [reflexivity | unfold is_uint64; lia]. }
    destruct (CallContract _ _ _ _) as [resp|e].
    + destruct (_ <? 32)%nat; [|destruct (_ <? 96)%nat];
        intros H; injection H as <- <- <- _.
      * split; [apply Hz|]. split; [apply Hz | auto].
      * split; [apply Hz|]. split; [apply Hz | auto].
      * split; [apply BytesToHash_length|].
        split; [apply BigEndian_Uint64_range | congruence].
    + intros H; injection H as <- <- <- _.
      split; [apply Hz|]. split; [apply Hz | auto].
  - intros addr r b s em s1 resp Hem Hresp Hlen.
    rewrite callGetRollupSequencedBatches_unfold, Hem. cbv zeta.
    rewrite Hresp.
    replace (List.length resp <? 32)%nat with false
      by (symmetry; apply Nat.ltb_ge; lia).
    replace (List.length resp <? 96)%nat with false
      by (symmetry; apply Nat.ltb_ge; lia).
    rewrite BytesToHash_32 by (rewrite length_firstn; lia).
    unfold BigEndian_Uint64, slice, BigEndian_value.
    change (96 - 88)%nat with 8%nat.
    rewrite (firstn_all2 (n := 8) (firstn 8 (skipn 88 resp)))
      by (rewrite length_firstn; lia).
    reflexivity.
Qed.

Lemma callGetRollupSequencedBatches_decodes_witness :
  callGetRollupSequencedBatches [] 1 7 (stubSyncer pointerStub)
  = Ok (ZeroHash, 5, None)
       (record (EvCallContract (callMsg [] 1 7))
          (set_ethermanIndex 1 (stubSyncer pointerStub)))
  /\ List.length ZeroHash = 32%nat
  /\ is_uint64 5.
Proof.
  assert (H : callGetRollupSequencedBatches [] 1 7 (stubSyncer pointerStub)
              = Ok (ZeroHash, 5, None)
                   (record (EvCallContract (callMsg [] 1 7))
                      (set_ethermanIndex 1 (stubSyncer pointerStub))))
    by (vm_compute; reflexivity).
  split; [exact H|].
  destruct (proj1 callGetRollupSequencedBatches_decodes _ _ _ _ _ _ _ _ H)
    as [Hlen [Hp _]].
  split; [exact Hlen | exact Hp].
Defined.

(** ** More on the backward resolver *)

(** The call moves the cursor and appends its one event; it touches
    nothing else of the syncer. *)
Lemma callGetRollupSequencedBatches_touched addr rollupId batchNum s r s' :
  callGetRollupSequencedBatches addr rollupId batchNum s = Ok r s' ->
  exists i,
    s' = touched i (trace s ++ [EvCallContract (callMsg addr rollupId batchNum)])
           s.
Proof.
  rewrite callGetRollupSequencedBatches_unfold.
  destruct (getNextEtherman s) as [em s1|] eqn:Hem; [|discriminate].
  apply getNextEtherman_Ok in Hem as [_ [i ->]]. cbv zeta.
  destruct (CallContract _ _ _ _) as [resp|err].
  - destruct (_ <? 32)%nat; [|destruct (_ <? 96)%nat];
      intros H; injection H as _ <-; exists i; reflexivity.
  - intros H; injection H as _ <-; exists i; reflexivity.
Qed.

Lemma touched_touched i t j u s :
  touched j u (touched i t s) = touched j u s.
Proof. reflexivity. Qed.

Lemma sleeps_app t u : sleeps (t ++ u) = sleeps t ++ sleeps u.
Proof. unfold sleeps. apply flat_map_app. Qed.

Lemma total_of_app a b : total_of (a ++ b) = total_of a + total_of b.
Proof.
  unfold total_of. induction a as [|x a IH]; simpl; [reflexivity | lia].
Qed.

(** What one pass of the loop does to the syncer, and the sleep it may
    add. *)
Lemma GetOldAccInputHash_body_effect addr rollupId lc b s it s' :
  0 <= lc <= 10 ->
  GetOldAccInputHash_body addr rollupId lc b s = Ok it s' ->
  exists i evs,
    s' = touched i (trace s ++ evs) s
    /\ forallb is_call_or_sleep evs = true
    /\ match it with
       | Return _ _ => sleeps evs = []
       | Again lc' _ =>
           (lc' = lc /\ sleeps evs = [])
           \/ (lc' = lc + 1 /\ lc < 10
               /\ (sleeps evs = [] \/ sleeps evs = [lc * 2 * Second]))
       end.
Proof.
  intros Hlc. rewrite GetOldAccInputHash_body_unfold.
  destruct (Z.eqb_spec lc 10) as [H10 | H10].
  { intros H; injection H as <- <-. exists (ethermanIndex s), [].
    split; [destruct s; unfold touched; cbn; now rewrite app_nil_r|].
    split; reflexivity. }
  assert (Hnext : int64 (lc + 1) = lc + 1) by (apply int64_small; lia).
  assert (Hdur : int64 (int64 (int64 (lc * 2)) * Second) = lc * 2 * Second).
  { rewrite !(int64_small (lc * 2)) by lia.
    apply int64_small. unfold Second. lia. }
  destruct (callGetRollupSequencedBatches _ _ _ _) as [[[h p] e] s1|] eqn:Hc;
    [|discriminate].
  apply callGetRollupSequencedBatches_touched in Hc as [i ->].
  set (ev := EvCallContract (callMsg addr rollupId b)).
  destruct e as [e|].
  - destruct (_ && _); intros H; injection H as <- <-.
    + exists i, [ev]. split; [reflexivity|].  split; [reflexivity|]. left. split; reflexivity.
    + exists i, [ev; EvSleep (lc * 2 * Second)].
      split; [rewrite Hdur; unfold Sleep, record, touched; cbn;
              now rewrite <- app_assoc|].
      split; [reflexivity|].
      right. rewrite Hnext. split; [reflexivity|]. split; [lia|].
      right. reflexivity.
  - destruct (negb _); [|destruct (_ && _)]; intros H; injection H as <- <-.
    + exists i, [ev]. split; [reflexivity|].  split; reflexivity.
    + exists i, [ev]. split; [reflexivity|].  split; [reflexivity|]. left. split; reflexivity.
    + exists i, [ev]. split; [reflexivity|].  split; [reflexivity|].
      right. rewrite Hnext. split; [reflexivity|]. split; [lia|].
      left. reflexivity.
Qed.

(** The whole loop: the syncer is touched at the cursor and the trace
    only, by calls and sleeps; the sleeps are at most [10 - lc] in number
    and last at most [90 - lc * (lc - 1)] seconds in all. *)
Lemma GetOldAccInputHash_loop_effect fuel addr rollupId lc b s res s' :
  0 <= lc <= 10 ->
  GetOldAccInputHash_loop fuel addr rollupId lc b s = Some (Ok res s') ->
  exists i evs,
    s' = touched i (trace s ++ evs) s
    /\ forallb is_call_or_sleep evs = true
    /\ Forall (fun d => 0 <= d) (sleeps evs)
    /\ Z.of_nat (List.length (sleeps evs)) <= 10 - lc
    /\ total_of (sleeps evs) <= (90 - lc * (lc - 1)) * Second.
Proof.
  revert lc b s. induction fuel as [|fuel IH]; intros lc b s Hlc;
    [discriminate|].
  rewrite GetOldAccInputHash_loop_S.
  destruct (GetOldAccInputHash_body addr rollupId lc b s)
    as [[h e | lc' b'] s1|] eqn:Hbody; [| |discriminate].
  - intros H; injection H as <- <-.
    destruct (GetOldAccInputHash_body_effect _ _ _ _ _ _ _ Hlc Hbody)
      as [i [evs [Hs [Hev Hsl]]]].
    exists i, evs. rewrite Hsl. split; [exact Hs|]. split; [exact Hev|].
    split; [constructor|]. split; [cbn [List.length]; lia|].
    unfold total_of. cbn [fold_right]. unfold Second. nia.
  - intros Hrun.
    destruct (GetOldAccInputHash_body_effect _ _ _ _ _ _ _ Hlc Hbody)
      as [i [evs [Hs [Hev Hsl]]]].
    assert (Hlc' : 0 <= lc' <= 10) by (destruct Hsl as [[? _] | [? [? _]]]; lia).
    destruct (IH _ _ _ Hlc' Hrun)
      as [j [evs' [Hs' [Hev' [Hpos [Hlen Htot]]]]]].
    exists j, (evs ++ evs'). subst s1.
    split; [rewrite Hs'; unfold touched; cbn; now rewrite app_assoc|].
    split; [rewrite forallb_app, Hev, Hev'; reflexivity|].
    rewrite sleeps_app, length_app, total_of_app.
    destruct Hsl as [[-> ->] | [-> [Hlt [-> | ->]]]].
    + split; [exact Hpos|]. cbn [List.length Nat.add app].
      unfold total_of at 1. cbn [fold_right]. split; lia.
    + split; [exact Hpos|]. cbn [List.length Nat.add app].
      unfold total_of at 1. cbn [fold_right]. split; [lia|].
      unfold Second in *. nia.
    + split; [constructor; [unfold Second; lia | exact Hpos]|].
      cbn [List.length Nat.add app].
      unfold total_of at 1. cbn [fold_right]. split; [lia|].
      unfold Second in *. nia.
Qed.

(** X6. However the endpoints answer, a call of [GetOldAccInputHash] that
    returns has slept at most ten times and at most 90 seconds in all. *)
Theorem GetOldAccInputHash_sleep_budget :
  forall fuel addr rollupId batchNum s res s',
    GetOldAccInputHash fuel addr rollupId batchNum s = Some (Ok res s') ->
    exists ds,
      sleeps (trace s') = sleeps (trace s) ++ ds
      /\ Forall (fun d => 0 <= d) ds
      /\ (List.length ds <= 10)%nat
      /\ total_of ds <= 90 * Second.
Proof.
  intros fuel addr rollupId b s res s' Hrun.
  destruct (GetOldAccInputHash_loop_effect _ _ _ 0 _ _ _ _ ltac:(lia) Hrun)
    as [i [evs [-> [_ [Hpos [Hlen Htot]]]]]].
  exists (sleeps evs). cbn [trace touched]. rewrite sleeps_app.
  split; [reflexivity|]. split; [exact Hpos|]. split; [lia|].
  simpl in Htot. exact Htot.
Qed.

Lemma GetOldAccInputHash_sleep_budget_witness :
  exists s' ds,
    GetOldAccInputHash 11 [] 1 0 failingLogsSyncer
    = Some (Ok (Hash_zero, Some tooManyRetries) s')
    /\ sleeps (trace s') = sleeps (trace failingLogsSyncer) ++ ds
    /\ total_of ds <= 90 * Second.
Proof.
  eexists.
  assert (H : GetOldAccInputHash 11 [] 1 0 failingLogsSyncer
              = Some (Ok (Hash_zero, Some tooManyRetries) _))
    by (vm_compute; reflexivity).
  destruct (GetOldAccInputHash_sleep_budget _ _ _ _ _ _ _ H)
    as [ds [Hds [_ [_ Htot]]]].
  exists ds. split; [exact H|]. split; [exact Hds | exact Htot].
Defined.

(** X7. [GetOldAccInputHash] only calls contracts and sleeps: when it
    returns, the syncer is the one it started from but for the cursor of
    the rotator and the trace, and the trace has grown by contract calls
    and sleeps alone.  The checkpoint, the latest block, the flags, the
    endpoints and both channels are as before. *)
Theorem GetOldAccInputHash_frame :
  forall fuel addr rollupId batchNum s res s',
    GetOldAccInputHash fuel addr rollupId batchNum s = Some (Ok res s') ->
    exists i evs,
      s' = touched i (trace s ++ evs) s
      /\ forallb is_call_or_sleep evs = true.
Proof.
  intros fuel addr rollupId b s res s' Hrun.
  destruct (GetOldAccInputHash_loop_effect _ _ _ 0 _ _ _ _ ltac:(lia) Hrun)
    as [i [evs [Hs [Hev _]]]].
  exists i, evs. split; assumption.
Qed.

Lemma GetOldAccInputHash_frame_witness :
  exists s' i evs,
    GetOldAccInputHash 6 [] 1 5 (stubSyncer walkBackStub)
    = Some (Ok (repeat x07 32, None) s')
    /\ s' = touched i (trace (stubSyncer walkBackStub) ++ evs)
              (stubSyncer walkBackStub)
    /\ forallb is_call_or_sleep evs = true.
Proof.
  eexists.
  assert (H : GetOldAccInputHash 6 [] 1 5 (stubSyncer walkBackStub)
              = Some (Ok (repeat x07 32, None) _))
    by (vm_compute; reflexivity).
  destruct (GetOldAccInputHash_frame _ _ _ _ _ _ _ H) as [i [evs [Hs Hev]]].
  exists i, evs. split; [exact H|]. split; [exact Hs | exact Hev].
Defined.

Section ResolverFailing.

(** Every endpoint of [ems] answers the call for [batchNum] by what the
    resolver counts as a failed attempt. *)
Variable addr : Address.
Variables rollupId batchNum : Z.
Variable ems : list IEtherman.
Hypothesis Hne : ems <> [].
Hypothesis Hfail :
  forall em t,
    In em ems ->
    counted_failure batchNum
      (CallContract em t (callMsg addr rollupId batchNum) None).

Lemma GetOldAccInputHash_body_counted lc s :
  0 <= lc < 10 ->
  etherMans s = ems ->
  exists s1,
    GetOldAccInputHash_body addr rollupId lc batchNum s
    = Ok (Again (lc + 1) batchNum) s1
    /\ etherMans s1 = ems
    /\ trace s1 = trace s ++ [EvCallContract (callMsg addr rollupId batchNum);
                              EvSleep (lc * 2 * Second)].
Proof.
  intros Hlc Hems. rewrite GetOldAccInputHash_body_unfold.
  replace (lc =? 10) with false by (symmetry; apply Z.eqb_neq; lia).
  rewrite callGetRollupSequencedBatches_unfold.
  assert (Hne' : etherMans s <> []) by (rewrite Hems; exact Hne).
  destruct (getNextEtherman_total s Hne') as [em [s0 Hem]]. rewrite Hem.
  apply getNextEtherman_Ok in Hem as [Hin [i ->]]. rewrite Hems in Hin.
  cbv zeta. specialize (Hfail em (now (set_ethermanIndex i s)) Hin).
  rewrite (int64_small (lc + 1)) by lia.
  rewrite !(int64_small (lc * 2)) by lia.
  rewrite (int64_small (lc * 2 * Second)) by (unfold Second; lia).
  destruct (CallContract em _ _ _) as [resp|e]; cbn [counted_failure] in Hfail.
  - destruct Hfail as [Hlen Hb].
    replace (batchNum >? 0) with false
      by (symmetry; rewrite Z.gtb_ltb; apply Z.ltb_ge; lia).
    apply Nat.ltb_lt in Hlen.
    destruct (List.length resp <? 32)%nat; [|rewrite Hlen]; cbn [andb];
      eexists; (split; [reflexivity|]); (split; [exact Hems|]);
      cbn; now rewrite <- app_assoc.
  - assert (Hc : (batchNum >? 0) && is_short_response e = false).
    { destruct Hfail as [Hb | He].
      - replace (batchNum >? 0) with false; [reflexivity|].
        symmetry. rewrite Z.gtb_ltb. apply Z.ltb_ge. lia.
      - rewrite He. apply andb_false_r. }
    rewrite Hc. eexists. split; [reflexivity|]. split; [exact Hems|].
    cbn. now rewrite <- app_assoc.
Qed.

(** From attempt [k] on, with [n] attempts left. *)
Lemma GetOldAccInputHash_loop_counted n :
  forall k fuel s,
    (k + n = 10)%nat ->
    etherMans s = ems ->
    exists s',
      GetOldAccInputHash_loop (S n + fuel) addr rollupId
        (Z.of_nat k) batchNum s
      = Some (Ok (Hash_zero, Some tooManyRetries) s')
      /\ trace s'
         = trace s ++ failedAttempts (callMsg addr rollupId batchNum) k n.
Proof.
  induction n as [|n IH]; intros k fuel s Hk Hems.
  - replace k with 10%nat by lia. exists s.
    split; [reflexivity|]. cbn. now rewrite app_nil_r.
  - destruct (GetOldAccInputHash_body_counted (Z.of_nat k) s ltac:(lia) Hems)
      as [s1 [Hbody [Hems1 Ht1]]].
    destruct (IH (S k) fuel s1 ltac:(lia) Hems1) as [s' [Hrun Ht]].
    exists s'. split.
    + change (S (S n) + fuel)%nat with (S (S n + fuel)).
      rewrite GetOldAccInputHash_loop_S, Hbody.
      replace (Z.of_nat k + 1) with (Z.of_nat (S k)) by lia. exact Hrun.
    + rewrite Ht, Ht1, <- app_assoc. reflexivity.
Qed.

End ResolverFailing.

(** X8. When every endpoint fails the call for the batch asked, by an
    error that is not a short-response error (or, at batch 0, by any error
    or by an answer shorter than 96 bytes), [GetOldAccInputHash] calls ten
    times for that same batch, sleeps after each call, for 0, 2, 4, ..., 18
    seconds (the last sleep comes after the last call too), and returns the
    zero hash with the "too many retries" error, 90 seconds of sleep
    later. *)
Theorem GetOldAccInputHash_gives_up :
  forall fuel addr rollupId batchNum s,
    (11 <= fuel)%nat ->
    etherMans s <> [] ->
    (forall em t,
        In em (etherMans s) ->
        counted_failure batchNum
          (CallContract em t (callMsg addr rollupId batchNum) None)) ->
    exists s',
      GetOldAccInputHash fuel addr rollupId batchNum s
      = Some (Ok (Hash_zero, Some tooManyRetries) s')
      /\ trace s'
         = trace s ++ failedAttempts (callMsg addr rollupId batchNum) 0 10
      /\ sleeps (trace s')
         = sleeps (trace s)
           ++ map (fun k => k * 2 * Second) [0; 1; 2; 3; 4; 5; 6; 7; 8; 9]
      /\ total_of (sleeps (trace s'))
         = total_of (sleeps (trace s)) + 90 * Second.
Proof.
  intros fuel addr rollupId b s Hfuel Hne Hfail.
  destruct (GetOldAccInputHash_loop_counted addr rollupId b (etherMans s)
              Hne Hfail 10 0 (fuel - 11) s eq_refl eq_refl) as [s' [Hrun Ht]].
  exists s'. unfold GetOldAccInputHash.
  replace fuel with (11 + (fuel - 11))%nat at 1 by lia.
  split; [exact Hrun|]. split; [exact Ht|].
  assert (Hs : sleeps (trace s')
               = sleeps (trace s)
                 ++ map (fun k => k * 2 * Second)
                      [0; 1; 2; 3; 4; 5; 6; 7; 8; 9]).
  { rewrite Ht, sleeps_app. reflexivity. }
  split; [exact Hs|]. rewrite Hs, total_of_app. reflexivity.
Qed.

Lemma GetOldAccInputHash_gives_up_witness :
  (11 <= 11)%nat
  /\ etherMans failingLogsSyncer <> []
  /\ (forall em t,
         In em (etherMans failingLogsSyncer) ->
         counted_failure 3 (CallContract em t (callMsg [] 1 3) None))
  /\ exists s',
      GetOldAccInputHash 11 [] 1 3 failingLogsSyncer
      = Some (Ok (Hash_zero, Some tooManyRetries) s')
      /\ total_of (sleeps (trace s'))
         = total_of (sleeps (trace failingLogsSyncer)) + 90 * Second.
Proof.
  assert (H1 : (11 <= 11)%nat) by lia.
  assert (H2 : etherMans failingLogsSyncer <> []) by discriminate.
  assert (H3 : forall em t,
             In em (etherMans failingLogsSyncer) ->
             counted_failure 3 (CallContract em t (callMsg [] 1 3) None)).
  { intros em t [<- | []]. right. reflexivity. }
  split; [exact H1|]. split; [exact H2|]. split; [exact H3|].
  destruct (GetOldAccInputHash_gives_up 11 [] 1 3 failingLogsSyncer H1 H2 H3)
    as [s' [Hrun [_ [_ Htot]]]].
  exists s'. split; [exact Hrun | exact Htot].
Defined.

(** An answer of at least 96 bytes is decoded without error. *)
Lemma callGetRollupSequencedBatches_long addr rollupId batchNum s em s1 resp :
  getNextEtherman s = Ok em s1 ->
  CallContract em (now s1) (callMsg addr rollupId batchNum) None = inl resp ->
  (96 <= List.length resp)%nat ->
  callGetRollupSequencedBatches addr rollupId batchNum s
  = Ok (firstn 32 resp, BigEndian_value (firstn 8 (skipn 88 resp)), None)
       (record (EvCallContract (callMsg addr rollupId batchNum)) s1).
Proof.
  intros Hem Hresp Hlen.
  rewrite callGetRollupSequencedBatches_unfold, Hem. cbv zeta.
  rewrite Hresp.
  replace (List.length resp <? 32)%nat with false
    by (symmetry; apply Nat.ltb_ge; lia).
  replace (List.length resp <? 96)%nat with false
    by (symmetry; apply Nat.ltb_ge; lia).
  rewrite BytesToHash_32 by (rewrite length_firstn; lia).
  unfold BigEndian_Uint64, slice, BigEndian_value.
  change (96 - 88)%nat with 8%nat.
  rewrite (firstn_all2 (n := 8) (firstn 8 (skipn 88 resp)))
    by (rewrite length_firstn; lia).
  reflexivity.
Qed.

Section ResolverBlank.

(** Every endpoint of [ems] answers every call with the zero hash and the
    previous batch 0: a roll-up without any sequenced batch. *)
Variable addr : Address.
Variable rollupId : Z.
Variable ems : list IEtherman.
Hypothesis Hne : ems <> [].
Hypothesis Hblank :
  forall em t msg, In em ems -> blank_answer (CallContract em t msg None).

Lemma callGetRollupSequencedBatches_blank b s :
  etherMans s = ems ->
  exists s1,
    callGetRollupSequencedBatches addr rollupId b s
    = Ok (ZeroHash, 0, None) s1
    /\ etherMans s1 = ems
    /\ trace s1 = trace s ++ [EvCallContract (callMsg addr rollupId b)].
Proof.
  intros Hems.
  assert (Hne' : etherMans s <> []) by (rewrite Hems; exact Hne).
  destruct (getNextEtherman_total s Hne') as [em [s0 Hem]].
  pose proof (getNextEtherman_Ok _ _ _ Hem) as [Hin [i Hs0]].
  rewrite Hems in Hin.
  pose proof (Hblank em (now s0) (callMsg addr rollupId b) Hin) as Hb.
  destruct (CallContract em (now s0) (callMsg addr rollupId b) None)
    as [resp|e] eqn:Hresp; [|destruct Hb].
  destruct Hb as [Hlen [Hh Hp]].
  rewrite (callGetRollupSequencedBatches_long _ _ _ _ _ _ _ Hem Hresp Hlen).
  rewrite Hh, Hp. eexists. split; [reflexivity|]. subst s0.
  split; [exact Hems | reflexivity].
Qed.

(** At batch 0 every pass counts as an attempt, without a sleep. *)
Lemma GetOldAccInputHash_loop_blank_zero n :
  forall k fuel s,
    (k + n = 10)%nat ->
    etherMans s = ems ->
    exists s',
      GetOldAccInputHash_loop (S n + fuel) addr rollupId (Z.of_nat k) 0 s
      = Some (Ok (Hash_zero, Some tooManyRetries) s')
      /\ trace s'
         = trace s ++ repeat (EvCallContract (callMsg addr rollupId 0)) n.
Proof.
  induction n as [|n IH]; intros k fuel s Hk Hems.
  - replace k with 10%nat by lia. exists s.
    split; [reflexivity|]. cbn. now rewrite app_nil_r.
  - destruct (callGetRollupSequencedBatches_blank 0 s Hems)
      as [s1 [Hcall [Hems1 Ht1]]].
    destruct (IH (S k) fuel s1 ltac:(lia) Hems1) as [s' [Hrun Ht]].
    exists s'. split.
    + change (S (S n) + fuel)%nat with (S (S n + fuel)).
      rewrite GetOldAccInputHash_loop_S, GetOldAccInputHash_body_unfold.
      replace (Z.of_nat k =? 10) with false
        by (symmetry; apply Z.eqb_neq; lia).
      rewrite Hcall.
      replace (bytes_eqb ZeroHash ZeroHash) with true
        by (symmetry; now apply bytes_eqb_eq).
      cbn [negb andb Z.gtb Z.compare].
      rewrite int64_small by lia.
      replace (Z.of_nat k + 1) with (Z.of_nat (S k)) by lia. exact Hrun.
    + rewrite Ht, Ht1, <- app_assoc. reflexivity.
Qed.

(** Above batch 0 every pass steps one batch down, without counting it. *)
Lemma GetOldAccInputHash_loop_blank_down n :
  forall fuel lc s,
    0 <= lc < 10 ->
    Z.of_nat n < 2 ^ 64 ->
    etherMans s = ems ->
    exists s1,
      etherMans s1 = ems
      /\ trace s1 = trace s ++ walkDown addr rollupId n
      /\ GetOldAccInputHash_loop (n + fuel) addr rollupId lc (Z.of_nat n) s
         = GetOldAccInputHash_loop fuel addr rollupId lc 0 s1.
Proof.
  induction n as [|n IH]; intros fuel lc s Hlc Hn Hems.
  - exists s. split; [exact Hems|]. split; [cbn; now rewrite app_nil_r|].
    reflexivity.
  - destruct (callGetRollupSequencedBatches_blank (Z.of_nat (S n)) s Hems)
      as [s1 [Hcall [Hems1 Ht1]]].
    destruct (IH fuel lc s1 Hlc ltac:(lia) Hems1) as [s2 [Hems2 [Ht2 Hrun]]].
    exists s2. split; [exact Hems2|]. split.
    + rewrite Ht2, Ht1, <- app_assoc. reflexivity.
    + change (S n + fuel)%nat with (S (n + fuel)).
      rewrite GetOldAccInputHash_loop_S, GetOldAccInputHash_body_unfold.
      replace (lc =? 10) with false by (symmetry; apply Z.eqb_neq; lia).
      rewrite Hcall.
      replace (bytes_eqb ZeroHash ZeroHash) with true
        by (symmetry; now apply bytes_eqb_eq).
      replace (Z.of_nat (S n) >? 0) with true
        by (symmetry; apply Z.gtb_lt; lia).
      cbn [negb andb Z.eqb].
      rewrite uint64_small by (unfold is_uint64; lia).
      replace (Z.of_nat (S n) - 1) with (Z.of_nat n) by lia. exact Hrun.
Qed.

End ResolverBlank.

(** X9. On a roll-up without any sequenced batch (every call is answered
    with the zero hash and previous batch 0), [GetOldAccInputHash] started
    at batch [n] calls once for each batch from [n] down to 1, then ten
    times for batch 0, never sleeps in between, and returns the zero hash
    with the "too many retries" error: [n + 10] calls in all. *)
Theorem GetOldAccInputHash_walks_to_zero :
  forall n fuel addr rollupId s,
    Z.of_nat n < 2 ^ 64 ->
    (n + 11 <= fuel)%nat ->
    etherMans s <> [] ->
    (forall em t msg,
        In em (etherMans s) -> blank_answer (CallContract em t msg None)) ->
    exists s',
      GetOldAccInputHash fuel addr rollupId (Z.of_nat n) s
      = Some (Ok (Hash_zero, Some tooManyRetries) s')
      /\ trace s'
         = trace s ++ walkDown addr rollupId n
           ++ repeat (EvCallContract (callMsg addr rollupId 0)) 10
      /\ sleeps (trace s') = sleeps (trace s).
Proof.
  intros n fuel addr rollupId s Hn Hfuel Hne Hblank.
  destruct (GetOldAccInputHash_loop_blank_down addr rollupId (etherMans s)
              Hne Hblank n (fuel - n) 0 s ltac:(lia) Hn eq_refl)
    as [s1 [Hems1 [Ht1 Hdown]]].
  rewrite <- Hems1 in Hne, Hblank.
  destruct (GetOldAccInputHash_loop_blank_zero addr rollupId (etherMans s1)
              Hne Hblank 10 0 (fuel - n - 11) s1 eq_refl eq_refl)
    as [s' [Hzero Ht]].
  exists s'. unfold GetOldAccInputHash.
  assert (Htrace : trace s'
                   = trace s ++ walkDown addr rollupId n
                     ++ repeat (EvCallContract (callMsg addr rollupId 0)) 10).
  { rewrite Ht, Ht1, <- app_assoc. reflexivity. }
  split; [|split; [exact Htrace|]].
  - replace fuel with (n + (fuel - n))%nat at 1 by lia.
    rewrite Hdown.
    replace (fuel - n)%nat with (11 + (fuel - n - 11))%nat by lia.
    exact Hzero.
  - rewrite Htrace, !sleeps_app.
    assert (Hw : sleeps (walkDown addr rollupId n) = []).
    { clear. induction n as [|n IH]; [reflexivity | exact IH]. }
    rewrite Hw. cbn. now rewrite app_nil_r.
Qed.

Lemma GetOldAccInputHash_walks_to_zero_witness :
  Z.of_nat 3 < 2 ^ 64
  /\ (3 + 11 <= 14)%nat
  /\ etherMans (stubSyncer blankStub) <> []
  /\ (forall em t msg,
         In em (etherMans (stubSyncer blankStub)) ->
         blank_answer (CallContract em t msg None))
  /\ exists s',
      GetOldAccInputHash 14 [] 1 (Z.of_nat 3) (stubSyncer blankStub)
      = Some (Ok (Hash_zero, Some tooManyRetries) s')
      /\ List.length (trace s') = 13%nat.
Proof.
  assert (H1 : Z.of_nat 3 < 2 ^ 64) by (simpl; lia).
  assert (H2 : (3 + 11 <= 14)%nat) by lia.
  assert (H3 : etherMans (stubSyncer blankStub) <> []) by discriminate.
  assert (H4 : forall em t msg,
             In em (etherMans (stubSyncer blankStub)) ->
             blank_answer (CallContract em t msg None)).
  { intros em t msg [<- | []]. cbn [CallContract stubEtherman blankStub].
    cbn [blank_answer]. split; [simpl; lia|]. split; reflexivity. }
  split; [exact H1|]. split; [exact H2|]. split; [exact H3|].
  split; [exact H4|].
  destruct (GetOldAccInputHash_walks_to_zero 3 14 [] 1 _ H1 H2 H3 H4)
    as [s' [Hrun [Ht _]]].
  exists s'. split; [exact Hrun|]. rewrite Ht. reflexivity.
Defined.

(** ** More on range planning *)

(** Without wrap-around: how many jobs there are, how wide they are, and
    what their sizes add up to. *)
Lemma queryBlocks_plan_shape fuel blockRange latest low jobs :
  0 <= blockRange -> 0 <= low <= latest -> latest + blockRange < 2 ^ 64 ->
  queryBlocks_plan fuel blockRange latest low = Some jobs ->
  Z.of_nat (List.length jobs) = (latest - low) / (blockRange + 1) + 1
  /\ (exists front last,
         jobs = front ++ [last]
         /\ To last = latest
         /\ 0 <= To last - From last <= blockRange
         /\ Forall (fun j => To j - From j = blockRange) front)
  /\ total_of (map jobSize jobs)
     = latest - low - (Z.of_nat (List.length jobs) - 1).
Proof.
  intros Hr. revert low jobs.
  induction fuel as [|fuel IH]; intros low jobs Hlow Hno; [discriminate|].
  cbn [queryBlocks_plan].
  rewrite (uint64_small (low + blockRange)) by (unfold is_uint64; lia).
  assert (Hone : low + blockRange >= latest ->
                 Z.of_nat (List.length [ {| From := low; To := latest |} ])
                 = (latest - low) / (blockRange + 1) + 1
                 /\ (exists front last,
                        [ {| From := low; To := latest |} ] = front ++ [last]
                        /\ To last = latest
                        /\ 0 <= To last - From last <= blockRange
                        /\ Forall (fun j => To j - From j = blockRange) front)
                 /\ total_of (map jobSize [ {| From := low; To := latest |} ])
                    = latest - low
                      - (Z.of_nat
                           (List.length [ {| From := low; To := latest |} ])
                         - 1)).
  { intros Hge. split; [|split].
    - rewrite Z.div_small by lia. reflexivity.
    - exists [], {| From := low; To := latest |}.
      split; [reflexivity|]. split; [reflexivity|].
      split; [cbn; lia | constructor].
    - unfold total_of, jobSize. cbn [map fold_right From To List.length].
      rewrite uint64_small by (unfold is_uint64; lia). lia. }
  destruct (Z.gtb_spec (low + blockRange) latest) as [Hgt|Hle].
  - rewrite Z.eqb_refl. intros H; injection H as <-. apply Hone. lia.
  - destruct (Z.eqb_spec (low + blockRange) latest) as [Heq|Hne].
    + intros H; injection H as <-. rewrite Heq. apply Hone. lia.
    + rewrite (uint64_small (blockRange + 1)) by (unfold is_uint64; lia).
      rewrite (uint64_small (low + (blockRange + 1)))
        by (unfold is_uint64; lia).
      destruct (queryBlocks_plan fuel _ _ _) as [rest|] eqn:Hrest;
        [|discriminate].
      intros H; injection H as <-.
      assert (Hlow' : 0 <= low + (blockRange + 1) <= latest) by lia.
      destruct (IH _ _ Hlow' Hno Hrest)
        as [Hlen [[front [last [-> [Hlast [Hw Hfront]]]]] Htot]].
      split; [|split].
      * cbn [List.length]. rewrite Nat2Z.inj_succ, Hlen.
        replace (latest - low)
          with (latest - (low + (blockRange + 1)) + 1 * (blockRange + 1))
          by lia.
        rewrite Z.div_add by lia. lia.
      * exists ({| From := low; To := low + blockRange |} :: front), last.
        split; [reflexivity|]. split; [exact Hlast|]. split; [exact Hw|].
        constructor; [cbn; lia | exact Hfront].
      * cbn [map List.length]. unfold total_of in *. cbn [fold_right].
        rewrite Htot. unfold jobSize at 1. cbn [From To].
        rewrite uint64_small by (unfold is_uint64; lia).
        rewrite Nat2Z.inj_succ. lia.
Qed.

(** X10. The number and the widths of the planned jobs.  For a cycle from
    a checkpoint up to a latest block, with a block range that does not
    take the latest block out of the [uint64] range, the plan has
    [(latest - checkpoint) / (blockRange + 1) + 1] jobs; every job but the
    last spans [blockRange + 1] blocks ([To - From = blockRange]), and the
    last one ends at the latest block and spans no more. *)
Theorem queryBlocks_plan_count :
  forall fuel s jobs,
    0 <= blockRange s ->
    0 <= lastCheckedL1Block s <= latestL1Block s ->
    latestL1Block s + blockRange s < 2 ^ 64 ->
    queryBlocks_plan fuel (blockRange s) (latestL1Block s)
      (lastCheckedL1Block s) = Some jobs ->
    Z.of_nat (List.length jobs)
    = (latestL1Block s - lastCheckedL1Block s) / (blockRange s + 1) + 1
    /\ exists front last,
        jobs = front ++ [last]
        /\ To last = latestL1Block s
        /\ 0 <= To last - From last <= blockRange s
        /\ Forall (fun j => To j - From j = blockRange s) front.
Proof.
  intros fuel s jobs Hr Hlow Hno Hplan.
  destruct (queryBlocks_plan_shape _ _ _ _ _ Hr Hlow Hno Hplan)
    as [Hlen [Hshape _]].
  split; assumption.
Qed.

Lemma queryBlocks_plan_count_witness :
  0 <= blockRange (set_latestL1Block 2500 threeSyncer)
  /\ 0 <= lastCheckedL1Block (set_latestL1Block 2500 threeSyncer)
       <= latestL1Block (set_latestL1Block 2500 threeSyncer)
  /\ latestL1Block (set_latestL1Block 2500 threeSyncer)
     + blockRange (set_latestL1Block 2500 threeSyncer) < 2 ^ 64
  /\ exists jobs,
      queryBlocks_plan 3 1000 2500 0 = Some jobs
      /\ Z.of_nat (List.length jobs) = (2500 - 0) / (1000 + 1) + 1.
Proof.
  assert (H1 : 0 <= blockRange (set_latestL1Block 2500 threeSyncer))
    by (simpl; lia).
  assert (H2 : 0 <= lastCheckedL1Block (set_latestL1Block 2500 threeSyncer)
               <= latestL1Block (set_latestL1Block 2500 threeSyncer))
    by (simpl; lia).
  assert (H3 : latestL1Block (set_latestL1Block 2500 threeSyncer)
               + blockRange (set_latestL1Block 2500 threeSyncer) < 2 ^ 64)
    by (simpl; lia).
  split; [exact H1|]. split; [exact H2|]. split; [exact H3|].
  eexists.
  assert (H : queryBlocks_plan 3
                (blockRange (set_latestL1Block 2500 threeSyncer))
                (latestL1Block (set_latestL1Block 2500 threeSyncer))
                (lastCheckedL1Block (set_latestL1Block 2500 threeSyncer))
              = Some _) by reflexivity.
  split; [exact H|].
  exact (proj1 (queryBlocks_plan_count 3 _ _ H1 H2 H3 H)).
Defined.

(** X11. Progress accounting.  A worker reports [To - From] as the size of
    a job, one less than the number of its blocks; so the sizes of all
    planned jobs add up to the distance the cycle aims for less one for
    every job after the first: with more than one job the progress shown
    stays below the total even when every job is done. *)
Theorem queryBlocks_plan_sizes :
  forall fuel s jobs,
    0 <= blockRange s ->
    0 <= lastCheckedL1Block s <= latestL1Block s ->
    latestL1Block s + blockRange s < 2 ^ 64 ->
    queryBlocks_plan fuel (blockRange s) (latestL1Block s)
      (lastCheckedL1Block s) = Some jobs ->
    total_of (map jobSize jobs)
    = uint64 (latestL1Block s - lastCheckedL1Block s)
      - (Z.of_nat (List.length jobs) - 1).
Proof.
  intros fuel s jobs Hr Hlow Hno Hplan.
  destruct (queryBlocks_plan_shape _ _ _ _ _ Hr Hlow Hno Hplan)
    as [_ [_ Htot]].
  rewrite uint64_small by (unfold is_uint64; lia). exact Htot.
Qed.

Lemma queryBlocks_plan_sizes_witness :
  0 <= blockRange (set_latestL1Block 2500 threeSyncer)
  /\ 0 <= lastCheckedL1Block (set_latestL1Block 2500 threeSyncer)
       <= latestL1Block (set_latestL1Block 2500 threeSyncer)
  /\ latestL1Block (set_latestL1Block 2500 threeSyncer)
     + blockRange (set_latestL1Block 2500 threeSyncer) < 2 ^ 64
  /\ exists jobs,
      queryBlocks_plan 3 1000 2500 0 = Some jobs
      /\ total_of (map jobSize jobs) = 2498.
Proof.
  assert (H1 : 0 <= blockRange (set_latestL1Block 2500 threeSyncer))
    by (simpl; lia).
  assert (H2 : 0 <= lastCheckedL1Block (set_latestL1Block 2500 threeSyncer)
               <= latestL1Block (set_latestL1Block 2500 threeSyncer))
    by (simpl; lia).
  assert (H3 : latestL1Block (set_latestL1Block 2500 threeSyncer)
               + blockRange (set_latestL1Block 2500 threeSyncer) < 2 ^ 64)
    by (simpl; lia).
  split; [exact H1|]. split; [exact H2|]. split; [exact H3|].
  eexists.
  assert (H : queryBlocks_plan 3
                (blockRange (set_latestL1Block 2500 threeSyncer))
                (latestL1Block (set_latestL1Block 2500 threeSyncer))
                (lastCheckedL1Block (set_latestL1Block 2500 threeSyncer))
              = Some _) by reflexivity.
  split; [exact H|].
  rewrite (queryBlocks_plan_sizes 3 _ _ H1 H2 H3 H). reflexivity.
Defined.

(** ** More on the collection of results *)

Lemma forwarded_cons r rs :
  forwarded (r :: rs)
  = (if (0 <? List.length (Logs r))%nat then [Logs r] else [])
    ++ forwarded rs.
Proof.
  unfold forwarded. cbn [map filter].
  destruct (0 <? List.length (Logs r))%nat; reflexivity.
Qed.

(** The loop runs through arrivals without errors that do not yet
    complete the cycle: it forwards their logs that are not empty, sends a
    progress message for every tick unless it aims for nothing, and goes
    on with what follows. *)
Lemma queryBlocks_collect_prefix n aimingFor pre :
  forall tail progress complete s,
    Forall (fun r => Error r = None) (results_of pre) ->
    0 <= complete ->
    complete + Z.of_nat (List.length (results_of pre)) < n ->
    n < 2 ^ 63 ->
    exists progress' s1,
      queryBlocks_collect n aimingFor (pre ++ tail) progress complete s
      = queryBlocks_collect n aimingFor tail progress'
          (complete + Z.of_nat (List.length (results_of pre))) s1
      /\ logsChan s1 = logsChan s ++ forwarded (results_of pre)
      /\ List.length (progressMessageChan s1)
         = (List.length (progressMessageChan s)
            + if (aimingFor =? 0)%Z then 0 else ticks_of pre)%nat.
Proof.
  induction pre as [|[r|] pre IH];
    intros tail progress complete s Hok Hc Hn Hn63.
  - exists progress, s. cbn. rewrite Z.add_0_r, app_nil_r.
    destruct (aimingFor =? 0); rewrite Nat.add_0_r; auto.
  - change (results_of (Result r :: pre)) with (r :: results_of pre) in *.
    cbn [List.length] in Hn. rewrite Nat2Z.inj_succ in Hn.
    apply Forall_cons_iff in Hok as [Hr Hok].
    cbn [app queryBlocks_collect]. rewrite Hr.
    rewrite (int64_small (complete + 1)) by lia.
    replace (complete + 1 =? n) with false by (symmetry; apply Z.eqb_neq; lia).
    destruct (IH tail (uint64 (progress + Size r)) (complete + 1)
                (if (0 <? List.length (Logs r))%nat
                 then send_logs (Logs r) s else s) Hok)
      as [p' [s1 [Hrun [Hlogs Hprog]]]]; [lia | lia | exact Hn63 |].
    exists p', s1. split; [|split].
    + rewrite Hrun. cbn [List.length]. rewrite Nat2Z.inj_succ.
      f_equal. lia.
    + rewrite Hlogs, forwarded_cons.
      destruct (0 <? List.length (Logs r))%nat; cbn;
        [now rewrite <- app_assoc | reflexivity].
    + rewrite Hprog. unfold ticks_of. cbn [filter].
      destruct (0 <? List.length (Logs r))%nat; reflexivity.
  - change (results_of (Tick :: pre)) with (results_of pre) in *.
    cbn [app queryBlocks_collect].
    destruct (Z.eqb_spec aimingFor 0) as [Hz | Hnz].
    + destruct (IH tail progress complete s Hok Hc Hn Hn63)
        as [p' [s1 [Hrun [Hlogs Hprog]]]].
      exists p', s1. split; [exact Hrun|]. split; [exact Hlogs|].
      rewrite Hprog. replace (aimingFor =? 0) with true
        by (symmetry; now apply Z.eqb_eq). reflexivity.
    + destruct (IH tail progress complete
                  (send_progress
                     {| processed := progress; total := aimingFor;
                        percent := uint64 (progress * 100) / aimingFor |} s)
                  Hok Hc Hn Hn63)
        as [p' [s1 [Hrun [Hlogs Hprog]]]].
      exists p', s1. split; [exact Hrun|]. split; [exact Hlogs|].
      rewrite Hprog. replace (aimingFor =? 0) with false
        by (symmetry; now apply Z.eqb_neq).
      unfold ticks_of. cbn [filter List.length send_progress
                            progressMessageChan].
      rewrite length_app. cbn [List.length]. lia.
Qed.

(** The loop ends with success at the result that completes the
    cycle. *)
Lemma queryBlocks_collect_done :
  forall n aimingFor pre r rest s,
    Forall (fun r => Error r = None) (results_of pre) ->
    Error r = None ->
    Z.of_nat (List.length (results_of pre)) + 1 = n ->
    n < 2 ^ 63 ->
    exists s',
      queryBlocks_collect n aimingFor (pre ++ Result r :: rest) 0 0 s
      = Some (None, s')
      /\ logsChan s' = logsChan s ++ forwarded (results_of pre ++ [r])
      /\ List.length (progressMessageChan s')
         = (List.length (progressMessageChan s)
            + if (aimingFor =? 0)%Z then 0 else ticks_of pre)%nat.
Proof.
  intros n aimingFor pre r rest s Hok Hr Hn Hn63.
  destruct (queryBlocks_collect_prefix n aimingFor pre (Result r :: rest)
              0 0 s Hok ltac:(lia) ltac:(lia) Hn63)
    as [p' [s1 [Hrun [Hlogs Hprog]]]].
  rewrite Hrun. cbn [queryBlocks_collect]. rewrite Hr.
  rewrite int64_small by lia.
  replace (0 + Z.of_nat (List.length (results_of pre)) + 1 =? n) with true
    by (symmetry; apply Z.eqb_eq; lia).
  eexists. split; [reflexivity|].
  assert (Hf : forwarded (results_of pre ++ [r])
               = forwarded (results_of pre)
                 ++ (if (0 <? List.length (Logs r))%nat
                     then [Logs r] else [])).
  { unfold forwarded. rewrite map_app, filter_app. cbn [map filter].
    destruct (0 <? List.length (Logs r))%nat; reflexivity. }
  rewrite Hf.
  destruct (0 <? List.length (Logs r))%nat; cbn.
  - rewrite Hlogs, <- app_assoc. split; [reflexivity | exact Hprog].
  - rewrite app_nil_r. split; [exact Hlogs | exact Hprog].
Qed.


(** X12. The collection loop ends with success at the result that brings
    the count to the number of jobs, all results so far being without
    error.  By then it has sent downstream, in the order of arrival, the
    log batches that were not empty, and none that was empty; it has sent a
    progress message for every tick, or none at all when the cycle aims for
    nothing; and it does not look at what arrives later. *)
Theorem queryBlocks_collect_completes :
  forall n aimingFor pre r rest s,
    Forall (fun r => Error r = None) (results_of pre) ->
    Error r = None ->
    Z.of_nat (List.length (results_of pre)) + 1 = n ->
    n < 2 ^ 63 ->
    exists s',
      queryBlocks_collect n aimingFor (pre ++ Result r :: rest) 0 0 s
      = Some (None, s')
      /\ logsChan s' = logsChan s ++ forwarded (results_of pre ++ [r])
      /\ List.length (progressMessageChan s')
         = (List.length (progressMessageChan s)
            + if (aimingFor =? 0)%Z then 0 else ticks_of pre)%nat.
Proof. exact queryBlocks_collect_done. Qed.

Lemma queryBlocks_collect_completes_witness :
  exists s',
    queryBlocks_collect 2 100
      ([Result {| Size := 50; Error := None; Logs := [] |}; Tick]
       ++ Result {| Size := 49; Error := None;
                    Logs := [ {| BlockNumber := 7; LogData := [] |} ] |}
          :: [Tick])
      0 0 threeSyncer
    = Some (None, s')
    /\ logsChan s' = [[ {| BlockNumber := 7; LogData := [] |} ]]
    /\ List.length (progressMessageChan s') = 1%nat.
Proof.
  destruct (queryBlocks_collect_completes 2 100
              [Result {| Size := 50; Error := None; Logs := [] |}; Tick]
              {| Size := 49; Error := None;
                 Logs := [ {| BlockNumber := 7; LogData := [] |} ] |}
              [Tick] threeSyncer)
    as [s' [Hrun [Hlogs Hprog]]].
  - repeat constructor.
  - reflexivity.
  - reflexivity.
  - lia.
  - exists s'. split; [exact Hrun|]. split; [exact Hlogs | exact Hprog].
Defined.

(** X13. The first result with an error ends the collection with that
    error, provided the cycle is not complete before it.  The log batches
    of the results before it have gone downstream; those of the failed
    result and of everything after it have not. *)
Theorem queryBlocks_collect_fails :
  forall n aimingFor pre r e rest s,
    Forall (fun r => Error r = None) (results_of pre) ->
    Error r = Some e ->
    Z.of_nat (List.length (results_of pre)) < n ->
    n < 2 ^ 63 ->
    exists s',
      queryBlocks_collect n aimingFor (pre ++ Result r :: rest) 0 0 s
      = Some (Some e, s')
      /\ logsChan s' = logsChan s ++ forwarded (results_of pre).
Proof.
  intros n aimingFor pre r e rest s Hok Hr Hn Hn63.
  destruct (queryBlocks_collect_prefix n aimingFor pre (Result r :: rest)
              0 0 s Hok ltac:(lia) ltac:(lia) Hn63)
    as [p' [s1 [Hrun [Hlogs _]]]].
  rewrite Hrun. cbn [queryBlocks_collect]. rewrite Hr.
  exists s1. split; [reflexivity | exact Hlogs].
Qed.

Lemma queryBlocks_collect_fails_witness :
  exists s',
    queryBlocks_collect 3 100
      ([Result {| Size := 50; Error := None;
                  Logs := [ {| BlockNumber := 7; LogData := [] |} ] |}]
       ++ Result {| Size := 0; Error := Some (RemoteError 7);
                    Logs := [ {| BlockNumber := 8; LogData := [] |} ] |}
          :: [Result {| Size := 49; Error := None; Logs := [] |}])
      0 0 threeSyncer
    = Some (Some (RemoteError 7), s')
    /\ logsChan s' = [[ {| BlockNumber := 7; LogData := [] |} ]].
Proof.
  destruct (queryBlocks_collect_fails 3 100
              [Result {| Size := 50; Error := None;
                         Logs := [ {| BlockNumber := 7; LogData := [] |} ] |}]
              {| Size := 0; Error := Some (RemoteError 7);
                 Logs := [ {| BlockNumber := 8; LogData := [] |} ] |}
              (RemoteError 7)
              [Result {| Size := 49; Error := None; Logs := [] |}]
              threeSyncer)
    as [s' [Hrun Hlogs]].
  - repeat constructor.
  - reflexivity.
  - simpl. lia.
  - lia.
  - exists s'. split; [exact Hrun | exact Hlogs].
Defined.

(** X14. A whole cycle.  With the checkpoint at most the latest block and
    no wrap-around, [queryBlocks] returns without error as soon as it has
    received [(latest - checkpoint) / (blockRange + 1) + 1] results, one
    for each planned job, none of them with an error.  It has then sent
    downstream the log batches that were not empty, in the order of
    arrival, and has written neither the checkpoint nor the latest
    block. *)
Theorem queryBlocks_succeeds :
  forall fuel pre r rest s,
    0 <= blockRange s ->
    0 <= lastCheckedL1Block s <= latestL1Block s ->
    latestL1Block s + blockRange s + 1 < 2 ^ 63 ->
    (Z.to_nat (latestL1Block s - lastCheckedL1Block s) < fuel)%nat ->
    Forall (fun r => Error r = None) (results_of pre) ->
    Error r = None ->
    Z.of_nat (List.length (results_of pre))
    = (latestL1Block s - lastCheckedL1Block s) / (blockRange s + 1) ->
    exists s',
      queryBlocks fuel (pre ++ Result r :: rest) s = Some (None, s')
      /\ logsChan s' = logsChan s ++ forwarded (results_of pre ++ [r])
      /\ lastCheckedL1Block s' = lastCheckedL1Block s
      /\ latestL1Block s' = latestL1Block s.
Proof.
  intros fuel pre r rest s Hr Hlow Hno Hfuel Hok Herr Hcount.
  assert (Hno64 : latestL1Block s + blockRange s < 2 ^ 64).
  { assert (2 ^ 63 < 2 ^ 64) by (apply Z.pow_lt_mono_r; lia). lia. }
  destruct (queryBlocks_plan_chain fuel _ _ _ Hr Hlow Hno64 Hfuel)
    as [jobs [Hplan _]].
  destruct (queryBlocks_plan_shape _ _ _ _ _ Hr Hlow Hno64 Hplan)
    as [Hlen _].
  assert (Hdiv : (latestL1Block s - lastCheckedL1Block s)
                 / (blockRange s + 1)
                 <= latestL1Block s - lastCheckedL1Block s).
  { apply Z.div_le_upper_bound; [lia | nia]. }
  destruct (queryBlocks_collect_done (Z.of_nat (List.length jobs))
              (uint64 (latestL1Block s - lastCheckedL1Block s))
              pre r rest s Hok Herr ltac:(lia) ltac:(lia))
    as [s' [Hrun [Hlogs _]]].
  exists s'.
  assert (Hq : queryBlocks fuel (pre ++ Result r :: rest) s = Some (None, s')).
  { unfold queryBlocks. rewrite Hplan. exact Hrun. }
  split; [exact Hq|]. split; [exact Hlogs|].
  apply queryBlocks_fields in Hq as [H1 [H2 _]]. split; assumption.
Qed.

Lemma queryBlocks_succeeds_witness :
  0 <= blockRange (set_latestL1Block 2500 threeSyncer)
  /\ 0 <= lastCheckedL1Block (set_latestL1Block 2500 threeSyncer)
       <= latestL1Block (set_latestL1Block 2500 threeSyncer)
  /\ latestL1Block (set_latestL1Block 2500 threeSyncer)
     + blockRange (set_latestL1Block 2500 threeSyncer) + 1 < 2 ^ 63
  /\ exists s',
      queryBlocks 2501
        ([Result {| Size := 1000; Error := None; Logs := [] |}; Tick;
          Result {| Size := 1000; Error := None; Logs := [] |}]
         ++ Result {| Size := 498; Error := None;
                      Logs := [ {| BlockNumber := 7; LogData := [] |} ] |}
            :: [])
        (set_latestL1Block 2500 threeSyncer)
      = Some (None, s')
      /\ logsChan s' = [[ {| BlockNumber := 7; LogData := [] |} ]].
Proof.
  assert (H1 : 0 <= blockRange (set_latestL1Block 2500 threeSyncer))
    by (simpl; lia).
  assert (H2 : 0 <= lastCheckedL1Block (set_latestL1Block 2500 threeSyncer)
               <= latestL1Block (set_latestL1Block 2500 threeSyncer))
    by (simpl; lia).
  assert (H3 : latestL1Block (set_latestL1Block 2500 threeSyncer)
               + blockRange (set_latestL1Block 2500 threeSyncer) + 1 < 2 ^ 63)
    by (simpl; lia).
  split; [exact H1|]. split; [exact H2|]. split; [exact H3|].
  destruct (queryBlocks_succeeds 2501
              [Result {| Size := 1000; Error := None; Logs := [] |}; Tick;
               Result {| Size := 1000; Error := None; Logs := [] |}]
              {| Size := 498; Error := None;
                 Logs := [ {| BlockNumber := 7; LogData := [] |} ] |}
              [] (set_latestL1Block 2500 threeSyncer) H1 H2 H3)
    as [s' [Hrun [Hlogs _]]].
  - simpl. lia.
  - repeat constructor.
  - reflexivity.
  - reflexivity.
  - exists s'. split; [exact Hrun | exact Hlogs].
Defined.

(** ** More on the fetch worker *)

Lemma attempts_app a b : attempts (a ++ b) = (attempts a + attempts b)%nat.
Proof. unfold attempts. now rewrite filter_app, length_app. Qed.

Lemma results_in_app a b : results_in (a ++ b) = results_in a ++ results_in b.
Proof. unfold results_in. apply flat_map_app. Qed.

(** The retry loop with [m] attempts left (the counter at [6 - m]) and
    fuel for them: it returns after at most [m] log queries, touching the
    cursor and the trace only; between the queries it sleeps twice the
    number of failures so far, in seconds; it reports no result itself; and
    it gives up only after all [m] queries. *)
Lemma getSequencedLogs_retry_ends query m :
  forall fuel s,
    (1 <= m <= 6)%nat -> (m <= fuel)%nat ->
    etherMans s <> [] ->
    exists r i evs,
      getSequencedLogs_retry fuel query (6 - Z.of_nat m) s
      = Some (Ok r (touched i (trace s ++ evs) s))
      /\ (1 <= attempts evs <= m)%nat
      /\ sleeps evs
         = map (fun k => Z.of_nat k * 2 * Second)
             (seq (7 - m) (attempts evs - 1))
      /\ results_in evs = []
      /\ (forall e, r = GaveUp e -> attempts evs = m).
Proof.
  induction m as [|m IH]; intros fuel s Hm Hfuel Hne; [lia|].
  destruct fuel as [|fuel]; [lia|].
  cbn [getSequencedLogs_retry].
  destruct (getNextEtherman_total s Hne) as [em [s0 Hem]]. rewrite Hem.
  apply getNextEtherman_Ok in Hem as [_ [i ->]].
  set (s1 := set_ethermanIndex i s).
  set (answer := FilterLogs em (now s1) query).
  destruct answer as [logs|err] eqn:Hans.
  - exists (Fetched logs), i, [EvFilterLogs query (inl logs)].
    split; [reflexivity|]. split; [cbn; lia|]. split; [reflexivity|].
    split; [reflexivity | discriminate].
  - rewrite (int64_small (6 - Z.of_nat (S m) + 1)) by lia.
    destruct (Z.gtb_spec (6 - Z.of_nat (S m) + 1) 5) as [Hgt | Hle].
    + assert (m = 0%nat) by lia. subst m.
      exists (GaveUp err), i, [EvFilterLogs query (inr err)].
      split; [reflexivity|]. split; [cbn; lia|]. split; [reflexivity|].
      split; [reflexivity | reflexivity].
    + rewrite !(int64_small ((6 - Z.of_nat (S m) + 1) * 2)) by lia.
      rewrite (int64_small ((6 - Z.of_nat (S m) + 1) * 2 * Second))
        by (unfold Second; lia).
      replace (6 - Z.of_nat (S m) + 1) with (6 - Z.of_nat m) by lia.
      set (s2 := Sleep ((6 - Z.of_nat m) * 2 * Second)
                   (record (EvFilterLogs query (inr err)) s1)).
      destruct (IH fuel s2 ltac:(lia) ltac:(lia) Hne)
        as [r [j [evs [Hrun [Hatt [Hsl [Hres Hgave]]]]]]].
      exists r, j,
        ([EvFilterLogs query (inr err);
          EvSleep ((6 - Z.of_nat m) * 2 * Second)] ++ evs).
      split; [rewrite Hrun; unfold s2, s1, touched; cbn;
              now rewrite <- !app_assoc|].
      rewrite attempts_app, sleeps_app, results_in_app, Hsl, Hres.
      change (attempts [EvFilterLogs query (inr err);
                        EvSleep ((6 - Z.of_nat m) * 2 * Second)]) with 1%nat.
      split; [lia|]. split; [|split; [reflexivity|]].
      * replace (1 + attempts evs - 1)%nat with (S (attempts evs - 1)) by lia.
        replace (7 - m)%nat with (S (7 - S m)) by lia.
        cbn [seq map sleeps flat_map app]. f_equal.
        replace (Z.of_nat (7 - S m)) with (6 - Z.of_nat m) by lia.
        reflexivity.
      * intros e He. specialize (Hgave e He). lia.
Qed.

(** X15. However the endpoints answer, the retry loop of a fetch worker
    ends after at most six log queries.  After [a] queries it has slept
    [a - 1] times, for 2, 4, ... seconds in this order, so at most 30
    seconds in all; and it gives up only after the sixth query. *)
Theorem getSequencedLogs_retry_at_most_six :
  forall fuel query s,
    (6 <= fuel)%nat ->
    etherMans s <> [] ->
    exists r i evs,
      getSequencedLogs_retry fuel query 0 s
      = Some (Ok r (touched i (trace s ++ evs) s))
      /\ (1 <= attempts evs <= 6)%nat
      /\ sleeps evs
         = map (fun k => Z.of_nat k * 2 * Second) (seq 1 (attempts evs - 1))
      /\ total_of (sleeps evs) <= 30 * Second
      /\ (forall e, r = GaveUp e -> attempts evs = 6%nat).
Proof.
  intros fuel query s Hfuel Hne.
  destruct (getSequencedLogs_retry_ends query 6 fuel s ltac:(lia) Hfuel Hne)
    as [r [i [evs [Hrun [Hatt [Hsl [_ Hgave]]]]]]].
  exists r, i, evs. split; [exact Hrun|]. split; [exact Hatt|].
  split; [exact Hsl|]. split; [|exact Hgave].
  rewrite Hsl.
  assert (Ha : (attempts evs - 1 = 0 \/ attempts evs - 1 = 1
                \/ attempts evs - 1 = 2 \/ attempts evs - 1 = 3
                \/ attempts evs - 1 = 4 \/ attempts evs - 1 = 5)%nat) by lia.
  destruct Ha as [-> | [-> | [-> | [-> | [-> | ->]]]]];
    unfold total_of, Second; cbn; lia.
Qed.

Lemma getSequencedLogs_retry_at_most_six_witness :
  (6 <= 6)%nat
  /\ etherMans threeSyncer <> []
  /\ exists r i evs,
      getSequencedLogs_retry 6
        {| FromBlock := 0; ToBlock := 10; Addresses := []; Topics := [] |}
        0 threeSyncer
      = Some (Ok r (touched i (trace threeSyncer ++ evs) threeSyncer))
      /\ (1 <= attempts evs <= 6)%nat.
Proof.
  assert (H1 : (6 <= 6)%nat) by lia.
  assert (H2 : etherMans threeSyncer <> []) by discriminate.
  split; [exact H1|]. split; [exact H2|].
  destruct (getSequencedLogs_retry_at_most_six 6
              {| FromBlock := 0; ToBlock := 10; Addresses := [];
                 Topics := [] |} threeSyncer H1 H2)
    as [r [i [evs [Hrun [Hatt _]]]]].
  exists r, i, evs. split; [exact Hrun | exact Hatt].
Defined.

(** X16. A fetch worker with an endpoint to ask always returns.  It
    reports one result for each job it has received, in the order of the
    jobs and with the size [To - From] of the job, until a job is given
    up: the result of that job carries the error, size 0 and no logs, and
    is the last thing the worker does.  It makes at most six log queries
    for each job, and touches nothing of the syncer but the cursor and the
    trace. *)
Theorem getSequencedLogs_reports :
  forall fuel jobs s,
    (6 <= fuel)%nat ->
    etherMans s <> [] ->
    exists i evs,
      getSequencedLogs fuel jobs s
      = Some (Ok tt (touched i (trace s ++ evs) s))
      /\ reported jobs (results_in evs)
      /\ (attempts evs <= 6 * List.length jobs)%nat.
Proof.
  intros fuel jobs. induction jobs as [|j jobs IH]; intros s Hfuel Hne.
  - exists (ethermanIndex s), []. cbn [getSequencedLogs].
    split; [destruct s; unfold touched; cbn; now rewrite app_nil_r|].
    split; [constructor | cbn; lia].
  - cbn [getSequencedLogs].
    destruct (getSequencedLogs_retry_ends
                {| FromBlock := From j; ToBlock := To j;
                   Addresses := l1ContractAddresses s; Topics := topics s |}
                6 fuel s ltac:(lia) Hfuel Hne)
      as [r [i [evs [Hrun [Hatt [_ [Hres _]]]]]]].
    change (6 - Z.of_nat 6) with 0 in Hrun. rewrite Hrun.
    destruct r as [logs | err].
    + set (res := {| Size := uint64 (To j - From j); Error := None;
                     Logs := logs |}).
      destruct (IH (record (EvResult res) (touched i (trace s ++ evs) s))
                  Hfuel Hne)
        as [k [evs' [Hrest [Hrep Hatt']]]].
      exists k, (evs ++ [EvResult res] ++ evs').
      split; [rewrite Hrest; unfold touched, record; cbn;
             rewrite <- ?app_assoc; reflexivity|].
      rewrite !results_in_app, !attempts_app, Hres.
      split; [apply reported_fetched; exact Hrep|].
      cbn [List.length]. change (attempts [EvResult res]) with 0%nat. lia.
    + set (res := {| Size := 0; Error := Some err; Logs := [] |}).
      exists i, (evs ++ [EvResult res]).
      split; [unfold touched, record; cbn; rewrite <- ?app_assoc;
             reflexivity|].
      rewrite results_in_app, attempts_app, Hres.
      split; [apply reported_gave_up|].
      cbn [List.length]. change (attempts [EvResult res]) with 0%nat. lia.
Qed.

Lemma getSequencedLogs_reports_witness :
  (6 <= 6)%nat
  /\ etherMans failingLogsSyncer <> []
  /\ exists i evs,
      getSequencedLogs 6
        [ {| From := 0; To := 10 |}; {| From := 11; To := 20 |} ]
        failingLogsSyncer
      = Some (Ok tt (touched i (trace failingLogsSyncer ++ evs)
                       failingLogsSyncer))
      /\ reported [ {| From := 0; To := 10 |}; {| From := 11; To := 20 |} ]
           (results_in evs).
Proof.
  assert (H1 : (6 <= 6)%nat) by lia.
  assert (H2 : etherMans failingLogsSyncer <> []) by discriminate.
  split; [exact H1|]. split; [exact H2|].
  destruct (getSequencedLogs_reports 6
              [ {| From := 0; To := 10 |}; {| From := 11; To := 20 |} ]
              failingLogsSyncer H1 H2)
    as [i [evs [Hrun [Hrep _]]]].
  exists i, evs. split; [exact Hrun | exact Hrep].
Defined.

(** ** The flags of the poll loop *)







(** ** Blocks on demand *)

Lemma BlocksMap_get_put k k' v m :
  BlocksMap_get k (BlocksMap_put k' v m)
  = if k' =? k then Some v else BlocksMap_get k m.
Proof.
  unfold BlocksMap_get, BlocksMap_put. cbn [find fst snd].
  destruct (Z.eqb_spec k' k) as [-> | Hne]; [reflexivity|].
  induction m as [|[a b] m IH]; [reflexivity|]. cbn [filter find fst].
  destruct (Z.eqb_spec a k') as [-> | Hak]; cbn [negb].
  - replace (k' =? k) with false by (symmetry; now apply Z.eqb_neq).
    exact IH.
  - cbn [find fst]. destruct (a =? k); [reflexivity | exact IH].
Qed.

Lemma BlocksMap_put_NoDup k v m :
  NoDup (map fst m) -> NoDup (map fst (BlocksMap_put k v m)).
Proof.
  intros Hm. unfold BlocksMap_put. cbn [map fst]. constructor.
  - rewrite in_map_iff. intros [[a b] [Ha Hin]]. cbn in Ha. subst a.
    apply filter_In in Hin as [_ Hf]. cbn in Hf.
    rewrite Z.eqb_refl in Hf. discriminate.
  - induction m as [|[a b] m IH]; [constructor|].
    cbn [map fst] in Hm. apply NoDup_cons_iff in Hm as [Hnotin Hm].
    cbn [filter fst]. destruct (negb (a =? k)); [|now apply IH].
    cbn [map fst]. constructor; [|now apply IH].
    rewrite in_map_iff. intros [[a' b'] [Ha Hin]]. cbn in Ha. subst a'.
    apply filter_In in Hin as [Hin _]. apply Hnotin.
    apply in_map_iff. exists (a, b'). split; [reflexivity | exact Hin].
Qed.

(** Looking up behind a list of entries: an assignment there is as good as
    an entry put in front. *)
Lemma BlocksMap_get_app_put k l k' v m :
  BlocksMap_get k (l ++ BlocksMap_put k' v m)
  = BlocksMap_get k (l ++ (k', v) :: m).
Proof.
  induction l as [|[a b] l IH].
  - cbn [app]. rewrite BlocksMap_get_put. unfold BlocksMap_get.
    cbn [find fst snd]. destruct (k' =? k); reflexivity.
  - unfold BlocksMap_get in *. cbn [app find fst].
    destruct (a =? k); [reflexivity | exact IH].
Qed.

Lemma GetBlock_unfold number s :
  GetBlock number s =
  match getNextEtherman s with
  | Panic => Panic
  | Ok em s1 =>
      Ok (BlockByNumber em (now s1) number)
         (record (EvBlockByNumber number (BlockByNumber em (now s1) number))
            s1)
  end.
Proof.
  unfold GetBlock, bind. destruct (getNextEtherman s); reflexivity.
Qed.

(** [GetBlock] asks one endpoint once, and touches the cursor and the
    trace only. *)
Lemma GetBlock_Ok number s :
  etherMans s <> [] ->
  exists em i,
    In em (etherMans s)
    /\ GetBlock number s
       = Ok (BlockByNumber em (now s) number)
            (touched i
               (trace s ++ [EvBlockByNumber number
                              (BlockByNumber em (now s) number)]) s).
Proof.
  intros Hne. rewrite GetBlock_unfold.
  destruct (getNextEtherman_total s Hne) as [em [s1 Hem]]. rewrite Hem.
  apply getNextEtherman_Ok in Hem as [Hin [i ->]].
  exists em, i. split; [exact Hin | reflexivity].
Qed.

(** The sequential branch, started with the map [m0]: either one call for
    each log, all answered, and a map that holds for every key the last
    block entered for it; or a first failed call, after which no further
    log is looked at. *)
Lemma L1QueryBlocks_sequential_spec logs :
  forall m0 s,
    etherMans s <> [] ->
    NoDup (map fst m0) ->
    exists res i,
      (exists blocks m,
          res = inl m
          /\ List.length blocks = List.length logs
          /\ L1QueryBlocks_sequential logs m0 s
             = Ok res
                 (touched i
                    (trace s ++ blockEvents (map BlockNumber logs) blocks) s)
          /\ NoDup (map fst m)
          /\ forall k,
              BlocksMap_get k m
              = BlocksMap_get k
                  (rev (combine (map BlockNumber logs) blocks) ++ m0))
      \/ (exists pre l rest blocks e,
             res = inr e
             /\ logs = pre ++ l :: rest
             /\ List.length blocks = List.length pre
             /\ L1QueryBlocks_sequential logs m0 s
                = Ok res
                    (touched i
                       (trace s
                        ++ blockEvents (map BlockNumber pre) blocks
                        ++ [EvBlockByNumber (BlockNumber l) (inr e)]) s)).
Proof.
  induction logs as [|l logs IH]; intros m0 s Hne Hnd.
  - exists (inl m0), (ethermanIndex s). left. exists [], m0.
    split; [reflexivity|]. split; [reflexivity|].
    split; [destruct s; unfold touched; cbn; now rewrite app_nil_r|].
    split; [exact Hnd | reflexivity].
  - destruct (GetBlock_Ok (BlockNumber l) s Hne) as [em [i [_ Hget]]].
    assert (Hstep :
      L1QueryBlocks_sequential (l :: logs) m0 s
      = match BlockByNumber em (now s) (BlockNumber l) with
        | inl block =>
            L1QueryBlocks_sequential logs
              (BlocksMap_put (BlockNumber l) block m0)
              (touched i
                 (trace s ++ [EvBlockByNumber (BlockNumber l) (inl block)]) s)
        | inr e =>
            Ok (inr e)
               (touched i
                  (trace s ++ [EvBlockByNumber (BlockNumber l) (inr e)]) s)
        end).
    { cbn [L1QueryBlocks_sequential]. unfold bind. rewrite Hget.
      destruct (BlockByNumber em (now s) (BlockNumber l)); reflexivity. }
    rewrite Hstep. clear Hstep Hget.
    destruct (BlockByNumber em (now s) (BlockNumber l)) as [block|e].
    + set (s1 := touched i
                   (trace s ++ [EvBlockByNumber (BlockNumber l) (inl block)])
                   s).
      destruct (IH (BlocksMap_put (BlockNumber l) block m0) s1 Hne
                  (BlocksMap_put_NoDup _ _ _ Hnd))
        as [res [j [[blocks [m [-> [Hlen [Hrun [Hnd' Hget']]]]]]
                   | [pre [l' [rest [blocks [e [-> [-> [Hlen Hrun]]]]]]]]]]].
      * exists (inl m), j. left. exists (block :: blocks), m.
        split; [reflexivity|]. split; [simpl; congruence|].
        split; [rewrite Hrun; unfold s1, touched, blockEvents; cbn;
                rewrite <- ?app_assoc; reflexivity|].
        split; [exact Hnd'|]. intros k. rewrite Hget'.
        cbn [map combine rev]. rewrite <- app_assoc. cbn [app].
        apply BlocksMap_get_app_put.
      * exists (inr e), j. right.
        exists (l :: pre), l', rest, (block :: blocks), e.
        split; [reflexivity|]. split; [reflexivity|].
        split; [simpl; congruence|].
        rewrite Hrun. unfold s1, touched, blockEvents. cbn.
        rewrite <- ?app_assoc. reflexivity.
    + exists (inr e), i. right. exists [], l, logs, [], e.
      split; [reflexivity|]. split; [reflexivity|].
      split; reflexivity.
Qed.

Lemma BlocksMap_get_In k m :
  BlocksMap_get k m <> None <-> In k (map fst m).
Proof.
  unfold BlocksMap_get. induction m as [|[a b] m IH]; cbn [find map fst In].
  - split; [congruence | tauto].
  - destruct (Z.eqb_spec a k) as [-> | Hne].
    + split; [now left | discriminate].
    + rewrite IH. split; [now right | intros [H | H]; [congruence | exact H]].
Qed.

Lemma map_fst_combine (ns : list Z) (bs : list Block) :
  List.length bs = List.length ns -> map fst (combine ns bs) = ns.
Proof.
  revert bs. induction ns as [|n ns IH]; intros [|b bs] H;
    try discriminate; [reflexivity|].
  cbn. f_equal. apply IH. now injection H.
Qed.

(** X18. The sequential branch of [L1QueryBlocks], when it returns a map:
    it has called [GetBlock] once for every log, in the order of the logs
    and also for logs of a block asked before, and all calls were
    answered.  The map has one entry for each block number that occurs in
    the logs, and no other; the entry is the block answered to the last
    call for that number, under the number of the log whatever number the
    block itself bears.  Nothing of the syncer but the cursor and the
    trace is touched. *)
Theorem L1QueryBlocks_sequential_map :
  forall logs s m s',
    etherMans s <> [] ->
    L1QueryBlocks_sequential logs [] s = Ok (inl m) s' ->
    exists i blocks,
      List.length blocks = List.length logs
      /\ s' = touched i
                (trace s ++ blockEvents (map BlockNumber logs) blocks) s
      /\ NoDup (map fst m)
      /\ (forall k,
             BlocksMap_get k m
             = BlocksMap_get k (rev (combine (map BlockNumber logs) blocks)))
      /\ (forall k,
             BlocksMap_get k m <> None <-> In k (map BlockNumber logs)).
Proof.
  intros logs s m s' Hne Hrun.
  destruct (L1QueryBlocks_sequential_spec logs [] s Hne (NoDup_nil _))
    as [res [i [[blocks [m' [-> [Hlen [Hrun' [Hnd Hget]]]]]]
               | [pre [l [rest [blocks [e [-> [_ [_ Hrun']]]]]]]]]]];
    rewrite Hrun' in Hrun; [|discriminate].
  injection Hrun as <- <-. exists i, blocks.
  split; [exact Hlen|]. split; [reflexivity|]. split; [exact Hnd|].
  assert (Hget' : forall k,
             BlocksMap_get k m'
             = BlocksMap_get k (rev (combine (map BlockNumber logs) blocks))).
  { intros k. rewrite Hget, app_nil_r. reflexivity. }
  split; [exact Hget'|].
  intros k. rewrite Hget', BlocksMap_get_In, map_rev, <- in_rev.
  rewrite map_fst_combine by (rewrite length_map; exact Hlen). reflexivity.
Qed.

Lemma L1QueryBlocks_sequential_map_witness :
  etherMans (chainSyncer (fun _ => 100)) <> []
  /\ exists m s',
      L1QueryBlocks_sequential
        [ {| BlockNumber := 7; LogData := [] |};
          {| BlockNumber := 9; LogData := [] |};
          {| BlockNumber := 7; LogData := [] |} ] []
        (chainSyncer (fun _ => 100))
      = Ok (inl m) s'
      /\ NoDup (map fst m)
      /\ List.length (trace s') = 3%nat.
Proof.
  assert (H1 : etherMans (chainSyncer (fun _ => 100)) <> []) by discriminate.
  split; [exact H1|]. eexists. eexists.
  assert (H : L1QueryBlocks_sequential
                [ {| BlockNumber := 7; LogData := [] |};
                  {| BlockNumber := 9; LogData := [] |};
                  {| BlockNumber := 7; LogData := [] |} ] []
                (chainSyncer (fun _ => 100))
              = Ok (inl _) _) by (vm_compute; reflexivity).
  split; [exact H|].
  destruct (L1QueryBlocks_sequential_map _ _ _ _ H1 H)
    as [i [blocks [Hlen [Hs [Hnd _]]]]].
  split; [exact Hnd | reflexivity].
Defined.

(** X19. The sequential branch of [L1QueryBlocks] with an endpoint to ask
    always returns, a map or an error.  When it returns an error, that is
    the error of the first call that failed: the calls before it were
    answered, the logs after it were not looked up, and no map comes
    back. *)
Theorem L1QueryBlocks_sequential_error :
  forall logs s,
    etherMans s <> [] ->
    (exists res s', L1QueryBlocks_sequential logs [] s = Ok res s')
    /\ (forall e s',
           L1QueryBlocks_sequential logs [] s = Ok (inr e) s' ->
           exists i pre l rest blocks,
             logs = pre ++ l :: rest
             /\ List.length blocks = List.length pre
             /\ s' = touched i
                       (trace s
                        ++ blockEvents (map BlockNumber pre) blocks
                        ++ [EvBlockByNumber (BlockNumber l) (inr e)]) s).
Proof.
  intros logs s Hne.
  destruct (L1QueryBlocks_sequential_spec logs [] s Hne (NoDup_nil _))
    as [res [i [[blocks [m' [-> [Hlen [Hrun' _]]]]]
               | [pre [l [rest [blocks [e' [-> [Hlogs [Hlen Hrun']]]]]]]]]]].
  - split; [eauto|]. intros e s' Hrun. rewrite Hrun' in Hrun. discriminate.
  - split; [eauto|]. intros e s' Hrun. rewrite Hrun' in Hrun.
    injection Hrun as <- <-. exists i, pre, l, rest, blocks.
    split; [exact Hlogs|]. split; [exact Hlen | reflexivity].
Qed.

Lemma L1QueryBlocks_sequential_error_witness :
  etherMans failingLogsSyncer <> []
  /\ exists s',
      L1QueryBlocks_sequential
        [ {| BlockNumber := 7; LogData := [] |};
          {| BlockNumber := 9; LogData := [] |} ] [] failingLogsSyncer
      = Ok (inr (RemoteError 0)) s'
      /\ exists i pre l rest blocks,
          [ {| BlockNumber := 7; LogData := [] |};
            {| BlockNumber := 9; LogData := [] |} ] = pre ++ l :: rest
          /\ List.length blocks = List.length pre
          /\ s' = touched i
                    (trace failingLogsSyncer
                     ++ blockEvents (map BlockNumber pre) blocks
                     ++ [EvBlockByNumber (BlockNumber l)
                           (inr (RemoteError 0))]) failingLogsSyncer.
Proof.
  assert (H1 : etherMans failingLogsSyncer <> []) by discriminate.
  split; [exact H1|]. eexists.
  assert (H : L1QueryBlocks_sequential
                [ {| BlockNumber := 7; LogData := [] |};
                  {| BlockNumber := 9; LogData := [] |} ] [] failingLogsSyncer
              = Ok (inr (RemoteError 0)) _) by (vm_compute; reflexivity).
  split; [exact H|].
  exact (proj2 (L1QueryBlocks_sequential_error _ _ H1) _ _ H).
Defined.

(** ** Success of a cycle means success of every job *)

(** The collection loop returns without error only at the result that
    brings the count to the number of jobs, and only if no result before
    had an error. *)
Lemma queryBlocks_collect_success_inv n aimingFor arrivals :
  forall progress complete s s',
    0 <= complete < n -> n < 2 ^ 63 ->
    queryBlocks_collect n aimingFor arrivals progress complete s
    = Some (None, s') ->
    exists pre r rest,
      arrivals = pre ++ Result r :: rest
      /\ Forall (fun r => Error r = None) (results_of pre)
      /\ Error r = None
      /\ complete + Z.of_nat (List.length (results_of pre)) + 1 = n.
Proof.
  induction arrivals as [|[res|] arrivals IH];
    intros progress complete s s' Hc Hn; cbn [queryBlocks_collect];
    [discriminate| |].
  - destruct (Error res) as [e|] eqn:He; [discriminate|].
    rewrite (int64_small (complete + 1)) by lia.
    destruct (Z.eqb_spec (complete + 1) n) as [Heq | Hne].
    + intros _. exists [], res, arrivals.
      split; [reflexivity|]. split; [constructor|]. split; [exact He|].
      cbn. lia.
    + intros Hrun.
      assert (Hc' : 0 <= complete + 1 < n) by lia.
      destruct (IH _ _ _ _ Hc' Hn Hrun)
        as [pre [r [rest [-> [Hok [Hr Hcount]]]]]].
      exists (Result res :: pre), r, rest.
      split; [reflexivity|].
      change (results_of (Result res :: pre)) with (res :: results_of pre).
      split; [constructor; assumption|]. split; [exact Hr|].
      cbn [List.length]. lia.
  - intros Hrun.
    assert (Hrun' : exists p1 s1,
               queryBlocks_collect n aimingFor arrivals p1 complete s1
               = Some (None, s')).
    { destruct (aimingFor =? 0); eauto. }
    destruct Hrun' as [p1 [s1 Hrun']].
    destruct (IH _ _ _ _ Hc Hn Hrun')
      as [pre [r [rest [-> [Hok [Hr Hcount]]]]]].
    exists (Tick :: pre), r, rest.
    split; [reflexivity|]. split; [exact Hok|]. split; [exact Hr|].
    exact Hcount.
Qed.

(** X20. A cycle returns without error only when every planned job has
    reported success.  With the checkpoint at most the latest block and no
    wrap-around, if [queryBlocks] returns no error then the arrivals it has
    read end with a result, they hold exactly [(latest - checkpoint) /
    (blockRange + 1) + 1] results, the number of planned jobs, and none of
    these results carries an error. *)
Theorem queryBlocks_success_means_all :
  forall fuel arrivals s s',
    0 <= blockRange s ->
    0 <= lastCheckedL1Block s <= latestL1Block s ->
    latestL1Block s + blockRange s + 1 < 2 ^ 63 ->
    queryBlocks fuel arrivals s = Some (None, s') ->
    exists pre r rest,
      arrivals = pre ++ Result r :: rest
      /\ Forall (fun r => Error r = None) (results_of (pre ++ [Result r]))
      /\ Z.of_nat (List.length (results_of (pre ++ [Result r])))
         = (latestL1Block s - lastCheckedL1Block s) / (blockRange s + 1) + 1.
Proof.
  intros fuel arrivals s s' Hr Hlow Hno. unfold queryBlocks.
  assert (Hno64 : latestL1Block s + blockRange s < 2 ^ 64).
  { assert (2 ^ 63 < 2 ^ 64) by (apply Z.pow_lt_mono_r; lia). lia. }
  destruct (queryBlocks_plan fuel _ _ _) as [jobs|] eqn:Hplan; [|discriminate].
  destruct (queryBlocks_plan_shape _ _ _ _ _ Hr Hlow Hno64 Hplan)
    as [Hlen _].
  assert (Hdiv : 0 <= (latestL1Block s - lastCheckedL1Block s)
                      / (blockRange s + 1)
                 <= latestL1Block s - lastCheckedL1Block s).
  { split; [apply Z.div_pos; lia|].
    apply Z.div_le_upper_bound; [lia | nia]. }
  intros Hrun.
  assert (Hc0 : 0 <= 0 < Z.of_nat (List.length jobs)) by lia.
  assert (Hn63 : Z.of_nat (List.length jobs) < 2 ^ 63) by lia.
  destruct (queryBlocks_collect_success_inv _ _ _ _ _ _ _ Hc0 Hn63 Hrun)
    as [pre [r [rest [-> [Hok [Herr Hcount]]]]]].
  exists pre, r, rest. split; [reflexivity|].
  assert (Hres : results_of (pre ++ [Result r]) = results_of pre ++ [r]).
  { unfold results_of. rewrite flat_map_app. reflexivity. }
  rewrite Hres. split.
  - apply Forall_app. split; [exact Hok | constructor; [exact Herr | constructor]].
  - rewrite length_app. cbn [List.length]. lia.
Qed.

Lemma queryBlocks_success_means_all_witness :
  0 <= blockRange (set_latestL1Block 2500 threeSyncer)
  /\ 0 <= lastCheckedL1Block (set_latestL1Block 2500 threeSyncer)
       <= latestL1Block (set_latestL1Block 2500 threeSyncer)
  /\ latestL1Block (set_latestL1Block 2500 threeSyncer)
     + blockRange (set_latestL1Block 2500 threeSyncer) + 1 < 2 ^ 63
  /\ exists s' pre r rest,
      queryBlocks 3
        [Result {| Size := 1000; Error := None; Logs := [] |}; Tick;
         Result {| Size := 1000; Error := None; Logs := [] |};
         Result {| Size := 498; Error := None; Logs := [] |}; Tick]
        (set_latestL1Block 2500 threeSyncer)
      = Some (None, s')
      /\ [Result {| Size := 1000; Error := None; Logs := [] |}; Tick;
          Result {| Size := 1000; Error := None; Logs := [] |};
          Result {| Size := 498; Error := None; Logs := [] |}; Tick]
         = pre ++ Result r :: rest
      /\ Z.of_nat (List.length (results_of (pre ++ [Result r]))) = 3.
Proof.
  assert (H1 : 0 <= blockRange (set_latestL1Block 2500 threeSyncer))
    by (simpl; lia).
  assert (H2 : 0 <= lastCheckedL1Block (set_latestL1Block 2500 threeSyncer)
               <= latestL1Block (set_latestL1Block 2500 threeSyncer))
    by (simpl; lia).
  assert (H3 : latestL1Block (set_latestL1Block 2500 threeSyncer)
               + blockRange (set_latestL1Block 2500 threeSyncer) + 1 < 2 ^ 63)
    by (simpl; lia).
  split; [exact H1|]. split; [exact H2|]. split; [exact H3|].
  eexists.
  assert (H : queryBlocks 3
                [Result {| Size := 1000; Error := None; Logs := [] |}; Tick;
                 Result {| Size := 1000; Error := None; Logs := [] |};
                 Result {| Size := 498; Error := None; Logs := [] |}; Tick]
                (set_latestL1Block 2500 threeSyncer)
              = Some (None, _)) by (vm_compute; reflexivity).
  destruct (queryBlocks_success_means_all _ _ _ _ H1 H2 H3 H)
    as [pre [r [rest [Harr [_ Hcount]]]]].
  exists pre, r, rest. split; [exact H|]. split; [exact Harr | exact Hcount].
Defined.

(** ** The database comparison *)

Lemma compareDbs_loop_spec Senders tables db1 db2 :
  forall acc ds,
    compareDbs_loop Senders tables db1 db2 acc = (ds, None) ->
    exists new,
      ds = acc ++ new
      /\ (new = [] <->
          forall table,
            In table tables -> table <> Senders ->
            fst (countKeysInDb db1 table) = fst (countKeysInDb db2 table))
      /\ (forall table,
             In table tables -> table <> Senders ->
             snd (countKeysInDb db1 table) = None
             /\ snd (countKeysInDb db2 table) = None).
Proof.
  induction tables as [|table tables IH]; intros acc ds;
    cbn [compareDbs_loop].
  - intros H; injection H as <-. exists []. rewrite app_nil_r.
    split; [reflexivity|]. split; [|intros t []].
    split; [intros _ t [] | reflexivity].
  - unfold excludedTables. cbn [existsb]. rewrite orb_false_r.
    destruct (String.eqb_spec table Senders) as [-> | Hne].
    + intros H. destruct (IH _ _ H) as [new [Hds [Hiff Hok]]].
      exists new. split; [exact Hds|]. split.
      * rewrite Hiff. split; intros Hall t Hin Ht.
        -- destruct Hin as [<- | Hin]; [congruence | now apply Hall].
        -- apply Hall; [now right | exact Ht].
      * intros t [<- | Hin] Ht; [congruence | now apply Hok].
    + destruct (countKeysInDb db1 table) as [c1 [e1|]] eqn:H1; [discriminate|].
      destruct (countKeysInDb db2 table) as [c2 [e2|]] eqn:H2; [discriminate|].
      destruct (Z.eqb_spec c1 c2) as [Heq | Hneq]; cbn [negb]; intros H;
        destruct (IH _ _ H) as [new [Hds [Hiff Hok]]].
      * exists new. split; [exact Hds|]. split.
        -- rewrite Hiff. split; intros Hall t Hin Ht.
           ++ destruct Hin as [<- | Hin]; [|now apply Hall].
              rewrite H1, H2. exact Heq.
           ++ apply Hall; [now right | exact Ht].
        -- intros t [<- | Hin] Ht; [|now apply Hok].
           rewrite H1, H2. split; reflexivity.
      * eexists. split; [rewrite Hds, <- app_assoc; reflexivity|]. split.
        -- split; [discriminate|]. intros Hall. exfalso. apply Hneq.
           specialize (Hall table (or_introl eq_refl) Hne).
           rewrite H1, H2 in Hall. exact Hall.
        -- intros t [<- | Hin] Ht; [|now apply Hok].
           rewrite H1, H2. split; reflexivity.
Qed.

(** X21. When [compareDbs] returns without error, every table of the
    list but the table of senders was counted in both databases, and the
    list of discrepancies is empty exactly when these counts agree table
    by table.  In particular a database that answers alike each time it
    is asked, compared with itself, never shows a discrepancy. *)
Theorem compareDbs_discrepancies :
  forall ChaindataTables Senders db1 db2 ds,
    compareDbs ChaindataTables Senders db1 db2 = (ds, None) ->
    (ds = [] <->
     forall table,
       In table ChaindataTables -> table <> Senders ->
       fst (countKeysInDb db1 table) = fst (countKeysInDb db2 table))
    /\ (forall table,
           In table ChaindataTables -> table <> Senders ->
           snd (countKeysInDb db1 table) = None
           /\ snd (countKeysInDb db2 table) = None)
    /\ (db1 = db2 -> ds = []).
Proof.
  intros tables Senders db1 db2 ds H. unfold compareDbs in H.
  destruct (compareDbs_loop_spec _ _ _ _ _ _ H) as [new [-> [Hiff Hok]]].
  cbn [app]. split; [exact Hiff|]. split; [exact Hok|].
  intros ->. apply Hiff. reflexivity.
Qed.

Lemma compareDbs_discrepancies_witness :
  compareDbs ["Header"; "TxSender"; "Receipt"]%string "TxSender"%string
    (tableSizes 5 6 7) (tableSizes 5 9 7)
  = ([], None)
  /\ forall table,
      In table ["Header"; "TxSender"; "Receipt"]%string ->
      table <> "TxSender"%string ->
      fst (countKeysInDb (tableSizes 5 6 7) table)
      = fst (countKeysInDb (tableSizes 5 9 7) table).
Proof.
  assert (H : compareDbs ["Header"; "TxSender"; "Receipt"]%string
                "TxSender"%string (tableSizes 5 6 7) (tableSizes 5 9 7)
              = ([], None)) by reflexivity.
  split; [exact H|].
  apply (proj1 (compareDbs_discrepancies _ _ _ _ _ H)). reflexivity.
Defined.

(** X22. [compareDbs] never counts the table of senders: two pairs of
    databases that count alike on every other table get the same
    answer. *)
Theorem compareDbs_ignores_senders :
  forall ChaindataTables Senders db1 db2 db1' db2',
    (forall table, table <> Senders ->
                   countKeysInDb db1 table = countKeysInDb db1' table) ->
    (forall table, table <> Senders ->
                   countKeysInDb db2 table = countKeysInDb db2' table) ->
    compareDbs ChaindataTables Senders db1 db2
    = compareDbs ChaindataTables Senders db1' db2'.
Proof.
  intros tables Senders db1 db2 db1' db2' H1 H2. unfold compareDbs.
  generalize (@nil string) as acc.
  induction tables as [|table tables IH]; intros acc; cbn [compareDbs_loop];
    [reflexivity|].
  unfold excludedTables. cbn [existsb]. rewrite orb_false_r.
  destruct (String.eqb_spec table Senders) as [-> | Hne]; [apply IH|].
  rewrite <- (H1 table Hne), <- (H2 table Hne).
  destruct (countKeysInDb db1 table) as [c1 [e1|]]; [reflexivity|].
  destruct (countKeysInDb db2 table) as [c2 [e2|]]; [reflexivity|].
  destruct (negb (c1 =? c2)); apply IH.
Qed.

Lemma compareDbs_ignores_senders_witness :
  (forall table, table <> "TxSender"%string ->
                 countKeysInDb (tableSizes 5 6 7) table
                 = countKeysInDb (tableSizes 5 9 7) table)
  /\ compareDbs ["Header"; "TxSender"; "Receipt"]%string "TxSender"%string
       (tableSizes 5 6 7) (tableSizes 5 6 8)
     = compareDbs ["Header"; "TxSender"; "Receipt"]%string "TxSender"%string
         (tableSizes 5 9 7) (tableSizes 5 6 8).
Proof.
  assert (H1 : forall table, table <> "TxSender"%string ->
               countKeysInDb (tableSizes 5 6 7) table
               = countKeysInDb (tableSizes 5 9 7) table).
  { intros table Hne. unfold countKeysInDb, tableSizes. cbn [BeginRo BucketSize].
    destruct (String.eqb table "Header"); [reflexivity|].
    destruct (String.eqb_spec table "TxSender"); [congruence|].
    reflexivity. }
  split; [exact H1|].
  apply compareDbs_ignores_senders; [exact H1 | reflexivity].
Defined.

Lemma compareDbs_loop_error Senders tables db1 db2 :
  forall acc ds e,
    compareDbs_loop Senders tables db1 db2 acc = (ds, Some e) ->
    ds = []
    /\ exists pre table post cause,
        tables = pre ++ table :: post
        /\ table <> Senders
        /\ (forall t, In t pre -> t <> Senders ->
                      snd (countKeysInDb db1 t) = None
                      /\ snd (countKeysInDb db2 t) = None)
        /\ ((snd (countKeysInDb db1 table) = Some cause
             /\ e = Errorf_w
                      ("error counting keys in unwound db for table "
                       ++ table ++ ": ")%string cause)
            \/ (snd (countKeysInDb db1 table) = None
                /\ snd (countKeysInDb db2 table) = Some cause
                /\ e = Errorf_w
                         ("error counting keys in comparison db for table "
                          ++ table ++ ": ")%string cause)).
Proof.
  induction tables as [|table tables IH]; intros acc ds e;
    cbn [compareDbs_loop]; [discriminate|].
  unfold excludedTables. cbn [existsb]. rewrite orb_false_r.
  assert (Hlater :
            forall acc',
              compareDbs_loop Senders tables db1 db2 acc' = (ds, Some e) ->
              (table <> Senders ->
               snd (countKeysInDb db1 table) = None
               /\ snd (countKeysInDb db2 table) = None) ->
              ds = []
              /\ exists pre table0 post cause,
                  table :: tables = pre ++ table0 :: post
                  /\ table0 <> Senders
                  /\ (forall t, In t pre -> t <> Senders ->
                                snd (countKeysInDb db1 t) = None
                                /\ snd (countKeysInDb db2 t) = None)
                  /\ ((snd (countKeysInDb db1 table0) = Some cause
                       /\ e = Errorf_w
                                ("error counting keys in unwound db for table "
                                 ++ table0 ++ ": ")%string cause)
                      \/ (snd (countKeysInDb db1 table0) = None
                          /\ snd (countKeysInDb db2 table0) = Some cause
                          /\ e = Errorf_w
                                   ("error counting keys in comparison db for table "
                                    ++ table0 ++ ": ")%string cause))).
  { intros acc' H Hhere.
    destruct (IH _ _ _ H) as [Hds [pre [t0 [post [cause [Ht [Hne [Hpre Hc]]]]]]]].
    split; [exact Hds|].
    exists (table :: pre), t0, post, cause.
    split; [rewrite Ht; reflexivity|]. split; [exact Hne|].
    split; [|exact Hc].
    intros t [<- | Hin] Hts; [now apply Hhere | now apply Hpre]. }
  destruct (String.eqb_spec table Senders) as [-> | Hne].
  - intros H. apply (Hlater _ H). intros Hc; congruence.
  - destruct (countKeysInDb db1 table) as [c1 [e1|]] eqn:H1.
    + intros H; injection H as <- <-. split; [reflexivity|].
      exists [], table, tables, e1.
      split; [reflexivity|]. split; [exact Hne|]. split; [intros t []|].
      left. rewrite H1. split; reflexivity.
    + destruct (countKeysInDb db2 table) as [c2 [e2|]] eqn:H2.
      * intros H; injection H as <- <-. split; [reflexivity|].
        exists [], table, tables, e2.
        split; [reflexivity|]. split; [exact Hne|]. split; [intros t []|].
        right. rewrite H1, H2. repeat split; reflexivity.
      * destruct (negb (c1 =? c2)); intros H; apply (Hlater _ H);
          intros _; rewrite ?H1, ?H2; split; reflexivity.
Qed.

(** X23. When [compareDbs] fails, it returns no discrepancy at all, also
    when earlier tables differed.  The error names the first table of the
    list, other than the table of senders, that one of the databases does
    not count; every table before it was counted in both; the first
    database is asked before the second, and the error wraps the
    database's own. *)
Theorem compareDbs_first_error :
  forall ChaindataTables Senders db1 db2 ds e,
    compareDbs ChaindataTables Senders db1 db2 = (ds, Some e) ->
    ds = []
    /\ exists pre table post cause,
        ChaindataTables = pre ++ table :: post
        /\ table <> Senders
        /\ (forall t, In t pre -> t <> Senders ->
                      snd (countKeysInDb db1 t) = None
                      /\ snd (countKeysInDb db2 t) = None)
        /\ ((snd (countKeysInDb db1 table) = Some cause
             /\ e = Errorf_w
                      ("error counting keys in unwound db for table "
                       ++ table ++ ": ")%string cause)
            \/ (snd (countKeysInDb db1 table) = None
                /\ snd (countKeysInDb db2 table) = Some cause
                /\ e = Errorf_w
                         ("error counting keys in comparison db for table "
                          ++ table ++ ": ")%string cause)).
Proof.
  intros tables Senders db1 db2 ds e H.
  exact (compareDbs_loop_error _ _ _ _ _ _ _ H).
Qed.

Lemma compareDbs_first_error_witness :
  compareDbs ["Header"; "TxSender"; "Receipt"; "Log"]%string "TxSender"%string
    (tableSizes 5 6 7) (tableSizes 4 6 7)
  = ([], Some (Errorf_w "error counting keys in unwound db for table Log: "
                 (RemoteError 404)))
  /\ (@nil string) = [].
Proof.
  assert (H : compareDbs ["Header"; "TxSender"; "Receipt"; "Log"]%string
                "TxSender"%string (tableSizes 5 6 7) (tableSizes 4 6 7)
              = ([], Some (Errorf_w
                             "error counting keys in unwound db for table Log: "
                             (RemoteError 404)))) by reflexivity.
  split; [exact H|].
  exact (proj1 (compareDbs_first_error _ _ _ _ _ _ H)).
Defined.
